(** * KickbackApp model tools: [quantize_openelm.py] and [inspect_weights.py]

    A shallow embedding of the two scripts and the properties of their
    specification.

    Definitions
    - [Float]     : the binary formats of the three floating dtypes
                    (float32, float16, bfloat16); every operation returns
                    the exact result rounded to nearest-even, with the
                    IEEE-754 infinities and NaN.  [Reference] compares it
                    with [SpecFloat] of the Standard Library.
    - [Dict]      : Python's insertion-ordered [dict], an association list.
    - tensors, strings, and the process environment: files by path,
      standard output, the log of I/O operations, exceptions, and the
      monad [M] of computations over them.
    - [Quantizer] : [quantize_openelm_model] and [main].
    - [Inspector] : the module body of [inspect_weights.py].
    - [Samples]   : the concrete inputs of the examples.

    Facts and properties follow: arithmetic, names and dictionaries, the
    quantization loop, the two scripts, the properties of the
    specification, C1 to C10, and further properties of the two scripts,
    X1 onwards.

    What the model leaves out: the sign of zero; the text of the lines
    that format a float or a container (they are kept as the values they
    show); lowercasing outside ASCII; the bytes of the container format
    (a file holds its tensors). *)

From Stdlib Require Import ZArith QArith Qround Qabs Qpower Lia Lqa.
From Stdlib Require Import List Bool String Ascii DecimalString.
From Stdlib Require Import Sorting.Sorted Sorting.Permutation.
From Stdlib Require Import Floats.SpecFloat.
Import ListNotations.

Local Open Scope Z_scope.

(* ================================================================== *)
(** * Floating-point arithmetic of the tensor library *)
(* ================================================================== *)

Module Float.

(** A binary format: [prec] significand bits (hidden bit included) and
    [emax], so that finite values are below [2^emax]. *)
Record format : Type := mkFormat { prec : Z; emax : Z }.

Definition binary32 : format := mkFormat 24 128.
Definition binary64 : format := mkFormat 53 1024.
Definition binary16 : format := mkFormat 11 16.
Definition bfloat16_fmt : format := mkFormat 8 128.

(** Exponent of the last place of the subnormal numbers. *)
Definition emin (fmt : format) : Z := 3 - emax fmt - prec fmt.

(** A floating-point datum: the finite number [m * 2^e], an infinity or a
    NaN.  The sign of zero is not tracked: no operation of the quantizer
    observes it (its divisor [scale] is never a negative zero, since
    [x - x] is [+0] under round-to-nearest). *)
Inductive fval : Type :=
| Fin (m e : Z)
| Inf (neg : bool)
| NaN.

Definition pow2 (e : Z) : Q := Qpower 2 e.

Definition F2Q (x : fval) : Q :=
  match x with
  | Fin m e => inject_Z m * pow2 e
  | _ => 0
  end.

Definition is_finite (x : fval) : bool :=
  match x with Fin _ _ => true | _ => false end.

Definition is_nan (x : fval) : bool :=
  match x with NaN => true | _ => false end.

Definition is_zero (x : fval) : bool :=
  match x with Fin m _ => m =? 0 | _ => false end.

(** [floor (log2 a)] for a positive rational [a]. *)
Definition Qlog2 (a : Q) : Z :=
  let n := Qnum a in
  let d := Zpos (Qden a) in
  let k := Z.log2 n - Z.log2 d in
  if n * 2 ^ Z.max (- k) 0 <? d * 2 ^ Z.max k 0 then k - 1 else k.

(** Nearest integer, ties to even. *)
Definition rne (q : Q) : Z :=
  let f := Qfloor q in
  match Qcompare (q - inject_Z f) (1 # 2) with
  | Lt => f
  | Gt => f + 1
  | Eq => if Z.even f then f else f + 1
  end.

(** Rounding of an exact result to the format: the significand is cut at
    [prec] bits (fewer in the subnormal range) and rounded to nearest
    even; a result that reaches [2^emax] overflows to an infinity. *)
Definition round (fmt : format) (q : Q) : fval :=
  if Qeq_bool q 0 then Fin 0 0
  else
    let e := Z.max (Qlog2 (Qabs q) - prec fmt + 1) (emin fmt) in
    let m := rne (q / pow2 e) in
    if Qle_bool (pow2 (emax fmt)) (Qabs (inject_Z m * pow2 e))
    then Inf (m <? 0)
    else Fin m e.

Definition of_Z (fmt : format) (z : Z) : fval := round fmt (inject_Z z).

Definition fopp (x : fval) : fval :=
  match x with
  | Fin m e => Fin (- m) e
  | Inf s => Inf (negb s)
  | NaN => NaN
  end.

Definition fsub (fmt : format) (x y : fval) : fval :=
  match x, y with
  | NaN, _ | _, NaN => NaN
  | Inf sx, Inf sy => if Bool.eqb sx sy then NaN else Inf sx
  | Inf sx, Fin _ _ => Inf sx
  | Fin _ _, Inf sy => Inf (negb sy)
  | Fin _ _, Fin _ _ => round fmt (F2Q x - F2Q y)
  end.

Definition fsign (x : fval) : bool :=
  match x with
  | Fin m _ => m <? 0
  | Inf s => s
  | NaN => false
  end.

Definition fdiv (fmt : format) (x y : fval) : fval :=
  match x, y with
  | NaN, _ | _, NaN => NaN
  | Inf _, Inf _ => NaN
  | Inf sx, Fin _ _ => Inf (xorb sx (fsign y))
  | Fin _ _, Inf _ => Fin 0 0
  | Fin _ _, Fin _ _ =>
      if is_zero y
      then if is_zero x then NaN else Inf (fsign x)
      else round fmt (F2Q x / F2Q y)
  end.

Definition fmul (fmt : format) (x y : fval) : fval :=
  match x, y with
  | NaN, _ | _, NaN => NaN
  | Inf sx, Inf sy => Inf (xorb sx sy)
  | Inf sx, Fin _ _ => if is_zero y then NaN else Inf (xorb sx (fsign y))
  | Fin _ _, Inf sy => if is_zero x then NaN else Inf (xorb (fsign x) sy)
  | Fin _ _, Fin _ _ => round fmt (F2Q x * F2Q y)
  end.

Definition fadd (fmt : format) (x y : fval) : fval :=
  match x, y with
  | NaN, _ | _, NaN => NaN
  | Inf sx, Inf sy => if Bool.eqb sx sy then Inf sx else NaN
  | Inf sx, Fin _ _ => Inf sx
  | Fin _ _, Inf sy => Inf sy
  | Fin _ _, Fin _ _ => round fmt (F2Q x + F2Q y)
  end.

(** [x < y]; false as soon as one side is a NaN. *)
Definition flt (x y : fval) : bool :=
  match x, y with
  | NaN, _ | _, NaN => false
  | Inf sx, Inf sy => sx && negb sy
  | Inf sx, Fin _ _ => sx
  | Fin _ _, Inf sy => negb sy
  | Fin _ _, Fin _ _ =>
      match Qcompare (F2Q x) (F2Q y) with Lt => true | _ => false end
  end.

(** Element-wise minimum and maximum; a NaN operand is propagated. *)
Definition fminimum (x y : fval) : fval :=
  if is_nan x then x else if is_nan y then y else if flt y x then y else x.

Definition fmaximum (x y : fval) : fval :=
  if is_nan x then x else if is_nan y then y else if flt x y then y else x.

(** [mx.clip(x, lo, hi)] is [minimum (maximum x lo) hi]. *)
Definition clip (x lo hi : fval) : fval := fminimum (fmaximum x lo) hi.

(** Truncation toward zero. *)
Definition Qtrunc (q : Q) : Z :=
  if Qle_bool 0 q then Qfloor q else Qceiling q.

(** Conversion of a float to an 8-bit signed integer: the fractional part
    is discarded (truncation toward zero, as a C cast does).  The cast of a
    NaN or of a value out of range is not defined by the language; the
    table below is what the ARM64 conversion yields (NaN to 0, saturation),
    and no property proved here depends on it. *)
Definition astype_int8 (x : fval) : Z :=
  match x with
  | Fin _ _ => Z.max (-128) (Z.min 127 (Qtrunc (F2Q x)))
  | Inf true => -128
  | Inf false => 127
  | NaN => 0
  end.

(** The values an 8-bit signed integer cast accepts: finite numbers whose
    truncation fits. *)
Definition int8_castable (x : fval) : Prop :=
  is_finite x = true /\ (- (128) <= F2Q x <= 127)%Q.

(** [x] is a datum of the format. *)
Definition representable (fmt : format) (x : fval) : bool :=
  match x with
  | Fin _ _ =>
      match round fmt (F2Q x) with
      | Fin m e => Qeq_bool (F2Q (Fin m e)) (F2Q x)
      | _ => false
      end
  | _ => true
  end.

End Float.

(** ** The reference arithmetic of the Standard Library

    [SpecFloat] specifies the IEEE-754 operations on integer significands;
    the operations above are compared with it on sample operands. *)

Module Reference.
Import Float.

Definition to_spec (fmt : format) (x : fval) : spec_float :=
  match x with
  | Fin m e => binary_normalize (prec fmt) (emax fmt) m e false
  | Inf s => S754_infinity s
  | NaN => S754_nan
  end.

(** Equality of data, the sign of zero apart. *)
Definition same_datum (x y : spec_float) : bool :=
  match x, y with
  | S754_zero _, S754_zero _ => true
  | S754_finite s m e, S754_finite s' m' e' =>
      Bool.eqb s s' && (Z.pos m =? Z.pos m') && (e =? e')
  | S754_infinity s, S754_infinity s' => Bool.eqb s s'
  | S754_nan, S754_nan => true
  | _, _ => false
  end.

Definition sub_agrees (fmt : format) (a b : fval) : bool :=
  same_datum (to_spec fmt (fsub fmt a b))
    (SFsub (prec fmt) (emax fmt) (to_spec fmt a) (to_spec fmt b)).

Definition div_agrees (fmt : format) (a b : fval) : bool :=
  same_datum (to_spec fmt (fdiv fmt a b))
    (SFdiv (prec fmt) (emax fmt) (to_spec fmt a) (to_spec fmt b)).

Definition operands : list fval :=
  map (fun p => Fin (fst p) (snd p))
    [ (0, 0); (1, 0); (3, -1); (255, 0); (128, 0); (173, -10); (-32, 0);
      (1, -3); (7, -6); (11, 0); (189, 0); (803, -2); (40000, 0);
      (-40000, 0);
      (7, -20); (12345, -7); (1, -24); (1, -140); (65504, 0); (-5, 3);
      (999, -9); (8388607, -23); (16777215, -149); (1, -149); (2047, 5);
      (255, 120); (-255, -130); (129, -7) ].

(** All the subtractions and divisions between the operands that are data
    of the format agree. *)
Definition agrees_on_operands (fmt : format) : bool :=
  let ps := filter (representable fmt) operands in
  forallb (fun a =>
     forallb (fun b => sub_agrees fmt a b && div_agrees fmt a b) ps) ps.

End Reference.

(* ================================================================== *)
(** * Python dictionaries *)
(* ================================================================== *)

(** Keys of a dictionary: a type with a boolean equality. *)
Class EqKey (K : Type) : Type := key_eqb : K -> K -> bool.

#[global] Instance string_EqKey : EqKey string := String.eqb.
#[global] Instance nat_EqKey : EqKey nat := Nat.eqb.

Module Dict.

Section Ops.
Context {K V : Type} `{EqKey K}.

(** The entries in insertion order, as [d.items()] yields them. *)
Definition dict : Type := list (K * V).

Definition empty : dict := [].

Fixpoint get (k : K) (d : dict) : option V :=
  match d with
  | [] => None
  | (k', v) :: d' => if key_eqb k k' then Some v else get k d'
  end.

(** [d.get(k, default)] *)
Definition get_default (k : K) (default : V) (d : dict) : V :=
  match get k d with Some v => v | None => default end.

(** [d[k] = v]: the entry of an existing key is replaced where it
    stands, a new key goes to the end. *)
Fixpoint set (k : K) (v : V) (d : dict) : dict :=
  match d with
  | [] => [(k, v)]
  | (k', v') :: d' =>
      if key_eqb k k' then (k', v) :: d' else (k', v') :: set k v d'
  end.

Definition keys (d : dict) : list K := map fst d.
Definition items (d : dict) : list (K * V) := d.
Definition len (d : dict) : nat := List.length d.
Definition mem (k : K) (d : dict) : bool :=
  match get k d with Some _ => true | None => false end.
End Ops.

Arguments dict : clear implicits.

End Dict.

(* ================================================================== *)
(** * Tensors *)
(* ================================================================== *)

Inductive dtype : Type :=
| bool_ | uint8 | uint16 | uint32 | uint64
| int8 | int16 | int32 | int64
| float16 | float32 | float64 | bfloat16 | complex64.

Definition dtype_eqb (a b : dtype) : bool :=
  match a, b with
  | bool_, bool_ | uint8, uint8 | uint16, uint16 | uint32, uint32
  | uint64, uint64 | int8, int8 | int16, int16 | int32, int32
  | int64, int64 | float16, float16 | float32, float32
  | float64, float64 | bfloat16, bfloat16 | complex64, complex64 => true
  | _, _ => false
  end.

(** Bytes per element. *)
Definition itemsize (d : dtype) : N :=
  match d with
  | bool_ | uint8 | int8 => 1
  | uint16 | int16 | float16 | bfloat16 => 2
  | uint32 | int32 | float32 => 4
  | uint64 | int64 | float64 | complex64 => 8
  end%N.

(** [str(dtype)] *)
Definition dtype_str (d : dtype) : string :=
  match d with
  | bool_ => "mlx.core.bool" | uint8 => "mlx.core.uint8"
  | uint16 => "mlx.core.uint16" | uint32 => "mlx.core.uint32"
  | uint64 => "mlx.core.uint64" | int8 => "mlx.core.int8"
  | int16 => "mlx.core.int16" | int32 => "mlx.core.int32"
  | int64 => "mlx.core.int64" | float16 => "mlx.core.float16"
  | float32 => "mlx.core.float32" | float64 => "mlx.core.float64"
  | bfloat16 => "mlx.core.bfloat16"
  | complex64 => "mlx.core.complex64"
  end%string.

(** The arithmetic format of a floating dtype. *)
Definition dtype_format (d : dtype) : Float.format :=
  match d with
  | float16 => Float.binary16
  | bfloat16 => Float.bfloat16_fmt
  | float64 => Float.binary64
  | _ => Float.binary32
  end.

(** The elements of an array in row-major order: floating-point data for
    the floating dtypes, the element words for every other dtype. *)
Inductive payload : Type :=
| FloatData (xs : list Float.fval)
| RawData (zs : list Z).

Record tensor : Type := mkTensor {
  t_dtype : dtype;
  t_shape : list N;
  t_data : payload
}.

Definition size (t : tensor) : N := fold_right N.mul 1%N (t_shape t).
Definition nbytes (t : tensor) : N := (size t * itemsize (t_dtype t))%N.

Definition elems (t : tensor) : list Float.fval :=
  match t_data t with
  | FloatData xs => xs
  | RawData zs => map (fun z => Float.Fin z 0) zs
  end.

(** A zero-rank array holding one floating-point value. *)
Definition scalar (d : dtype) (x : Float.fval) : tensor :=
  mkTensor d [] (FloatData [x]).

Definition is_scalar (t : tensor) : bool :=
  match t_shape t with [] => true | _ => false end.

(** Every element is a datum of the tensor's floating format and the
    element count matches the shape. *)
Definition well_formed_float (t : tensor) : bool :=
  match t_data t with
  | FloatData xs =>
      forallb (Float.representable (dtype_format (t_dtype t))) xs
      && (N.of_nat (List.length xs) =? size t)%N
  | RawData _ => false
  end.

(* ================================================================== *)
(** * Strings *)
(* ================================================================== *)

Local Open Scope string_scope.

(** [s.endswith(suffix)] *)
Definition ends_with (s suffix : string) : bool :=
  let ls := String.length s in
  let lf := String.length suffix in
  (lf <=? ls)%nat && String.eqb (substring (ls - lf) lf s) suffix.

(** [sub in s] *)
Fixpoint contains (sub s : string) : bool :=
  String.prefix sub s
  || match s with
     | EmptyString => false
     | String _ s' => contains sub s'
     end.

(** Strings are sequences of bytes.  [ascii_name s]: every byte of [s]
    is below 128, so [s] is a text of ASCII characters. *)
Definition ascii_name (s : string) : bool :=
  forallb (fun c => (nat_of_ascii c <? 128)%nat) (list_ascii_of_string s).

(** [s.lower()] for an ASCII text: the letters [A-Z] are lowered and
    every other character is kept.  On other texts [str.lower] follows
    the Unicode tables (U+212A lowers to [k]) and this function does not:
    what is proved of it is stated for ASCII names. *)
Definition lower_ascii (c : ascii) : ascii :=
  let n := nat_of_ascii c in
  if ((65 <=? n) && (n <=? 90))%nat then ascii_of_nat (n + 32) else c.

Fixpoint lower (s : string) : string :=
  match s with
  | EmptyString => EmptyString
  | String c s' => String (lower_ascii c) (lower s')
  end.

(** The line feed of ["\n"] inside a printed text. *)
Definition nl : string := String "010"%char EmptyString.

(** [str(n)] for a non-negative integer. *)
Definition str_nat (n : nat) : string :=
  NilEmpty.string_of_uint (Nat.to_uint n).

(* ================================================================== *)
(** * The process environment: files, standard output, exceptions *)
(* ================================================================== *)

(** A parsed JSON document. *)
#[warnings="-register-all"]
Inductive json : Type :=
| JObject (members : list (string * json))
| JArray (items : list json)
| JString (s : string)
| JNumber (z : Z)
| JBool (b : bool)
| JNull.

(** What a path holds: a tensor container with its entries, a JSON
    document, a directory with the names in it, or anything else. *)
Inductive file_content : Type :=
| Safetensors (tensors : Dict.dict string tensor)
| Json (value : json)
| Directory (names : list string)
| Other.

Record file : Type := mkFile { content : file_content; st_size : N }.

(** What the file system does with the one write of the run. *)
Inductive save_outcome : Type :=
| SaveOk (st_size : N)
| SaveFails (cause : string) (partial : bool).

(** Lines of standard output.  A line whose text formats a float
    ([{x:.1f}]) or a container is kept as the values it is formatted
    from. *)
Inductive line : Type :=
| Text (s : string)
| LoadedLine (count : nat) (total_bytes : N)
| TypesLine (dtype_counts : Dict.dict string nat)
| DimsLine (shape_counts : Dict.dict nat nat)
| TensorLine (key : string) (shape : list N) (d : dtype)
    (original_kb quantized_kb : N)
| ReductionLine (total_bytes quantized_bytes : N)
| FileSizeLine (file_bytes : N)
| SavingsLine (total_bytes file_bytes : N)
| FoundFilesLine (names : list string).

Inductive io_op : Type :=
| OpExists (path : string)
| OpLoad (path : string)
| OpSave (path : string)
| OpStat (path : string)
| OpListdir (path : string)
| OpOpen (path : string).

Record world : Type := mkWorld {
  fs : Dict.dict string file;
  on_save : save_outcome;
  stdout : list line;
  io_log : list io_op
}.

(** [Exception m] is any exception [except Exception] catches, with
    [str(e) = m]; [SystemExit c] is what [sys.exit(c)] raises. *)
Inductive exn : Type :=
| Exception (msg : string)
| SystemExit (code : Z).

Inductive result (A : Type) : Type :=
| Done (a : A)
| Raised (e : exn).
Arguments Done {A} a.
Arguments Raised {A} e.

(** Computations over the environment that may raise. *)
Definition M (A : Type) : Type := world -> result A * world.

Definition ret {A} (a : A) : M A := fun w => (Done a, w).

Definition bind {A B} (c : M A) (k : A -> M B) : M B :=
  fun w =>
    match c w with
    | (Done a, w') => k a w'
    | (Raised e, w') => (Raised e, w')
    end.

Definition raise {A} (e : exn) : M A := fun w => (Raised e, w).

(** [try: c  except Exception as e: h (str e)] *)
Definition try_except {A} (c : M A) (h : string -> M A) : M A :=
  fun w =>
    match c w with
    | (Raised (Exception m), w') => h m w'
    | r => r
    end.

Declare Scope io_scope.
Delimit Scope io_scope with io.
Notation "x <- c ;; k" := (bind c (fun x => k))
  (at level 61, c at next level, right associativity) : io_scope.
Notation "c ;;; k" := (bind c (fun _ => k))
  (at level 61, right associativity) : io_scope.
Local Open Scope io_scope.

Definition log_op (o : io_op) : M unit :=
  fun w => (Done tt, mkWorld (fs w) (on_save w) (stdout w) (io_log w ++ [o])).

Definition print (l : line) : M unit :=
  fun w => (Done tt, mkWorld (fs w) (on_save w) (stdout w ++ [l]) (io_log w)).

Definition print_lines (ls : list line) : M unit :=
  fun w => (Done tt, mkWorld (fs w) (on_save w) (stdout w ++ ls) (io_log w)).

(** [Path.exists()] / [os.path.exists] *)
Definition path_exists (path : string) : M bool :=
  log_op (OpExists path) ;;;
  fun w => (Done (Dict.mem path (fs w)), w).

(** [mx.load(path)] *)
Definition mx_load (path : string) : M (Dict.dict string tensor) :=
  log_op (OpLoad path) ;;;
  fun w =>
    match Dict.get path (fs w) with
    | Some (mkFile (Safetensors tensors) _) => (Done tensors, w)
    | Some _ => (Raised (Exception ("[load] cannot read " ++ path)), w)
    | None => (Raised (Exception ("[load] no such file " ++ path)), w)
    end.

(** [mx.save_safetensors(path, weights)] *)
Definition mx_save_safetensors (path : string)
    (weights : Dict.dict string tensor) : M unit :=
  log_op (OpSave path) ;;;
  fun w =>
    match on_save w with
    | SaveOk sz =>
        (Done tt,
         mkWorld (Dict.set path (mkFile (Safetensors weights) sz) (fs w))
                 (on_save w) (stdout w) (io_log w))
    | SaveFails cause partial =>
        (Raised (Exception cause),
         mkWorld (if partial then Dict.set path (mkFile Other 0) (fs w)
                  else fs w)
                 (on_save w) (stdout w) (io_log w))
    end.

(** [path.stat().st_size] *)
Definition stat_size (path : string) : M N :=
  log_op (OpStat path) ;;;
  fun w =>
    match Dict.get path (fs w) with
    | Some f => (Done (st_size f), w)
    | None => (Raised (Exception ("[stat] no such file " ++ path)), w)
    end.

(** [json.load(open(path))] *)
Definition json_load (path : string) : M json :=
  log_op (OpOpen path) ;;;
  fun w =>
    match Dict.get path (fs w) with
    | Some (mkFile (Json value) _) => (Done value, w)
    | Some _ => (Raised (Exception ("[json] cannot parse " ++ path)), w)
    | None => (Raised (Exception ("[open] no such file " ++ path)), w)
    end.

(** [os.listdir(path)] *)
Definition listdir (path : string) : M (list string) :=
  log_op (OpListdir path) ;;;
  fun w =>
    match Dict.get path (fs w) with
    | Some (mkFile (Directory names) _) => (Done names, w)
    | _ => (Raised (Exception ("[listdir] not a directory " ++ path)), w)
    end.

(** Exit status of the interpreter for a finished script body. *)
Definition exit_status (r : result unit) : Z :=
  match r with
  | Done _ => 0
  | Raised (SystemExit c) => c
  | Raised (Exception _) => 1
  end.

(* ================================================================== *)
(** * quantize_openelm.py *)
(* ================================================================== *)

Module Quantizer.
Import Float.

Definition model_dir : string := "KickbackApp/Resources/Models".

Definition model_files : list string :=
  [ "model-00001-of-00002.safetensors";
    "model-00002-of-00002.safetensors" ].

Definition file1 : string := "model-00001-of-00002.safetensors".
Definition file2 : string := "model-00002-of-00002.safetensors".

(** [model_dir / file] *)
Definition path_join (dir file : string) : string := dir ++ "/" ++ file.

Definition output_path : string := path_join model_dir "model-q8_0.safetensors".

(** ** The quantization of one tensor (loop body, first branch) *)

(** [weight.dtype in [mx.float32, mx.float16, mx.bfloat16]
     and len(weight.shape) >= 2] *)
Definition is_quantizable (weight : tensor) : bool :=
  existsb (dtype_eqb (t_dtype weight)) [float32; float16; bfloat16]
  && (2 <=? List.length (t_shape weight))%nat.

(** The values of [mx.min(weight)] and [mx.max(weight)] for an array
    with elements: reductions over all the elements, written as folds
    from the neutral elements of the two operations.  On an array of size
    0 the two calls raise instead of returning ([reduction_fails] below):
    the loop never reaches the folds for such a tensor. *)
Definition weight_min (weight : tensor) : fval :=
  fold_left fminimum (elems weight) (Inf false).

Definition weight_max (weight : tensor) : fval :=
  fold_left fmaximum (elems weight) (Inf true).

(** The Python scalars [255.0], [0], [255] and [128] take the dtype of
    the array they meet; all four are data of the three formats. *)
Definition c255 : fval := Fin 255 0.
Definition c0 : fval := Fin 0 0.
Definition c128 : fval := Fin 128 0.

(** [scale = (weight_max - weight_min) / 255.0] *)
Definition scale_of (weight : tensor) : fval :=
  let fmt := dtype_format (t_dtype weight) in
  fdiv fmt (fsub fmt (weight_max weight) (weight_min weight)) c255.

(** [zero_point = weight_min] *)
Definition zero_point_of (weight : tensor) : fval := weight_min weight.

(** One element of [quantized_float = (weight - zero_point) / scale] *)
Definition quantized_float (fmt : format) (zero_point scale w : fval) : fval :=
  fdiv fmt (fsub fmt w zero_point) scale.

(** One element of [mx.clip(quantized_float, 0, 255) - 128] *)
Definition clip_offset (fmt : format) (x : fval) : fval :=
  fsub fmt (clip x c0 c255) c128.

(** The value handed to [astype(mx.int8)] for the element [w]. *)
Definition pre_cast (weight : tensor) (w : fval) : fval :=
  let fmt := dtype_format (t_dtype weight) in
  clip_offset fmt
    (quantized_float fmt (zero_point_of weight) (scale_of weight) w).

(** One element of [quantized_int8] *)
Definition quantize_elem (weight : tensor) (w : fval) : Z :=
  astype_int8 (pre_cast weight w).

Definition quantized_int8 (weight : tensor) : tensor :=
  mkTensor int8 (t_shape weight)
    (RawData (map (quantize_elem weight) (elems weight))).

Definition scale_tensor (weight : tensor) : tensor :=
  scalar (t_dtype weight) (scale_of weight).

Definition zero_point_tensor (weight : tensor) : tensor :=
  scalar (t_dtype weight) (zero_point_of weight).

(** ** Loading: [all_weights[key] = tensor] over the shards in order *)

Definition add_weights (acc : Dict.dict string tensor * N)
    (weights : Dict.dict string tensor) : Dict.dict string tensor * N :=
  fold_left
    (fun (a : Dict.dict string tensor * N) (kt : string * tensor) =>
       (Dict.set (fst kt) (snd kt) (fst a), (snd a + nbytes (snd kt))%N))
    (Dict.items weights) acc.

(** The combined mapping of a list of loaded shards. *)
Definition combine (shards : list (Dict.dict string tensor))
  : Dict.dict string tensor :=
  fst (fold_left add_weights shards (Dict.empty, 0%N)).

(** ** The quantization loop *)

Record qstate : Type := mkQ {
  quantized_weights : Dict.dict string tensor;
  quantized_bytes : N;
  report : list line
}.

(** Keys of [quantized_weights] that are not side-car entries. *)
Definition primary_keys (qw : Dict.dict string tensor) : list string :=
  filter (fun k => negb (ends_with k ".scale")
                   && negb (ends_with k ".zero_point"))
         (Dict.keys qw).

(** The body of the loop for one entry (lines 78-106) once the two
    reductions have returned. *)
Definition quantize_entry (st : qstate) (kw : string * tensor) : qstate :=
  let key := fst kw in
  let weight := snd kw in
  if is_quantizable weight then
    let q := quantized_int8 weight in
    let scale := scale_tensor weight in
    let zero_point := zero_point_tensor weight in
    let qw :=
      Dict.set (key ++ ".zero_point") zero_point
        (Dict.set (key ++ ".scale") scale
           (Dict.set key q (quantized_weights st))) in
    let original_bytes := nbytes weight in
    let qbytes := (nbytes q + nbytes scale + nbytes zero_point)%N in
    mkQ qw (quantized_bytes st + qbytes)
      (if (List.length (primary_keys qw) <=? 5)%nat
       then report st ++
            [TensorLine key (t_shape weight) (t_dtype weight)
               (original_bytes / 1024) (qbytes / 1024)]
       else report st)
  else
    mkQ (Dict.set key weight (quantized_weights st))
        (quantized_bytes st + nbytes weight)
        (report st).

(** The state after the body has run for every entry, no pass raising. *)
Definition completed_loop (all_weights : Dict.dict string tensor) : qstate :=
  fold_left quantize_entry (Dict.items all_weights) (mkQ Dict.empty 0 []).

(** The mapping the loop has built once every entry is processed. *)
Definition completed_weights (all_weights : Dict.dict string tensor)
  : Dict.dict string tensor :=
  quantized_weights (completed_loop all_weights).

(** [mx.min(weight)] and [mx.max(weight)] (lines 81-82) raise on an array
    of size 0; on any other array they return [weight_min weight] and
    [weight_max weight]. *)
Definition reduction_fails (weight : tensor) : bool := (size weight =? 0)%N.

(** One pass of the loop body.  For a quantizable tensor of size 0 the
    first reduction raises before anything is stored or printed; the
    exception is a [ValueError]. *)
Definition quantize_step (st : qstate) (kw : string * tensor)
  : result qstate :=
  let weight := snd kw in
  if is_quantizable weight then
    if reduction_fails weight
    then Raised (Exception "[min] Cannot min reduce zero size array.")
    else Done (quantize_entry st kw)
  else Done (quantize_entry st kw).

(** The loop over the entries from a state on: it ends after the last
    entry, or at the first entry whose pass raises, with the state reached
    before that entry. *)
Fixpoint quantize_items (items : list (string * tensor)) (st : qstate)
  : qstate * option exn :=
  match items with
  | [] => (st, None)
  | kw :: rest =>
      match quantize_step st kw with
      | Done st' => quantize_items rest st'
      | Raised e => (st, Some e)
      end
  end.

Definition quantize_loop (all_weights : Dict.dict string tensor)
  : qstate * option exn :=
  quantize_items (Dict.items all_weights) (mkQ Dict.empty 0 []).

(** The mapping that is written to the output file: there is one when
    the loop ends without an exception. *)
Definition quantize_weights (all_weights : Dict.dict string tensor)
  : option (Dict.dict string tensor) :=
  match quantize_loop all_weights with
  | (st, None) => Some (quantized_weights st)
  | (_, Some _) => None
  end.

(** No quantizable tensor of the mapping has size 0: no pass of the loop
    raises. *)
Definition loop_ready (all_weights : Dict.dict string tensor) : bool :=
  forallb
    (fun kw => negb (is_quantizable (snd kw) && reduction_fails (snd kw)))
    all_weights.

(** The two debug tallies. *)
Definition dtype_counts (all_weights : Dict.dict string tensor)
  : Dict.dict string nat :=
  fold_left
    (fun dc (kw : string * tensor) =>
       let name := dtype_str (t_dtype (snd kw)) in
       Dict.set name (Dict.get_default name 0%nat dc + 1)%nat dc)
    (Dict.items all_weights) Dict.empty.

Definition shape_counts (all_weights : Dict.dict string tensor)
  : Dict.dict nat nat :=
  fold_left
    (fun sc (kw : string * tensor) =>
       let shape_len := List.length (t_shape (snd kw)) in
       Dict.set shape_len (Dict.get_default shape_len 0%nat sc + 1)%nat sc)
    (Dict.items all_weights) Dict.empty.

(** ** The writes of the loop, entry by entry *)

(** The assignments to [quantized_weights] made for one input entry. *)
Definition entry_writes (kw : string * tensor) : list (string * tensor) :=
  let key := fst kw in
  let weight := snd kw in
  if is_quantizable weight then
    [ (key, quantized_int8 weight);
      (key ++ ".scale", scale_tensor weight);
      (key ++ ".zero_point", zero_point_tensor weight) ]
  else [ (key, weight) ].

Definition apply_writes (ws : list (string * tensor))
    (d : Dict.dict string tensor) : Dict.dict string tensor :=
  fold_left (fun d kv => Dict.set (fst kv) (snd kv) d) ws d.

(** [key] is the side-car name of a quantizable tensor of the input. *)
Definition is_sidecar_name (all_weights : Dict.dict string tensor)
    (key : string) : bool :=
  existsb
    (fun kw =>
       is_quantizable (snd kw)
       && (String.eqb key (fst kw ++ ".scale")
           || String.eqb key (fst kw ++ ".zero_point")))
    all_weights.

(** One of the two side-car names of [key] is a tensor name of the
    input. *)
Definition sidecar_taken (all_weights : Dict.dict string tensor)
    (key : string) : bool :=
  Dict.mem (key ++ ".scale") all_weights
  || Dict.mem (key ++ ".zero_point") all_weights.

Definition all_finite (l : list fval) : Prop :=
  Forall (fun x => is_finite x = true) l.

(** ** The script *)

(** The existence check: the first missing file is reported and the
    function returns [False]. *)
Fixpoint check_files (files : list string) : M bool :=
  match files with
  | [] => ret true
  | file :: rest =>
      let file_path := path_join model_dir file in
      ex <- path_exists file_path ;;
      if negb ex then
        print (Text ("❌ Error: " ++ file_path ++ " not found")) ;;;
        ret false
      else check_files rest
  end.

Fixpoint load_files (files : list string)
    (acc : Dict.dict string tensor * N) : M (Dict.dict string tensor * N) :=
  match files with
  | [] => ret acc
  | file :: rest =>
      let file_path := path_join model_dir file in
      print (Text ("📥 Loading " ++ file ++ "...")) ;;;
      weights <- mx_load file_path ;;
      load_files rest (add_weights acc weights)
  end.

(** The size report (line 109).  [total_size_mb] is a sum of
    [nbytes / (1024 * 1024)] terms, each zero or at least [2^-20]: it is
    zero exactly when the byte total is 0, and then the division raises
    [ZeroDivisionError].  Both totals start as the integer [0] and become
    floats with the first tensor, so the text of the exception is that of
    the integer division when nothing was loaded. *)
Definition print_reduction (tensors : nat) (total_bytes quantized_bytes : N)
  : M unit :=
  if (total_bytes =? 0)%N
  then raise (Exception (if (tensors =? 0)%nat
                         then "division by zero"
                         else "float division by zero"))
  else print (ReductionLine total_bytes quantized_bytes).

Definition save_and_verify (total_bytes : N)
    (qw : Dict.dict string tensor) : M bool :=
  try_except
    (mx_save_safetensors output_path qw ;;;
     actual_size <- stat_size output_path ;;
     print (Text "✅ Quantized model saved successfully!") ;;;
     print (FileSizeLine actual_size) ;;;
     print (SavingsLine total_bytes actual_size) ;;;
     ret true)
    (fun e =>
       print (Text ("❌ Error saving quantized model: " ++ e)) ;;;
       ret false).

(** The first expected shard that is not on disk (the second one when
    the first is there). *)
Definition first_missing (w : world) : string :=
  if Dict.mem (path_join model_dir file1) (fs w) then file2 else file1.

(** From the report of the loaded tensors to the end of the function.
    The lines of the quantized tensors are printed by the passes of the
    loop; an exception of the loop leaves the function after them. *)
Definition quantize_and_save (all_weights : Dict.dict string tensor)
    (total_bytes : N) : M bool :=
  print (LoadedLine (Dict.len all_weights) total_bytes) ;;;
  print (Text "🔄 Quantizing weights to 8-bit...") ;;;
  print (TypesLine (dtype_counts all_weights)) ;;;
  print (DimsLine (shape_counts all_weights)) ;;;
  let (st, failure) := quantize_loop all_weights in
  print_lines (report st) ;;;
  match failure with
  | Some e => raise e
  | None =>
      print (Text ("✅ Quantized "
                   ++ str_nat (Dict.len (quantized_weights st))
                   ++ " tensors")) ;;;
      print_reduction (Dict.len all_weights) total_bytes
        (quantized_bytes st) ;;;
      print (Text ("💾 Saving quantized model to " ++ output_path ++ "...")) ;;;
      save_and_verify total_bytes (quantized_weights st)
  end.

Definition quantize_openelm_model : M bool :=
  print (Text "🔄 Starting OpenELM-3B quantization to 8-bit...") ;;;
  print (Text ("📁 Model directory: " ++ model_dir)) ;;;
  ok <- check_files model_files ;;
  if negb ok then ret false
  else
    loaded <- load_files model_files (Dict.empty, 0%N) ;;
    quantize_and_save (fst loaded) (snd loaded).

Definition main : M unit :=
  print (Text "🚀 OpenELM-3B Quantization Tool") ;;;
  print (Text "==================================================") ;;;
  ok <- quantize_openelm_model ;;
  if ok then
    print (Text (nl ++ "🎉 Quantization completed successfully!")) ;;;
    print (Text "📱 Your iOS app can now use the 8-bit quantized model for better memory efficiency.") ;;;
    print (Text "🔧 The app will automatically detect and use model-q8_0.safetensors")
  else
    print (Text (nl ++ "❌ Quantization failed. Please check the error messages above.")) ;;;
    raise (SystemExit 1).

(** The process: exit status and final environment. *)
Definition run (w : world) : Z * world :=
  let (r, w') := main w in (exit_status r, w').

(** ** The dequantization map of the specification *)

(** [dequantized = (quantized_int8 + 128) * scale + zero_point], in exact
    arithmetic. *)
Definition dequantize (q : Z) (scale zero_point : fval) : Q :=
  inject_Z (q + 128) * F2Q scale + F2Q zero_point.

(** The same map evaluated in the tensor's floating format. *)
Definition dequantize_float (fmt : format) (q : Z) (scale zero_point : fval)
  : fval :=
  fadd fmt (fmul fmt (of_Z fmt (q + 128)) scale) zero_point.

(** [round_and_clip (x, lo, hi)] of the specification: [x] rounded to an
    integer by [rnd], limited to [lo .. hi]. *)
Definition round_and_clip (rnd : Q -> Z) (x : Q) (lo hi : Z) : Z :=
  Z.max lo (Z.min hi (rnd x)).

(** The stored element as the specification words it, from the exact
    quotient, for a rounding [rnd] ([rne] is rounding to nearest). *)
Definition spec_quantize_elem (rnd : Q -> Z) (scale zero_point w : fval) : Z :=
  round_and_clip rnd ((F2Q w - F2Q zero_point) / F2Q scale) 0 255 - 128.

End Quantizer.

(* ================================================================== *)
(** * inspect_weights.py *)
(* ================================================================== *)

(** [sorted] on strings: the order of the code points, which is the order
    of the bytes of their encoding. *)
Fixpoint insert_sorted (x : string) (l : list string) : list string :=
  match l with
  | [] => [x]
  | y :: l' => if String.leb x y then x :: l else y :: insert_sorted x l'
  end.

Definition sorted (l : list string) : list string :=
  fold_right insert_sorted [] l.

Definition string_le (a b : string) : Prop := String.leb a b = true.

Module Inspector.

Definition index_path : string :=
  "KickbackApp/Resources/Models/model.safetensors.index.json".

Definition models_dir : string := "KickbackApp/Resources/Models".

(** [[k for k in weight_map.keys() if label in k.lower()]] *)
Definition matching (label : string) (all_keys : list string) : list string :=
  filter (fun k => contains label (lower k)) all_keys.

Definition print_each (ws : list string) : list line :=
  map (fun weight => Text ("  " ++ weight)) ws.

(** The two categories listed in full, with their count in the heading. *)
Definition section_counted (title : string) (ws : list string) : list line :=
  Text (nl ++ title ++ " weights (" ++ str_nat (List.length ws) ++ "):")
  :: print_each (sorted ws).

(** The two categories of which the first ten are listed. *)
Definition section_first10 (title : string) (ws : list string) : list line :=
  Text (nl ++ title ++ " weights (first 10):")
  :: print_each (firstn 10 (sorted ws)).

Definition embedding_section (all_keys : list string) : list line :=
  section_counted "Embedding" (matching "embed" all_keys).
Definition token_section (all_keys : list string) : list line :=
  section_counted "Token" (matching "token" all_keys).
Definition norm_section (all_keys : list string) : list line :=
  section_first10 "Norm" (matching "norm" all_keys).
Definition transformer_section (all_keys : list string) : list line :=
  section_first10 "Transformer" (matching "transformer" all_keys).

Definition total_line (weight_map : Dict.dict string json) : line :=
  Text (nl ++ "Total weights: " ++ str_nat (Dict.len weight_map)).

(** Some printed line contains the text [s]. *)
Definition mentions (s : string) (ls : list line) : bool :=
  existsb
    (fun l => match l with Text t => contains s t | _ => false end) ls.

(** What the index-present branch prints for a weight map, after the
    two heading lines. *)
Definition listing (weight_map : Dict.dict string json) : list line :=
  let all_keys := Dict.keys weight_map in
  embedding_section all_keys
  ++ token_section all_keys
  ++ norm_section all_keys
  ++ transformer_section all_keys
  ++ [ total_line weight_map ].

(** [index_data.get('weight_map', {})] followed by [.keys()]: both need
    objects. *)
Definition get_weight_map (index_data : json) : M (Dict.dict string json) :=
  match index_data with
  | JObject members =>
      match Dict.get_default "weight_map" (JObject []) members with
      | JObject weight_map => ret weight_map
      | _ => raise (Exception "AttributeError: no attribute 'keys'")
      end
  | _ => raise (Exception "AttributeError: no attribute 'get'")
  end.

(** The module body. *)
Definition inspect_weights : M unit :=
  ex <- path_exists index_path ;;
  if ex then
    index_data <- json_load index_path ;;
    print (Text "Available weights in the model:") ;;;
    print (Text "==================================================") ;;;
    weight_map <- get_weight_map index_data ;;
    print_lines (listing weight_map)
  else
    print (Text ("Index file not found at " ++ index_path)) ;;;
    print (Text "Looking for safetensors files...") ;;;
    dir <- path_exists models_dir ;;
    if dir then
      files <- listdir models_dir ;;
      print (FoundFilesLine
               (filter (fun f => ends_with f ".safetensors") files))
    else
      print (Text ("Models directory not found at " ++ models_dir)).

End Inspector.

(* ================================================================== *)
(** * Sample inputs *)
(* ================================================================== *)

Module Samples.
Import Float.

(** float32, shape (1, 4): 0, 0.25, 200.75, 255. *)
Definition grid32 : tensor :=
  mkTensor float32 [1; 4]%N
    (FloatData [Fin 0 0; Fin 1 (-2); Fin 803 (-2); Fin 255 0]).

(** bfloat16, shape (1, 3): -32, 0.109375, 11. *)
Definition ramp_bf16 : tensor :=
  mkTensor bfloat16 [1; 3]%N
    (FloatData [Fin (-32) 0; Fin 7 (-6); Fin 11 0]).

(** float16, shape (1, 2): -40000, 40000. *)
Definition wide_f16 : tensor :=
  mkTensor float16 [1; 2]%N (FloatData [Fin (-40000) 0; Fin 40000 0]).

(** float16, shape (1, 2): 0 and the least positive datum, 2^-24. *)
Definition tiny_f16 : tensor :=
  mkTensor float16 [1; 2]%N (FloatData [Fin 0 0; Fin 1 (-24)]).

(** float32, shape (2, 2): four times 1.5. *)
Definition flat32 : tensor :=
  mkTensor float32 [2; 2]%N
    (FloatData [Fin 3 (-1); Fin 3 (-1); Fin 3 (-1); Fin 3 (-1)]).

(** float32, shape (2,): 1, 2 -- a rank-1 tensor. *)
Definition vec32 : tensor :=
  mkTensor float32 [2]%N (FloatData [Fin 1 0; Fin 2 0]).

(** int32, shape (2, 2). *)
Definition ids32 : tensor :=
  mkTensor int32 [2; 2]%N (RawData [1; 2; 3; 4]%Z).

Definition shard_plain : Dict.dict string tensor :=
  [ ("layers.0.weight", grid32); ("layers.0.bias", vec32);
    ("position_ids", ids32) ].

(** A rank-1 tensor named like the side-car of the tensor that follows. *)
Definition shard_sidecar_first : Dict.dict string tensor :=
  [ ("a.scale", vec32); ("a", grid32) ].

(** The same two tensors in the other order. *)
Definition shard_sidecar_last : Dict.dict string tensor :=
  [ ("a", grid32); ("a.scale", vec32) ].

Definition shard_other : Dict.dict string tensor :=
  [ ("layers.0.weight", ramp_bf16); ("layers.1.weight", flat32) ].

Definition shard1_path : string :=
  "KickbackApp/Resources/Models/model-00001-of-00002.safetensors".
Definition shard2_path : string :=
  "KickbackApp/Resources/Models/model-00002-of-00002.safetensors".

(** Both shards on disk. *)
Definition disk_ok : Dict.dict string file :=
  [ (shard1_path, mkFile (Safetensors shard_plain) 200);
    (shard2_path, mkFile (Safetensors shard_other) 200) ].

(** The second shard is missing. *)
Definition disk_missing : Dict.dict string file :=
  [ (shard1_path, mkFile (Safetensors shard_plain) 200) ].

Definition world_missing : world :=
  mkWorld disk_missing (SaveOk 100) [] [].

Definition world_save_fails : world :=
  mkWorld disk_ok (SaveFails "No space left on device" true) [] [].

(** An index with three normalization weights and one other weight. *)
Definition index_norms : Dict.dict string json :=
  [ ("a.norm.weight", JString "s1"); ("b.Norm.weight", JString "s1");
    ("c.norm.weight", JString "s2"); ("head.weight", JString "s2") ].

Definition index_file : json :=
  JObject [ ("metadata", JObject []); ("weight_map", JObject index_norms) ].

Definition world_index : world :=
  mkWorld
    [ ("KickbackApp/Resources/Models/model.safetensors.index.json",
       mkFile (Json index_file) 300) ]
    (SaveOk 0) [] [].

End Samples.

(* ================================================================== *)
(** * Quantities and lines that summarise a run *)
(* ================================================================== *)

Module Summary.
Import Quantizer.

(** The world after the two banner lines of [main]. *)
Definition banner (w : world) : world :=
  mkWorld (fs w) (on_save w)
    ((stdout w ++ [Text "🚀 OpenELM-3B Quantization Tool"])
       ++ [Text "=================================================="])
    (io_log w).

(** The world once the existence check has passed and both shards are
    loaded: two lines of [quantize_openelm_model], one line per shard,
    and the four operations on the two files. *)
Definition after_load (w : world) : world :=
  mkWorld (fs w) (on_save w)
    (stdout w ++
     [ Text "🔄 Starting OpenELM-3B quantization to 8-bit...";
       Text ("📁 Model directory: " ++ model_dir);
       Text ("📥 Loading " ++ file1 ++ "...");
       Text ("📥 Loading " ++ file2 ++ "...") ])
    (io_log w ++
     [ OpExists (path_join model_dir file1);
       OpExists (path_join model_dir file2);
       OpLoad (path_join model_dir file1);
       OpLoad (path_join model_dir file2) ]).

(** The lines printed from the report of the loading to the end of the
    loop, for the state [st] the loop stops in. *)
Definition loop_lines (all_weights : Dict.dict string tensor)
    (total_bytes : N) (st : qstate) : list line :=
  [ LoadedLine (Dict.len all_weights) total_bytes;
    Text "🔄 Quantizing weights to 8-bit...";
    TypesLine (dtype_counts all_weights);
    DimsLine (shape_counts all_weights) ]
  ++ report st.

(** [total_size_mb] after the loading loop, in bytes: every tensor of
    every shard is counted, also one that a later tensor of the same
    name replaces. *)
Definition loaded_bytes (shards : list (Dict.dict string tensor)) : N :=
  snd (fold_left add_weights shards (Dict.empty, 0%N)).

Definition sum_nbytes (l : list (string * tensor)) : N :=
  fold_right (fun kt acc => (nbytes (snd kt) + acc)%N) 0%N l.

(** What one input tensor adds to [quantized_size_mb], in bytes: one byte
    per element and two scalars of the tensor's dtype when it is
    quantized, its own bytes otherwise. *)
Definition entry_bytes (weight : tensor) : N :=
  if is_quantizable weight
  then (size weight + 2 * itemsize (t_dtype weight))%N
  else nbytes weight.

Definition sum_entry_bytes (l : list (string * tensor)) : N :=
  fold_right (fun kt acc => (entry_bytes (snd kt) + acc)%N) 0%N l.

(** The line printed for a quantized tensor. *)
Definition tensor_line (kw : string * tensor) : line :=
  let weight := snd kw in
  TensorLine (fst kw) (t_shape weight) (t_dtype weight)
    (nbytes weight / 1024)
    ((nbytes (quantized_int8 weight) + nbytes (scale_tensor weight)
      + nbytes (zero_point_tensor weight)) / 1024).

(** [not k.endswith('.scale') and not k.endswith('.zero_point')] *)
Definition plain_name (key : string) : bool :=
  negb (ends_with key ".scale") && negb (ends_with key ".zero_point").

End Summary.

Module Worlds.

(** Both shards on disk, the write succeeds. *)
Definition world_ok : world :=
  mkWorld Samples.disk_ok (SaveOk 100) [] [].

(** The first sample shard alone. *)
Definition shards_plain : list (Dict.dict string tensor) :=
  [ Samples.shard_plain ].

(** The second shard is a JSON document, not a tensor container. *)
Definition world_unreadable : world :=
  mkWorld
    [ (Samples.shard1_path, mkFile (Safetensors Samples.shard_plain) 200);
      (Samples.shard2_path, mkFile (Json JNull) 4) ]
    (SaveOk 100) [] [].

(** Two shards without tensors. *)
Definition world_empty : world :=
  mkWorld
    [ (Samples.shard1_path, mkFile (Safetensors []) 8);
      (Samples.shard2_path, mkFile (Safetensors []) 8) ]
    (SaveOk 100) [] [].

(** float16, shape (1, 2): 0 and [380 * 2^-24], a subnormal number. *)
Definition subnormal_f16 : tensor :=
  mkTensor float16 [1; 2]%N
    (FloatData [Float.Fin 0 0; Float.Fin 380 (-24)]).

(** A float32 tensor of shape (0, 4): quantizable, without elements. *)
Definition empty32 : tensor :=
  mkTensor float32 [0; 4]%N (FloatData []).

(** A first shard that holds it between two other tensors. *)
Definition shard_with_empty : Dict.dict string tensor :=
  [ ("layers.0.bias", Samples.vec32); ("layers.9.weight", empty32);
    ("layers.0.weight", Samples.grid32) ].

Definition world_with_empty : world :=
  mkWorld
    [ (Samples.shard1_path, mkFile (Safetensors shard_with_empty) 200);
      (Samples.shard2_path, mkFile (Safetensors Samples.shard_other) 200) ]
    (SaveOk 100) [] [].

(** The models directory without an index file. *)
Definition world_listing : world :=
  mkWorld
    [ ("KickbackApp/Resources/Models",
       mkFile
         (Directory
            [ "config.json"; "model-00001-of-00002.safetensors";
              "model.safetensors.index.json.bak"; "model-q8_0.safetensors" ])
         128) ]
    (SaveOk 0) [] [].

(** Nothing on disk. *)
Definition world_bare : world := mkWorld [] (SaveOk 0) [] [].

(** An index file without the member [weight_map]. *)
Definition world_index_plain : world :=
  mkWorld
    [ ("KickbackApp/Resources/Models/model.safetensors.index.json",
       mkFile (Json (JObject [ ("metadata", JObject []) ])) 20) ]
    (SaveOk 0) [] [].

(** An index file that holds a JSON array. *)
Definition world_index_array : world :=
  mkWorld
    [ ("KickbackApp/Resources/Models/model.safetensors.index.json",
       mkFile (Json (JArray [])) 2) ]
    (SaveOk 0) [] [].

(** The sample index with its members in another order. *)
Definition index_norms_shuffled : Dict.dict string json :=
  [ ("b.Norm.weight", JString "s1"); ("a.norm.weight", JString "s1");
    ("c.norm.weight", JString "s2"); ("head.weight", JString "s2") ].

End Worlds.

(* ================================================================== *)
(** * Facts about the arithmetic *)
(* ================================================================== *)

Local Close Scope string_scope.
Local Close Scope io_scope.
Local Open Scope Z_scope.

Module FloatFacts.
Import Float.

Lemma pow2_pos e : (0 < pow2 e)%Q.
Proof. apply Qpower_0_lt. reflexivity. Qed.

Lemma pow2_add a b : (pow2 (a + b) == pow2 a * pow2 b)%Q.
Proof. apply Qpower_plus. discriminate. Qed.

Lemma pow2_inject z : 0 <= z -> (pow2 z == inject_Z (2 ^ z))%Q.
Proof. intro Hz. unfold pow2. now rewrite Zpower_Qpower. Qed.

Lemma pow2_opp_inv e : (pow2 e * pow2 (- e) == 1)%Q.
Proof.
  rewrite <- pow2_add. replace (e + - e) with 0 by lia. reflexivity.
Qed.

Lemma pow2_le a b : a <= b -> (pow2 a <= pow2 b)%Q.
Proof.
  intro Hab. replace b with (a + (b - a)) by lia.
  rewrite pow2_add. rewrite (pow2_inject (b - a)) by lia.
  assert (H1 : 1 <= 2 ^ (b - a)) by (apply Z.lt_pred_le, Z.pow_pos_nonneg; lia).
  assert (H2 : (1 <= inject_Z (2 ^ (b - a)))%Q).
  { change 1%Q with (inject_Z 1). now rewrite <- Zle_Qle. }
  pose proof (pow2_pos a). nra.
Qed.

Lemma pow2_lt_inv a b : (pow2 a < pow2 b)%Q -> a < b.
Proof.
  intro H. destruct (Z_lt_le_dec a b) as [|Hle]; [assumption|].
  apply pow2_le in Hle. lra.
Qed.

(** The defining lower bound of the binary logarithm. *)
Lemma Qlog2_le a : (0 < a)%Q -> (pow2 (Qlog2 a) <= a)%Q.
Proof.
  destruct a as [n d]. intro Ha.
  assert (Hn : 0 < n).
  { unfold Qlt in Ha. simpl in Ha. lia. }
  unfold Qlog2. cbn [Qnum Qden].
  set (k := Z.log2 n - Z.log2 (Zpos d)).
  destruct (Z.log2_spec n Hn) as [Hn1 Hn2].
  destruct (Z.log2_spec (Zpos d) eq_refl) as [Hd1 Hd2].
  pose proof (Z.log2_nonneg n) as Hln.
  pose proof (Z.log2_nonneg (Zpos d)) as Hld.
  assert (Hval : (n # d == inject_Z n / inject_Z (Zpos d))%Q) by apply Qmake_Qdiv.
  assert (Hdpos : (0 < inject_Z (Zpos d))%Q) by (change 0%Q with (inject_Z 0); rewrite <- Zlt_Qlt; lia).
  (* it suffices to compare after multiplying by d *)
  assert (Hsuff : forall j, (pow2 j * inject_Z (Zpos d) <= inject_Z n)%Q -> (pow2 j <= n # d)%Q).
  { intros j Hj. rewrite Hval. apply Qle_shift_div_l; assumption. }
  destruct (Z.ltb_spec (n * 2 ^ Z.max (- k) 0) (Zpos d * 2 ^ Z.max k 0)) as [Hlt|Hge].
  - (* k - 1 *)
    apply Hsuff.
    assert (H1 : (pow2 (k - 1) * pow2 (Z.log2 (Zpos d) + 1) == pow2 (Z.log2 n))%Q).
    { rewrite <- pow2_add. unfold k. replace (Z.log2 n - Z.log2 (Z.pos d) - 1 + (Z.log2 (Z.pos d) + 1)) with (Z.log2 n) by lia. reflexivity. }
    assert (H2 : (inject_Z (Zpos d) <= pow2 (Z.log2 (Zpos d) + 1))%Q).
    { rewrite pow2_inject by lia. rewrite <- Zle_Qle. unfold Z.succ in Hd2. lia. }
    assert (H3 : (pow2 (Z.log2 n) <= inject_Z n)%Q).
    { rewrite pow2_inject by lia. now rewrite <- Zle_Qle. }
    pose proof (pow2_pos (k - 1)). nra.
  - apply Hsuff.
    assert (Hq : (inject_Z (Zpos d) * inject_Z (2 ^ Z.max k 0) <= inject_Z n * inject_Z (2 ^ Z.max (- k) 0))%Q).
    { rewrite <- !inject_Z_mult, <- Zle_Qle. exact Hge. }
    rewrite <- !pow2_inject in Hq by lia.
    destruct (Z_le_gt_dec 0 k) as [Hk|Hk].
    + rewrite Z.max_l in Hq by lia. rewrite Z.max_r in Hq by lia.
      change (pow2 0) with 1%Q in Hq. lra.
    + rewrite Z.max_r in Hq by lia. rewrite Z.max_l in Hq by lia.
      change (pow2 0) with 1%Q in Hq.
      pose proof (pow2_opp_inv k) as Hinv. pose proof (pow2_pos k). pose proof (pow2_pos (-k)).
      assert (Hm : (inject_Z (Zpos d) * pow2 k <= inject_Z n * (pow2 (-k) * pow2 k))%Q) by nra.
      assert (Hm2 : (pow2 (- k) * pow2 k == 1)%Q) by (rewrite Qmult_comm; exact Hinv).
      rewrite Hm2 in Hm. lra.
Qed.

Lemma Qlog2_upper a k : (0 < a)%Q -> (a < pow2 k)%Q -> Qlog2 a < k.
Proof.
  intros Ha Hk. apply pow2_lt_inv. pose proof (Qlog2_le a Ha). lra.
Qed.

Lemma Zle_Qle_iff a b : a <= b <-> (inject_Z a <= inject_Z b)%Q.
Proof. rewrite Zle_Qle. reflexivity. Qed.

Lemma Zlt_Qlt_iff a b : a < b <-> (inject_Z a < inject_Z b)%Q.
Proof. rewrite Zlt_Qlt. reflexivity. Qed.

Lemma rne_floor_or_succ q : rne q = Qfloor q \/ (rne q = Qfloor q + 1 /\ (inject_Z (Qfloor q) < q)%Q).
Proof.
  unfold rne.
  destruct (Qcompare_spec (q - inject_Z (Qfloor q)) (1 # 2)) as [He|Hl|Hg].
  - destruct (Z.even (Qfloor q)); [now left|right; split; [reflexivity|lra]].
  - now left.
  - right; split; [reflexivity|lra].
Qed.

(** Rounding to the nearest integer stays between integer bounds. *)
Lemma rne_bracket q a b :
  (inject_Z a <= q)%Q -> (q <= inject_Z b)%Q -> a <= rne q <= b.
Proof.
  intros Ha Hb.
  assert (Hfa : a <= Qfloor q).
  { rewrite <- (Qfloor_Z a). now apply Qfloor_resp_le. }
  pose proof (Qfloor_le q) as Hfl.
  destruct (rne_floor_or_succ q) as [-> | [-> Hlt]].
  - split; [assumption|]. apply Zle_Qle_iff. lra.
  - split; [lia|].
    assert (Qfloor q < b) by (apply Zlt_Qlt_iff; lra). lia.
Qed.

Lemma Qtrunc_bracket q a b :
  (inject_Z a <= q)%Q -> (q <= inject_Z b)%Q -> a <= Qtrunc q <= b.
Proof.
  intros Ha Hb. unfold Qtrunc.
  pose proof (Qfloor_le q). pose proof (Qle_ceiling q).
  pose proof (Qfloor_resp_le _ _ Ha) as H1. rewrite Qfloor_Z in H1.
  pose proof (Qceiling_resp_le _ _ Hb) as H2. rewrite Qceiling_Z in H2.
  pose proof (Qle_floor_ceiling q) as H3. rewrite <- Zle_Qle in H3.
  destruct (Qle_bool 0 q); lia.
Qed.

Lemma round_not_nan fmt q : is_nan (round fmt q) = false.
Proof.
  unfold round. destruct (Qeq_bool q 0); [reflexivity|].
  cbv zeta. destruct (Qle_bool _ _); reflexivity.
Qed.

Lemma round_zero fmt q : (q == 0)%Q -> round fmt q = Fin 0 0.
Proof.
  intro Hq. unfold round.
  destruct (Qeq_bool q 0) eqn:E; [reflexivity|].
  apply Qeq_bool_neq in E. contradiction.
Qed.

(** Rounding keeps a value inside integer bounds of small magnitude: these
    integers are multiples of the unit in the last place. *)
Lemma round_bracket fmt q a b :
  8 <= prec fmt -> 8 <= emax fmt ->
  -128 <= a -> b <= 127 ->
  (inject_Z a <= q)%Q -> (q <= inject_Z b)%Q ->
  exists m e, round fmt q = Fin m e
              /\ (inject_Z a <= F2Q (Fin m e) <= inject_Z b)%Q.
Proof.
  intros Hp He Ha Hb Haq Hqb.
  assert (Hab : a <= b) by (apply Zle_Qle_iff; lra).
  assert (HaQ : (- (128) <= inject_Z a)%Q).
  { change (- (128))%Q with (inject_Z (-128)). now rewrite <- Zle_Qle. }
  assert (HbQ : (inject_Z b <= 127)%Q).
  { change 127%Q with (inject_Z 127). now rewrite <- Zle_Qle. }
  unfold round. destruct (Qeq_bool q 0) eqn:E0.
  - apply Qeq_bool_eq in E0. exists 0, 0. split; [reflexivity|].
    unfold F2Q. change (inject_Z 0 * pow2 0)%Q with (0 * 1)%Q. lra.
  - apply Qeq_bool_neq in E0. cbv zeta.
    set (e := Z.max (Qlog2 (Qabs q) - prec fmt + 1) (emin fmt)).
    assert (Habs : (0 < Qabs q)%Q).
    { apply Qabs_case; intros; lra. }
    assert (Habs2 : (Qabs q < pow2 8)%Q).
    { change (pow2 8) with 256%Q. apply Qabs_case; intros; lra. }
    assert (Hlog : Qlog2 (Qabs q) < 8) by (apply Qlog2_upper; assumption).
    assert (Hemin : emin fmt <= 0) by (unfold emin; lia).
    assert (Hle0 : e <= 0) by (unfold e; lia).
    pose proof (pow2_pos e) as Hpe.
    pose proof (pow2_opp_inv e) as Hinv.
    assert (Hk : (pow2 (- e) == inject_Z (2 ^ (- e)))%Q) by (apply pow2_inject; lia).
    assert (Hq : (q / pow2 e == q * inject_Z (2 ^ (- e)))%Q).
    { rewrite <- Hk. unfold Qdiv, pow2. now rewrite Qpower_opp. }
    set (m := rne (q / pow2 e)).
    assert (Hkpos : (0 < inject_Z (2 ^ (- e)))%Q) by (rewrite <- Hk; apply pow2_pos).
    assert (Hm : a * 2 ^ (- e) <= m <= b * 2 ^ (- e)).
    { apply rne_bracket; rewrite Hq, inject_Z_mult; nra. }
    assert (Hval : (inject_Z a <= inject_Z m * pow2 e <= inject_Z b)%Q).
    { destruct Hm as [Hm1 Hm2].
      apply Zle_Qle_iff in Hm1, Hm2. rewrite inject_Z_mult, <- Hk in Hm1, Hm2.
      assert (Hinv2 : (pow2 (- e) * pow2 e == 1)%Q) by (rewrite Qmult_comm; exact Hinv).
      split.
      - assert (inject_Z a * (pow2 (- e) * pow2 e) <= inject_Z m * pow2 e)%Q by nra.
        rewrite Hinv2 in H. lra.
      - assert (inject_Z m * pow2 e <= inject_Z b * (pow2 (- e) * pow2 e))%Q by nra.
        rewrite Hinv2 in H. lra. }
    assert (Hov : Qle_bool (pow2 (emax fmt)) (Qabs (inject_Z m * pow2 e)) = false).
    { destruct (Qle_bool _ _) eqn:Eo; [|reflexivity].
      apply Qle_bool_imp_le in Eo.
      assert (H8 : (pow2 8 <= pow2 (emax fmt))%Q) by (apply pow2_le; lia).
      change (pow2 8) with 256%Q in H8.
      revert Eo. apply Qabs_case; intros; lra. }
    rewrite Hov. exists m, e. split; [reflexivity|exact Hval].
Qed.

End FloatFacts.

Module QuantFacts.
Import Float FloatFacts Quantizer.

Lemma F2Q_c0 : (F2Q c0 == 0)%Q. Proof. reflexivity. Qed.
Lemma F2Q_c255 : (F2Q c255 == 255)%Q. Proof. reflexivity. Qed.
Lemma F2Q_c128 : (F2Q c128 == 128)%Q. Proof. reflexivity. Qed.

Lemma flt_fin_true x y :
  is_finite x = true -> is_finite y = true ->
  flt x y = true -> (F2Q x < F2Q y)%Q.
Proof.
  destruct x, y; try discriminate. intros _ _. unfold flt.
  destruct (Qcompare_spec (F2Q (Fin m e)) (F2Q (Fin m0 e0))); try discriminate.
  intros _. assumption.
Qed.

Lemma flt_fin_false x y :
  is_finite x = true -> is_finite y = true ->
  flt x y = false -> (F2Q y <= F2Q x)%Q.
Proof.
  destruct x, y; try discriminate. intros _ _. unfold flt.
  destruct (Qcompare_spec (F2Q (Fin m e)) (F2Q (Fin m0 e0))); try discriminate;
    intros _; lra.
Qed.

Lemma fmaximum_fin m e m' e' :
  fmaximum (Fin m e) (Fin m' e')
  = if flt (Fin m e) (Fin m' e') then Fin m' e' else Fin m e.
Proof. reflexivity. Qed.

Lemma fminimum_fin m e m' e' :
  fminimum (Fin m e) (Fin m' e')
  = if flt (Fin m' e') (Fin m e) then Fin m' e' else Fin m e.
Proof. reflexivity. Qed.

(** A clipped value that is not a NaN is a finite number of [0, 255]. *)
Lemma clip_range x :
  is_nan x = false ->
  is_finite (clip x c0 c255) = true
  /\ (0 <= F2Q (clip x c0 c255) <= 255)%Q.
Proof.
  intro Hx. unfold clip, c0, c255.
  destruct x as [m e | [|] | ]; try discriminate.
  - rewrite fmaximum_fin.
    destruct (flt (Fin m e) (Fin 0 0)) eqn:E1.
    + vm_compute. split; [reflexivity|split; discriminate].
    + apply flt_fin_false in E1; try reflexivity.
      rewrite fminimum_fin.
      destruct (flt (Fin 255 0) (Fin m e)) eqn:E2.
      * vm_compute. split; [reflexivity|split; discriminate].
      * apply flt_fin_false in E2; try reflexivity.
        split; [reflexivity|].
        change (F2Q (Fin 0 0)) with (0 * 1)%Q in E1.
        change (F2Q (Fin 255 0)) with (255 * 1)%Q in E2. lra.
  - vm_compute. split; [reflexivity|split; discriminate].
  - vm_compute. split; [reflexivity|split; discriminate].
Qed.

Lemma fsub_finite_not_nan fmt x y :
  is_finite x = true -> is_finite y = true -> is_nan (fsub fmt x y) = false.
Proof.
  destruct x, y; try discriminate. intros _ _. apply round_not_nan.
Qed.

Lemma fdiv_not_nan fmt x y :
  is_nan x = false -> is_finite y = true -> is_zero y = false ->
  is_nan (fdiv fmt x y) = false.
Proof.
  destruct x as [m e| s |], y as [m' e'| s' |]; try discriminate; intros _ _ Hz.
  - unfold fdiv. rewrite Hz. apply round_not_nan.
  - reflexivity.
Qed.

(** The three floating dtypes have at least 8 significand bits and reach
    [2^8]. *)
Lemma quantizable_format weight :
  is_quantizable weight = true ->
  8 <= prec (dtype_format (t_dtype weight))
  /\ 8 <= emax (dtype_format (t_dtype weight)).
Proof.
  unfold is_quantizable. intro H. apply andb_prop in H as [H _].
  destruct (t_dtype weight); try discriminate; vm_compute; split; discriminate.
Qed.

(** [clip(x, 0, 255) - 128] of a value that is not a NaN: a finite number
    between the integers that bracket the exact difference. *)
Lemma clip_offset_bracket fmt x :
  8 <= prec fmt -> 8 <= emax fmt ->
  is_nan x = false ->
  let c := F2Q (clip x c0 c255) in
  exists m e, clip_offset fmt x = Fin m e
    /\ (inject_Z (Qfloor c - 128) <= F2Q (Fin m e)
        <= inject_Z (Qceiling c - 128))%Q.
Proof.
  intros Hp He Hx c.
  destruct (clip_range x Hx) as [Hfin [Hc0 Hc255]]. fold c in Hc0, Hc255.
  unfold clip_offset.
  destruct (clip x c0 c255) as [mc ec| |] eqn:Ec; try discriminate.
  unfold fsub, c128. change (F2Q (Fin 128 0)) with (128 * 1)%Q.
  pose proof (Qfloor_le c) as Hf. pose proof (Qle_ceiling c) as Hcl.
  assert (H0f : 0 <= Qfloor c).
  { rewrite <- (Qfloor_Z 0). apply Qfloor_resp_le. exact Hc0. }
  assert (Hc255' : Qceiling c <= 255).
  { rewrite <- (Qceiling_Z 255). apply Qceiling_resp_le. exact Hc255. }
  apply round_bracket; try assumption; try lia.
  - unfold Z.sub. rewrite inject_Z_plus, inject_Z_opp.
    change (inject_Z 128) with 128%Q. fold c. lra.
  - unfold Z.sub. rewrite inject_Z_plus, inject_Z_opp.
    change (inject_Z 128) with 128%Q. fold c. lra.
Qed.

Lemma fold_min_fin l : forall m e,
  all_finite l ->
  let r := fold_left fminimum l (Fin m e) in
  is_finite r = true /\ (r = Fin m e \/ In r l)
  /\ (F2Q r <= F2Q (Fin m e))%Q
  /\ (forall w, In w l -> (F2Q r <= F2Q w)%Q).
Proof.
  induction l as [|a l IH]; intros m e Hl.
  - cbn. repeat split; auto; try lra. intros w [].
  - inversion Hl as [|? ? Ha Hl']; subst.
    destruct a as [ma ea| |]; try discriminate.
    cbn [fold_left]. rewrite fminimum_fin.
    destruct (flt (Fin ma ea) (Fin m e)) eqn:E.
    + apply flt_fin_true in E; try reflexivity.
      destruct (IH ma ea Hl') as (H1 & H2 & H3 & H4).
      repeat split; auto.
      * destruct H2 as [->|H2]; right; [now left|now right].
      * lra.
      * intros w [<-|Hw]; [exact H3|now apply H4].
    + apply flt_fin_false in E; try reflexivity.
      destruct (IH m e Hl') as (H1 & H2 & H3 & H4).
      repeat split; auto.
      * destruct H2 as [->|H2]; [now left|right; now right].
      * intros w [<-|Hw]; [lra|now apply H4].
Qed.

Lemma fold_max_fin l : forall m e,
  all_finite l ->
  let r := fold_left fmaximum l (Fin m e) in
  is_finite r = true /\ (r = Fin m e \/ In r l)
  /\ (F2Q (Fin m e) <= F2Q r)%Q
  /\ (forall w, In w l -> (F2Q w <= F2Q r)%Q).
Proof.
  induction l as [|a l IH]; intros m e Hl.
  - cbn. repeat split; auto; try lra. intros w [].
  - inversion Hl as [|? ? Ha Hl']; subst.
    destruct a as [ma ea| |]; try discriminate.
    cbn [fold_left]. rewrite fmaximum_fin.
    destruct (flt (Fin m e) (Fin ma ea)) eqn:E.
    + apply flt_fin_true in E; try reflexivity.
      destruct (IH ma ea Hl') as (H1 & H2 & H3 & H4).
      repeat split; auto.
      * destruct H2 as [->|H2]; right; [now left|now right].
      * lra.
      * intros w [<-|Hw]; [exact H3|now apply H4].
    + apply flt_fin_false in E; try reflexivity.
      destruct (IH m e Hl') as (H1 & H2 & H3 & H4).
      repeat split; auto.
      * destruct H2 as [->|H2]; [now left|right; now right].
      * intros w [<-|Hw]; [lra|now apply H4].
Qed.

(** Over finite elements the two reductions return an element of the
    tensor that bounds all the others. *)
Lemma weight_min_spec weight w :
  all_finite (elems weight) -> In w (elems weight) ->
  is_finite (weight_min weight) = true
  /\ In (weight_min weight) (elems weight)
  /\ (forall v, In v (elems weight) -> (F2Q (weight_min weight) <= F2Q v)%Q).
Proof.
  unfold weight_min. intros Hf Hw.
  destruct (elems weight) as [|a l]; [destruct Hw|].
  inversion Hf as [|? ? Ha Hl]; subst.
  destruct a as [ma ea| |]; try discriminate.
  cbn [fold_left]. change (fminimum (Inf false) (Fin ma ea)) with (Fin ma ea).
  destruct (fold_min_fin l ma ea Hl) as (H1 & H2 & H3 & H4).
  repeat split; auto.
  - destruct H2 as [->|H2]; [now left|now right].
  - intros v [<-|Hv]; [exact H3|now apply H4].
Qed.

Lemma weight_max_spec weight w :
  all_finite (elems weight) -> In w (elems weight) ->
  is_finite (weight_max weight) = true
  /\ In (weight_max weight) (elems weight)
  /\ (forall v, In v (elems weight) -> (F2Q v <= F2Q (weight_max weight))%Q).
Proof.
  unfold weight_max. intros Hf Hw.
  destruct (elems weight) as [|a l]; [destruct Hw|].
  inversion Hf as [|? ? Ha Hl]; subst.
  destruct a as [ma ea| |]; try discriminate.
  cbn [fold_left]. change (fmaximum (Inf true) (Fin ma ea)) with (Fin ma ea).
  destruct (fold_max_fin l ma ea Hl) as (H1 & H2 & H3 & H4).
  repeat split; auto.
  - destruct H2 as [->|H2]; [now left|now right].
  - intros v [<-|Hv]; [exact H3|now apply H4].
Qed.

Lemma all_finite_In l w : all_finite l -> In w l -> is_finite w = true.
Proof. intros H Hw. unfold all_finite in H. rewrite Forall_forall in H. auto. Qed.

Lemma finite_not_nan x : is_finite x = true -> is_nan x = false.
Proof. destruct x; simpl; congruence. Qed.

(** With a finite non-zero scale the quotient of an element is a number
    or an infinity, never a NaN. *)
Lemma quantized_float_not_nan weight w :
  all_finite (elems weight) -> In w (elems weight) ->
  is_finite (scale_of weight) = true -> is_zero (scale_of weight) = false ->
  is_nan (quantized_float (dtype_format (t_dtype weight))
            (zero_point_of weight) (scale_of weight) w) = false.
Proof.
  intros Hf Hw Hs Hz. unfold quantized_float.
  apply fdiv_not_nan; try assumption.
  apply fsub_finite_not_nan.
  - eapply all_finite_In; eassumption.
  - unfold zero_point_of. now destruct (weight_min_spec weight w Hf Hw).
Qed.

(** The stored integer is within one unit of the clipped quotient. *)
Lemma stored_near_clipped fmt x :
  8 <= prec fmt -> 8 <= emax fmt -> is_nan x = false ->
  let c := F2Q (clip x c0 c255) in
  let q := astype_int8 (clip_offset fmt x) in
  -128 <= q <= 127
  /\ q = Qtrunc (F2Q (clip_offset fmt x))
  /\ (Qabs (inject_Z (q + 128) - c) < 1)%Q.
Proof.
  intros Hp He Hx c q.
  destruct (clip_range x Hx) as [_ [Hc0 Hc255]]. fold c in Hc0, Hc255.
  destruct (clip_offset_bracket fmt x Hp He Hx) as (m & e & Hy & Hlo & Hhi).
  fold c in Hlo, Hhi.
  assert (H0f : 0 <= Qfloor c).
  { rewrite <- (Qfloor_Z 0). apply Qfloor_resp_le. exact Hc0. }
  assert (Hc255' : Qceiling c <= 255).
  { rewrite <- (Qceiling_Z 255). apply Qceiling_resp_le. exact Hc255. }
  pose proof (Qtrunc_bracket _ _ _ Hlo Hhi) as Ht.
  assert (Hq : q = Qtrunc (F2Q (Fin m e))).
  { unfold q. rewrite Hy. unfold astype_int8. lia. }
  rewrite Hy. split; [lia|]. split; [exact Hq|].
  pose proof (Qlt_floor c) as Hfl. pose proof (Qceiling_lt c) as Hcl.
  pose proof (Qfloor_le c) as Hfl'. pose proof (Qle_ceiling c) as Hcl'.
  assert (Hfc : Qceiling c <= Qfloor c + 1).
  { assert (Qceiling c - 1 < Qfloor c + 1) by (apply Zlt_Qlt_iff; lra). lia. }
  rewrite inject_Z_plus in Hfl. unfold Z.sub in Hcl.
  rewrite inject_Z_plus in Hcl. 
  change (inject_Z 1) with 1%Q in Hfl. change (inject_Z (-1)) with (-(1))%Q in Hcl.
  rewrite inject_Z_plus. change (inject_Z 128) with 128%Q.
  assert (Hcase : q + 128 = Qfloor c \/ q + 128 = Qceiling c) by lia.
  apply Qabs_Qlt_condition. clearbody c q.
  destruct Hcase as [Hc|Hc].
  - assert (Hi : (inject_Z q + 128 == inject_Z (Qfloor c))%Q).
    { rewrite <- Hc, inject_Z_plus. reflexivity. }
    rewrite Hi. clear - Hfl Hfl'. lra.
  - assert (Hi : (inject_Z q + 128 == inject_Z (Qceiling c))%Q).
    { rewrite <- Hc, inject_Z_plus. reflexivity. }
    rewrite Hi. rewrite inject_Z_opp in Hcl. change (inject_Z 1) with 1%Q in Hcl.
    clear - Hcl Hcl'. lra.
Qed.

End QuantFacts.

(* ================================================================== *)
(** * Facts about names, dictionaries and the quantization loop *)
(* ================================================================== *)

Local Open Scope string_scope.

Module StringFacts.

Lemma list_ascii_app a b :
  list_ascii_of_string (a ++ b)
  = (list_ascii_of_string a ++ list_ascii_of_string b)%list.
Proof. induction a as [|c a IH]; cbn; [reflexivity|now rewrite IH]. Qed.

Lemma list_ascii_inj a b :
  list_ascii_of_string a = list_ascii_of_string b -> a = b.
Proof.
  intro H. rewrite <- (string_of_list_ascii_of_string a),
    <- (string_of_list_ascii_of_string b). now rewrite H.
Qed.

Lemma append_inv_tail a b s : a ++ s = b ++ s -> a = b.
Proof.
  intro H. apply list_ascii_inj.
  apply (f_equal list_ascii_of_string) in H. rewrite !list_ascii_app in H.
  now apply app_inv_tail in H.
Qed.

Lemma length_append a b :
  String.length (a ++ b) = (String.length a + String.length b)%nat.
Proof. induction a as [|c a IH]; cbn; [reflexivity|now rewrite IH]. Qed.

Lemma append_neq_self k s : s <> EmptyString -> k <> k ++ s.
Proof.
  intros Hs H. apply (f_equal String.length) in H.
  rewrite length_append in H. destruct s; [congruence|cbn in H; lia].
Qed.

Lemma scale_neq_zero_point a b : a ++ ".scale" <> b ++ ".zero_point".
Proof.
  intro H. apply (f_equal list_ascii_of_string) in H.
  rewrite !list_ascii_app in H. apply (f_equal (@rev ascii)) in H.
  rewrite !rev_app_distr in H. cbn in H. discriminate.
Qed.

End StringFacts.

Module DictFacts.
Import Dict.

Section StringKeys.
Context {V : Type}.
Implicit Types (d : dict string V) (k : string) (v : V).

Lemma get_set_same k v d : get k (set k v d) = Some v.
Proof.
  induction d as [|[k' v'] d IH]; cbn.
  - unfold key_eqb, string_EqKey. now rewrite String.eqb_refl.
  - unfold key_eqb, string_EqKey in *.
    destruct (String.eqb_spec k k') as [->|Hne]; cbn;
      unfold key_eqb, string_EqKey.
    + now rewrite String.eqb_refl.
    + destruct (String.eqb_spec k k'); [contradiction|exact IH].
Qed.

Lemma get_set_other k k' v d : k <> k' -> get k (set k' v d) = get k d.
Proof.
  intro Hne. induction d as [|[k0 v0] d IH]; cbn; unfold key_eqb, string_EqKey in *.
  - destruct (String.eqb_spec k k'); [contradiction|reflexivity].
  - destruct (String.eqb_spec k' k0) as [->|Hn0]; cbn; unfold key_eqb, string_EqKey.
    + destruct (String.eqb_spec k k0); [contradiction|reflexivity].
    + destruct (String.eqb_spec k k0); [reflexivity|exact IH].
Qed.

Lemma keys_set k v d k' :
  In k' (keys (set k v d)) <-> k' = k \/ In k' (keys d).
Proof.
  induction d as [|[k0 v0] d IH]; cbn; unfold key_eqb, string_EqKey in *.
  - intuition.
  - destruct (String.eqb_spec k k0) as [->|Hn0]; cbn.
    + intuition.
    + rewrite IH. intuition.
Qed.

Lemma NoDup_set k v d : NoDup (keys d) -> NoDup (keys (set k v d)).
Proof.
  induction d as [|[k0 v0] d IH]; cbn; unfold key_eqb, string_EqKey in *; intro H.
  - constructor; [intros []|constructor].
  - inversion H as [|? ? Hnin Hnd]; subst.
    destruct (String.eqb_spec k k0) as [->|Hn0]; cbn.
    + constructor; assumption.
    + constructor; [|now apply IH].
      intro Hin. apply keys_set in Hin as [->|Hin]; [congruence|contradiction].
Qed.

Lemma get_In k v d : get k d = Some v -> In (k, v) d.
Proof.
  induction d as [|[k0 v0] d IH]; cbn; unfold key_eqb, string_EqKey in *; [discriminate|].
  destruct (String.eqb_spec k k0) as [->|Hn0]; intro H.
  - injection H as ->. now left.
  - right. now apply IH.
Qed.

Lemma In_get k v d : NoDup (keys d) -> In (k, v) d -> get k d = Some v.
Proof.
  induction d as [|[k0 v0] d IH]; cbn; unfold key_eqb, string_EqKey in *; [intros _ []|].
  intros Hnd [Heq|Hin]; inversion Hnd as [|? ? Hnin Hnd']; subst.
  - injection Heq as -> ->. now rewrite String.eqb_refl.
  - destruct (String.eqb_spec k k0) as [->|Hn0]; [|now apply IH].
    exfalso. apply Hnin. change k0 with (fst (k0, v)). now apply in_map.
Qed.

Lemma get_None_notin k d : get k d = None <-> ~ In k (keys d).
Proof.
  induction d as [|[k0 v0] d IH]; cbn; unfold key_eqb, string_EqKey in *.
  - intuition.
  - destruct (String.eqb_spec k k0) as [->|Hn0].
    + split; [discriminate|intro H; exfalso; apply H; now left].
    + rewrite IH. intuition congruence.
Qed.

Lemma mem_false_notin k d : mem k d = false <-> ~ In k (keys d).
Proof.
  unfold mem. rewrite <- get_None_notin. destruct (get k d); intuition congruence.
Qed.

End StringKeys.
End DictFacts.

Module LoopFacts.
Import Dict DictFacts StringFacts Quantizer.

Lemma apply_writes_app ws1 ws2 d :
  apply_writes (ws1 ++ ws2)%list d = apply_writes ws2 (apply_writes ws1 d).
Proof. unfold apply_writes. apply fold_left_app. Qed.

Lemma get_apply_writes_notin k ws : forall d,
  ~ In k (map fst ws) -> get k (apply_writes ws d) = get k d.
Proof.
  induction ws as [|[k' v'] ws IH]; intros d Hn; [reflexivity|].
  cbn in *. unfold apply_writes in IH. rewrite IH by tauto.
  apply get_set_other. intro; subst; tauto.
Qed.

(** The value under a key is the one of its last assignment. *)
Lemma get_apply_writes_last k v ws1 ws2 d :
  ~ In k (map fst ws2) ->
  get k (apply_writes (ws1 ++ (k, v) :: ws2)%list d) = Some v.
Proof.
  intro Hn. rewrite apply_writes_app. cbn.
  change (fold_left _ ws2 ?x) with (apply_writes ws2 x).
  rewrite get_apply_writes_notin by assumption. apply get_set_same.
Qed.

Lemma NoDup_apply_writes ws : forall d,
  NoDup (keys d) -> NoDup (keys (apply_writes ws d)).
Proof.
  induction ws as [|[k v] ws IH]; intros d Hd; [exact Hd|].
  cbn. apply IH. now apply NoDup_set.
Qed.

(** The loop performs the writes of its entries, in order. *)
Lemma loop_writes l : forall st,
  quantized_weights (fold_left quantize_entry l st)
  = apply_writes (flat_map entry_writes l) (quantized_weights st).
Proof.
  induction l as [|[k w] l IH]; intro st; [reflexivity|].
  cbn [fold_left flat_map]. rewrite IH, apply_writes_app. f_equal.
  unfold quantize_entry, entry_writes. cbn [fst snd].
  destruct (is_quantizable w); reflexivity.
Qed.

Lemma completed_weights_writes all_weights :
  completed_weights all_weights
  = apply_writes (flat_map entry_writes all_weights) empty.
Proof. unfold completed_weights, completed_loop, items. now rewrite loop_writes. Qed.

(** The names written for a list of entries: the names of the entries and
    the side-car names of the quantizable ones. *)
Lemma written_names k l :
  In k (map fst (flat_map entry_writes l)) ->
  In k (keys l)
  \/ exists k' t', In (k', t') l /\ is_quantizable t' = true
       /\ (k = k' ++ ".scale" \/ k = k' ++ ".zero_point").
Proof.
  induction l as [|[k0 w0] l IH]; cbn; [tauto|].
  rewrite map_app, in_app_iff. intros [H|H].
  - unfold entry_writes in H. cbn [fst snd] in H.
    destruct (is_quantizable w0) eqn:Eq; cbn in H.
    + destruct H as [<-|[<-|[<-|[]]]].
      * left; now left.
      * right. exists k0, w0. intuition.
      * right. exists k0, w0. intuition.
    + destruct H as [<-|[]]. left; now left.
  - destruct (IH H) as [H'|(k' & t' & Hin & Hq & Hk)].
    + left; now right.
    + right. exists k', t'. intuition.
Qed.

Lemma is_sidecar_name_false all_weights k k' t' :
  is_sidecar_name all_weights k = false ->
  In (k', t') all_weights -> is_quantizable t' = true ->
  k <> k' ++ ".scale" /\ k <> k' ++ ".zero_point".
Proof.
  intros Hs Hin Hq. unfold is_sidecar_name in Hs.
  assert (Hn : ~ (exists x, In x all_weights /\
     is_quantizable (snd x) && (String.eqb k (fst x ++ ".scale")
        || String.eqb k (fst x ++ ".zero_point")) = true)).
  { rewrite <- existsb_exists. congruence. }
  split; intro Heq; apply Hn; exists (k', t'); (split; [assumption|]);
    cbn [fst snd]; rewrite Hq, <- Heq, String.eqb_refl; cbn;
    [reflexivity|apply orb_true_r].
Qed.

Lemma sidecar_taken_false all_weights k :
  sidecar_taken all_weights k = false ->
  ~ In (k ++ ".scale") (keys all_weights)
  /\ ~ In (k ++ ".zero_point") (keys all_weights).
Proof.
  unfold sidecar_taken. intro H. apply orb_false_elim in H as [H1 H2].
  split; now apply mem_false_notin.
Qed.

Lemma NoDup_keys_split {V} (l1 l2 : list (string * V)) k v :
  NoDup (keys (l1 ++ (k, v) :: l2)%list) -> ~ In k (keys l2).
Proof.
  unfold keys. rewrite map_app. cbn. intro H.
  apply NoDup_remove_2 in H. rewrite in_app_iff in H. tauto.
Qed.

Lemma writes_split_quantized l1 l2 key weight :
  is_quantizable weight = true ->
  flat_map entry_writes (l1 ++ (key, weight) :: l2)%list
  = (flat_map entry_writes l1
     ++ (key, quantized_int8 weight)
        :: ((key ++ ".scale")%string, scale_tensor weight)
        :: ((key ++ ".zero_point")%string, zero_point_tensor weight)
        :: flat_map entry_writes l2)%list.
Proof.
  intro Hq. rewrite flat_map_app. cbn [flat_map]. f_equal.
  unfold entry_writes at 1. cbn [fst snd]. now rewrite Hq.
Qed.

Lemma writes_split_passthrough l1 l2 key weight :
  is_quantizable weight = false ->
  flat_map entry_writes (l1 ++ (key, weight) :: l2)%list
  = (flat_map entry_writes l1 ++ (key, weight) :: flat_map entry_writes l2)%list.
Proof.
  intro Hq. rewrite flat_map_app. cbn [flat_map]. f_equal.
  unfold entry_writes at 1. cbn [fst snd]. now rewrite Hq.
Qed.

Section Entries.
Variables (all_weights : dict string tensor) (key : string) (weight : tensor).
Hypothesis Hnodup : NoDup (keys all_weights).
Hypothesis Hin : In (key, weight) all_weights.

(** No entry after the one of [key] writes to [key], unless [key] is a
    side-car name. *)
Lemma later_writes_miss_key l1 l2 :
  all_weights = (l1 ++ (key, weight) :: l2)%list ->
  is_sidecar_name all_weights key = false ->
  ~ In key (map fst (flat_map entry_writes l2)).
Proof.
  intros Hsplit Hside Hw.
  apply written_names in Hw as [Hk|(k' & t' & Hin' & Hq & Hk)].
  - rewrite Hsplit in Hnodup. now apply NoDup_keys_split in Hnodup.
  - assert (Hin'' : In (k', t') all_weights).
    { rewrite Hsplit, in_app_iff. right; now right. }
    destruct (is_sidecar_name_false _ _ _ _ Hside Hin'' Hq). tauto.
Qed.

Lemma passthrough_kept :
  is_quantizable weight = false ->
  is_sidecar_name all_weights key = false ->
  get key (completed_weights all_weights) = Some weight.
Proof.
  intros Hq Hside.
  destruct (in_split _ _ Hin) as (l1 & l2 & Hsplit).
  rewrite completed_weights_writes, Hsplit, writes_split_passthrough by assumption.
  apply get_apply_writes_last. eapply later_writes_miss_key; eassumption.
Qed.

Lemma quantized_stored :
  is_quantizable weight = true ->
  is_sidecar_name all_weights key = false ->
  get key (completed_weights all_weights) = Some (quantized_int8 weight).
Proof.
  intros Hq Hside.
  destruct (in_split _ _ Hin) as (l1 & l2 & Hsplit).
  rewrite completed_weights_writes, Hsplit, writes_split_quantized by assumption.
  apply get_apply_writes_last. cbn [map fst].
  intros [H|[H|H]].
  - symmetry in H. revert H. apply append_neq_self. discriminate.
  - symmetry in H. revert H. apply append_neq_self. discriminate.
  - revert H. eapply later_writes_miss_key; eassumption.
Qed.

Lemma later_writes_miss_sidecars l1 l2 :
  all_weights = (l1 ++ (key, weight) :: l2)%list ->
  sidecar_taken all_weights key = false ->
  ~ In (key ++ ".scale") (map fst (flat_map entry_writes l2))
  /\ ~ In (key ++ ".zero_point") (map fst (flat_map entry_writes l2)).
Proof.
  intros Hsplit Htaken.
  destruct (sidecar_taken_false _ _ Htaken) as [Hs Hz].
  assert (Hsub : forall k, In k (keys l2) -> In k (keys all_weights)).
  { intros k Hk. rewrite Hsplit. unfold keys. rewrite map_app, in_app_iff.
    right; now right. }
  assert (Hk2 : ~ In key (keys l2)).
  { rewrite Hsplit in Hnodup. now apply NoDup_keys_split in Hnodup. }
  assert (Hfst : forall k' (t' : tensor), In (k', t') l2 -> In k' (keys l2)).
  { intros k' t' H. change k' with (fst (k', t')). now apply in_map. }
  split; intro Hw;
    apply written_names in Hw as [Hk|(k' & t' & Hin' & Hq & [Hk|Hk])];
    try (apply Hsub in Hk; contradiction).
  - apply append_inv_tail in Hk. subst k'. eauto.
  - now apply scale_neq_zero_point in Hk.
  - symmetry in Hk. now apply scale_neq_zero_point in Hk.
  - apply append_inv_tail in Hk. subst k'. eauto.
Qed.

Lemma sidecars_stored :
  is_quantizable weight = true ->
  sidecar_taken all_weights key = false ->
  get (key ++ ".scale") (completed_weights all_weights)
  = Some (scale_tensor weight)
  /\ get (key ++ ".zero_point") (completed_weights all_weights)
     = Some (zero_point_tensor weight).
Proof.
  intros Hq Htaken.
  destruct (in_split _ _ Hin) as (l1 & l2 & Hsplit).
  destruct (later_writes_miss_sidecars l1 l2 Hsplit Htaken) as [Hs Hz].
  rewrite completed_weights_writes, Hsplit, writes_split_quantized by assumption.
  split.
  - change (?a ++ ?x :: ?y :: ?rest)%list with (a ++ [x] ++ y :: rest)%list.
    rewrite app_assoc. apply get_apply_writes_last. cbn [map fst].
    intros [H|H]; [|contradiction].
    symmetry in H. now apply scale_neq_zero_point in H.
  - change (?a ++ ?x :: ?y :: ?z :: ?rest)%list
      with (a ++ [x; y] ++ z :: rest)%list.
    rewrite app_assoc. now apply get_apply_writes_last.
Qed.

End Entries.

(** The combined mapping of the shards *)

Lemma add_weights_fst s : forall acc,
  fst (add_weights acc s) = apply_writes s (fst acc).
Proof.
  unfold add_weights, items, apply_writes.
  induction s as [|[k t] s IH]; intro acc; [reflexivity|].
  cbn [fold_left]. now rewrite IH.
Qed.

Lemma NoDup_fold_add_weights shards : forall acc,
  NoDup (keys (fst acc)) ->
  NoDup (keys (fst (fold_left add_weights shards acc))).
Proof.
  induction shards as [|s shards IH]; intros acc H; [exact H|].
  cbn [fold_left]. apply IH. rewrite add_weights_fst.
  now apply NoDup_apply_writes.
Qed.

Lemma NoDup_combine shards : NoDup (keys (combine shards)).
Proof. unfold combine. apply NoDup_fold_add_weights. constructor. Qed.

(** Loading a shard over a mapping: its tensors win. *)
Lemma get_add_weights k s acc :
  NoDup (keys s) ->
  get k (fst (add_weights acc s))
  = match get k s with Some t => Some t | None => get k (fst acc) end.
Proof.
  intro Hnd. rewrite add_weights_fst.
  destruct (get k s) as [t|] eqn:E.
  - apply get_In in E. destruct (in_split _ _ E) as (s1 & s2 & ->).
    apply get_apply_writes_last. now apply NoDup_keys_split in Hnd.
  - apply get_apply_writes_notin. now apply get_None_notin.
Qed.

(** ** The loop and its exceptions *)

Lemma quantize_items_ready items : forall st,
  forallb
    (fun kw => negb (is_quantizable (snd kw) && reduction_fails (snd kw)))
    items = true ->
  quantize_items items st = (fold_left quantize_entry items st, None).
Proof.
  induction items as [|kw items IH]; intros st H; [reflexivity|].
  cbn [forallb] in H. apply andb_prop in H as [Hk H].
  cbn [quantize_items fold_left]. unfold quantize_step.
  destruct (is_quantizable (snd kw)); [|now apply IH].
  cbn [andb negb] in Hk. destruct (reduction_fails (snd kw));
    [discriminate|now apply IH].
Qed.

Lemma quantize_loop_ready all_weights :
  loop_ready all_weights = true ->
  quantize_loop all_weights = (completed_loop all_weights, None).
Proof. intro H. now apply quantize_items_ready. Qed.

Lemma quantize_weights_ready all_weights :
  loop_ready all_weights = true ->
  quantize_weights all_weights = Some (completed_weights all_weights).
Proof.
  intro H. unfold quantize_weights. now rewrite quantize_loop_ready.
Qed.

(** The loop stops at the first quantizable tensor of size 0, with the
    state the entries before it have built. *)
Lemma quantize_items_stops items : forall st,
  forallb
    (fun kw => negb (is_quantizable (snd kw) && reduction_fails (snd kw)))
    items = false ->
  exists before kw after msg,
    items = (before ++ kw :: after)%list
    /\ is_quantizable (snd kw) = true
    /\ reduction_fails (snd kw) = true
    /\ quantize_items items st
       = (fold_left quantize_entry before st, Some (Exception msg)).
Proof.
  induction items as [|kw items IH]; intros st H; [discriminate|].
  cbn [forallb] in H. cbn [quantize_items]. unfold quantize_step.
  destruct (is_quantizable (snd kw)) eqn:Eq.
  - destruct (reduction_fails (snd kw)) eqn:Er.
    + exists [], kw, items. eexists. repeat split; assumption.
    + cbn [andb negb] in H.
      destruct (IH (quantize_entry st kw) H)
        as (before & kw' & after & msg & -> & Hq & Hr & Hrun).
      exists (kw :: before), kw', after, msg. repeat split; assumption.
  - cbn [andb negb] in H.
    destruct (IH (quantize_entry st kw) H)
      as (before & kw' & after & msg & -> & Hq & Hr & Hrun).
    exists (kw :: before), kw', after, msg. repeat split; assumption.
Qed.

Lemma quantize_loop_stops all_weights :
  loop_ready all_weights = false ->
  exists before kw after msg,
    all_weights = (before ++ kw :: after)%list
    /\ is_quantizable (snd kw) = true
    /\ reduction_fails (snd kw) = true
    /\ quantize_loop all_weights
       = (completed_loop before, Some (Exception msg)).
Proof. intro H. now apply quantize_items_stops. Qed.

End LoopFacts.

(* ================================================================== *)
(** * Facts about the two scripts *)
(* ================================================================== *)

Module ScriptFacts.
Import Dict DictFacts LoopFacts Quantizer.

Lemma mem_get_Some {V} k (d : Dict.dict string V) v :
  Dict.get k d = Some v -> Dict.mem k d = true.
Proof. unfold Dict.mem. now intros ->. Qed.

Lemma check_files_first_missing w :
  Dict.mem (path_join model_dir file1) (fs w) = false ->
  check_files model_files w
  = (Done false,
     mkWorld (fs w) (on_save w)
       (stdout w ++ [Text ("❌ Error: " ++ path_join model_dir file1 ++ " not found")])
       (io_log w ++ [OpExists (path_join model_dir file1)])).
Proof.
  intro H. unfold model_files. cbn [check_files]. fold file1 file2.
  cbn [bind path_exists log_op print ret fs on_save stdout io_log]. rewrite H. reflexivity.
Qed.

Lemma check_files_second_missing w :
  Dict.mem (path_join model_dir file1) (fs w) = true ->
  Dict.mem (path_join model_dir file2) (fs w) = false ->
  check_files model_files w
  = (Done false,
     mkWorld (fs w) (on_save w)
       (stdout w ++ [Text ("❌ Error: " ++ path_join model_dir file2 ++ " not found")])
       ((io_log w ++ [OpExists (path_join model_dir file1)])
          ++ [OpExists (path_join model_dir file2)])).
Proof.
  intros H1 H2. unfold model_files. cbn [check_files]. fold file1 file2.
  cbn [bind path_exists log_op print ret fs on_save stdout io_log]. rewrite H1.
  cbn [negb bind path_exists log_op print ret fs on_save stdout io_log].
  rewrite H2. reflexivity.
Qed.

Lemma check_files_present w :
  Dict.mem (path_join model_dir file1) (fs w) = true ->
  Dict.mem (path_join model_dir file2) (fs w) = true ->
  check_files model_files w
  = (Done true,
     mkWorld (fs w) (on_save w) (stdout w)
       ((io_log w ++ [OpExists (path_join model_dir file1)])
          ++ [OpExists (path_join model_dir file2)])).
Proof.
  intros H1 H2. unfold model_files. cbn [check_files]. fold file1 file2.
  cbn [bind path_exists log_op print ret fs on_save stdout io_log]. rewrite H1.
  cbn [negb bind path_exists log_op print ret fs on_save stdout io_log].
  rewrite H2. reflexivity.
Qed.

Lemma bind_done {A B} (c : M A) (k : A -> M B) w a w' :
  c w = (Done a, w') -> bind c k w = k a w'.
Proof. unfold bind. now intros ->. Qed.

Lemma mx_load_ok w path tensors sz :
  Dict.get path (fs w) = Some (mkFile (Safetensors tensors) sz) ->
  mx_load path w
  = (Done tensors,
     mkWorld (fs w) (on_save w) (stdout w) (io_log w ++ [OpLoad path])).
Proof.
  intro H. unfold mx_load, bind, log_op. cbn [fs on_save stdout io_log].
  now rewrite H.
Qed.

Lemma load_files_present w shard1 shard2 sz1 sz2 acc :
  Dict.get (path_join model_dir file1) (fs w)
    = Some (mkFile (Safetensors shard1) sz1) ->
  Dict.get (path_join model_dir file2) (fs w)
    = Some (mkFile (Safetensors shard2) sz2) ->
  load_files model_files acc w
  = (Done (add_weights (add_weights acc shard1) shard2),
     mkWorld (fs w) (on_save w)
       ((stdout w ++ [Text ("📥 Loading " ++ file1 ++ "...")])
          ++ [Text ("📥 Loading " ++ file2 ++ "...")])
       ((io_log w ++ [OpLoad (path_join model_dir file1)])
          ++ [OpLoad (path_join model_dir file2)])).
Proof.
  intros H1 H2. unfold model_files. cbn [load_files]. fold file1 file2.
  unfold bind at 1, print at 1.
  erewrite bind_done by (eapply mx_load_ok; exact H1).
  unfold bind at 1, print at 1. cbn [fs on_save stdout io_log].
  erewrite bind_done by (eapply mx_load_ok; exact H2).
  reflexivity.
Qed.

Lemma bind_raised {A B} (c : M A) (k : A -> M B) w e w' :
  c w = (Raised e, w') -> bind c k w = (Raised e, w').
Proof. unfold bind. now intros ->. Qed.

Lemma mx_save_fails w path qw cause partial :
  on_save w = SaveFails cause partial ->
  mx_save_safetensors path qw w
  = (Raised (Exception cause),
     mkWorld (if partial then Dict.set path (mkFile Other 0) (fs w) else fs w)
       (on_save w) (stdout w) (io_log w ++ [OpSave path])).
Proof.
  intro H. unfold mx_save_safetensors, bind, log_op.
  cbn [fs on_save stdout io_log]. now rewrite H.
Qed.

Lemma save_and_verify_fails total qw w cause partial :
  on_save w = SaveFails cause partial ->
  save_and_verify total qw w
  = (Done false,
     mkWorld (if partial then Dict.set output_path (mkFile Other 0) (fs w)
              else fs w)
       (on_save w)
       (stdout w ++ [Text ("❌ Error saving quantized model: " ++ cause)])
       (io_log w ++ [OpSave output_path])).
Proof.
  intro H. unfold save_and_verify, try_except.
  erewrite bind_raised by (eapply mx_save_fails; exact H).
  reflexivity.
Qed.

Lemma bind_print {B} l (k : unit -> M B) w :
  bind (print l) k w
  = k tt (mkWorld (fs w) (on_save w) (stdout w ++ [l]) (io_log w)).
Proof. reflexivity. Qed.

Lemma bind_print_lines {B} ls (k : unit -> M B) w :
  bind (print_lines ls) k w
  = k tt (mkWorld (fs w) (on_save w) (stdout w ++ ls) (io_log w)).
Proof. reflexivity. Qed.

Lemma check_files_missing w :
  (exists file, In file model_files
     /\ Dict.mem (path_join model_dir file) (fs w) = false) ->
  In (first_missing w) model_files
  /\ Dict.mem (path_join model_dir (first_missing w)) (fs w) = false
  /\ exists ops,
       check_files model_files w
       = (Done false,
          mkWorld (fs w) (on_save w)
            (stdout w ++ [Text ("❌ Error: "
                                 ++ path_join model_dir (first_missing w)
                                 ++ " not found")])
            (io_log w ++ ops))
       /\ Forall (fun op => exists p, op = OpExists p) ops.
Proof.
  intros (file & Hin & Hmem). unfold first_missing.
  destruct (Dict.mem (path_join model_dir file1) (fs w)) eqn:E1.
  - assert (E2 : Dict.mem (path_join model_dir file2) (fs w) = false).
    { destruct Hin as [<-|[<-|[]]]; [|exact Hmem].
      fold file1 in Hmem. congruence. }
    split; [right; left; reflexivity|]. split; [exact E2|].
    exists [OpExists (path_join model_dir file1);
            OpExists (path_join model_dir file2)].
    split.
    + rewrite (check_files_second_missing w E1 E2).
      now rewrite <- app_assoc.
    + repeat constructor; eauto.
  - split; [left; reflexivity|]. split; [exact E1|].
    exists [OpExists (path_join model_dir file1)].
    split; [apply (check_files_first_missing w E1)|].
    repeat constructor; eauto.
Qed.

Lemma quantize_missing w :
  (exists file, In file model_files
     /\ Dict.mem (path_join model_dir file) (fs w) = false) ->
  exists ops,
    quantize_openelm_model w
    = (Done false,
       mkWorld (fs w) (on_save w)
         (stdout w ++
          [ Text "🔄 Starting OpenELM-3B quantization to 8-bit...";
            Text ("📁 Model directory: " ++ model_dir);
            Text ("❌ Error: " ++ path_join model_dir (first_missing w)
                   ++ " not found") ])
         (io_log w ++ ops))
    /\ Forall (fun op => exists p, op = OpExists p) ops.
Proof.
  intro Hex. unfold quantize_openelm_model.
  rewrite !bind_print.
  set (w2 := mkWorld _ _ _ _).
  destruct (check_files_missing w2 Hex) as (_ & _ & ops & Hc & Hops).
  exists ops. split; [|exact Hops].
  erewrite bind_done by exact Hc. cbn [negb]. unfold ret, w2, first_missing.
  cbn [fs on_save stdout io_log]. rewrite <- !app_assoc. reflexivity.
Qed.

Lemma quantize_and_save_fails all_weights total w cause partial :
  loop_ready all_weights = true ->
  total <> 0%N ->
  on_save w = SaveFails cause partial ->
  exists pre ops,
    quantize_and_save all_weights total w
    = (Done false,
       mkWorld (if partial
                then Dict.set output_path (mkFile Other 0) (fs w)
                else fs w)
         (on_save w)
         (pre ++ [Text ("❌ Error saving quantized model: " ++ cause)])
         ops).
Proof.
  intros Hready Htot Hsave.
  assert (E : (total =? 0)%N = false) by (now apply N.eqb_neq).
  destruct w as [files outcome out log]. cbn [on_save] in Hsave.
  unfold quantize_and_save, print_reduction.
  rewrite (quantize_loop_ready _ Hready), E.
  cbv beta iota zeta delta [bind print print_lines fs on_save stdout io_log].
  eexists. eexists. apply save_and_verify_fails. exact Hsave.
Qed.

Lemma quantize_save_fails w shard1 shard2 sz1 sz2 cause partial :
  Dict.get (path_join model_dir file1) (fs w)
    = Some (mkFile (Safetensors shard1) sz1) ->
  Dict.get (path_join model_dir file2) (fs w)
    = Some (mkFile (Safetensors shard2) sz2) ->
  loop_ready (combine [shard1; shard2]) = true ->
  snd (fold_left add_weights [shard1; shard2] (Dict.empty, 0%N)) <> 0%N ->
  on_save w = SaveFails cause partial ->
  exists pre ops,
    quantize_openelm_model w
    = (Done false,
       mkWorld (if partial
                then Dict.set output_path (mkFile Other 0) (fs w)
                else fs w)
         (on_save w)
         (pre ++ [Text ("❌ Error saving quantized model: " ++ cause)])
         ops).
Proof.
  intros H1 H2 Hready Htot Hsave. unfold quantize_openelm_model.
  rewrite !bind_print.
  erewrite bind_done
    by (apply check_files_present; cbn [fs];
        eapply mem_get_Some; eassumption).
  cbn [negb]. cbv beta iota.
  erewrite bind_done by (eapply load_files_present; cbn [fs]; eassumption).
  cbn [fold_left] in Htot.
  set (loaded := add_weights (add_weights (Dict.empty, 0%N) shard1) shard2) in *.
  set (w3 := mkWorld _ _ _ _).
  destruct (quantize_and_save_fails (fst loaded) (snd loaded) w3 cause partial
              Hready Htot Hsave) as (pre & ops & Hq).
  rewrite Hq. exists pre, ops. reflexivity.
Qed.

End ScriptFacts.

Module InspectorFacts.
Import Inspector ScriptFacts.


Lemma insert_sorted_perm x l : Permutation (insert_sorted x l) (x :: l).
Proof.
  induction l as [|y l IH]; cbn; [reflexivity|].
  destruct (String.leb x y); [reflexivity|].
  rewrite IH. apply perm_swap.
Qed.

Lemma insert_sorted_hd x y l :
  string_le y x -> HdRel string_le y l -> HdRel string_le y (insert_sorted x l).
Proof.
  intros Hyx Hl. destruct l as [|z l]; cbn.
  - now constructor.
  - destruct (String.leb x z); constructor; [assumption|].
    now inversion Hl.
Qed.

Lemma insert_sorted_Sorted x l :
  Sorted string_le l -> Sorted string_le (insert_sorted x l).
Proof.
  induction 1 as [|y l Hs IH Hhd]; cbn.
  - repeat constructor.
  - destruct (String.leb x y) eqn:E.
    + constructor; [now constructor|]. now constructor.
    + constructor; [exact IH|].
      apply insert_sorted_hd; [|exact Hhd].
      destruct (String.leb_total x y) as [H|H]; [congruence|exact H].
Qed.

(** [sorted] returns the names it is given, in ascending order. *)
Lemma sorted_spec l : Sorted string_le (sorted l) /\ Permutation (sorted l) l.
Proof.
  induction l as [|x l [IH1 IH2]]; cbn.
  - split; constructor.
  - split; [now apply insert_sorted_Sorted|].
    rewrite insert_sorted_perm. now constructor.
Qed.

Lemma path_exists_true w path f :
  Dict.get path (fs w) = Some f ->
  path_exists path w
  = (Done true,
     mkWorld (fs w) (on_save w) (stdout w) (io_log w ++ [OpExists path])).
Proof.
  intro H. unfold path_exists, bind, log_op. cbn [fs on_save stdout io_log].
  now rewrite (mem_get_Some _ _ _ H).
Qed.

Lemma json_load_ok w path value sz :
  Dict.get path (fs w) = Some (mkFile (Json value) sz) ->
  json_load path w
  = (Done value,
     mkWorld (fs w) (on_save w) (stdout w) (io_log w ++ [OpOpen path])).
Proof.
  intro H. unfold json_load, bind, log_op. cbn [fs on_save stdout io_log].
  now rewrite H.
Qed.

Lemma inspect_weights_index w members weight_map sz :
  Dict.get index_path (fs w) = Some (mkFile (Json (JObject members)) sz) ->
  Dict.get "weight_map" members = Some (JObject weight_map) ->
  inspect_weights w
  = (Done tt,
     mkWorld (fs w) (on_save w)
       (((stdout w ++ [Text "Available weights in the model:"])
           ++ [Text "=================================================="])
          ++ listing weight_map)
       ((io_log w ++ [OpExists index_path]) ++ [OpOpen index_path])).
Proof.
  intros H1 H2. unfold inspect_weights.
  erewrite bind_done by (eapply path_exists_true; exact H1).
  cbv beta iota.
  erewrite bind_done by (eapply json_load_ok; cbn [fs]; exact H1).
  rewrite !bind_print. unfold get_weight_map, Dict.get_default.
  rewrite H2. reflexivity.
Qed.

End InspectorFacts.

(* ================================================================== *)
(** * The reference arithmetic agrees on the sample operands *)
(* ================================================================== *)

Local Close Scope string_scope.
Local Open Scope Z_scope.

(** On every pair of sample operands that are data of the format, the
    subtraction and the division of [Float] return the datum that
    [SpecFloat] returns, in each of the three formats. *)
Example float_agrees_with_reference :
  Reference.agrees_on_operands Float.binary32 = true
  /\ Reference.agrees_on_operands Float.binary16 = true
  /\ Reference.agrees_on_operands Float.bfloat16_fmt = true.
Proof. vm_compute. repeat split; reflexivity. Qed.

(* ================================================================== *)
(** * Rounding errors of the format *)
(* ================================================================== *)

Module ScaleFacts.
Import Float FloatFacts Quantizer QuantFacts.
Local Open Scope Z_scope.

Lemma rne_lower q a : (inject_Z a <= q)%Q -> a <= rne q.
Proof.
  intro Ha.
  assert (Hfa : a <= Qfloor q).
  { rewrite <- (Qfloor_Z a). now apply Qfloor_resp_le. }
  destruct (rne_floor_or_succ q) as [-> | [-> _]]; lia.
Qed.

Lemma round_nonneg fmt q :
  (0 <= q)%Q ->
  round fmt q = Inf false
  \/ exists m e, round fmt q = Fin m e /\ 0 <= m.
Proof.
  intro Hq. unfold round. destruct (Qeq_bool q 0); [right; exists 0, 0; split; [reflexivity|lia]|].
  cbv zeta. set (e := Z.max _ _). set (m := rne (q / pow2 e)).
  assert (Hm : 0 <= m).
  { apply rne_lower. change (inject_Z 0) with 0%Q.
    pose proof (pow2_pos e). apply Qle_shift_div_l; [assumption|]. lra. }
  destruct (Qle_bool _ _).
  - left. f_equal. apply Z.ltb_ge. exact Hm.
  - right. exists m, e. split; [reflexivity|exact Hm].
Qed.

Lemma F2Q_nonneg m e : 0 <= m -> (0 <= F2Q (Fin m e))%Q.
Proof.
  intro H. unfold F2Q. pose proof (pow2_pos e).
  assert (0 <= inject_Z m)%Q by (change 0%Q with (inject_Z 0); now rewrite <- Zle_Qle).
  nra.
Qed.

Lemma scale_nonneg weight w :
  all_finite (elems weight) -> In w (elems weight) ->
  scale_of weight = Inf false
  \/ exists m e, scale_of weight = Fin m e /\ 0 <= m.
Proof.
  intros Hf Hw.
  destruct (weight_min_spec weight w Hf Hw) as (Hmf & Hmin_in & Hmin).
  destruct (weight_max_spec weight w Hf Hw) as (HMf & Hmax_in & Hmax).
  unfold scale_of. set (fmt := dtype_format _).
  destruct (weight_max weight) as [M eM| |] eqn:EM; try discriminate.
  destruct (weight_min weight) as [m0 e0| |] eqn:Em; try discriminate.
  assert (Hd : (0 <= F2Q (Fin M eM) - F2Q (Fin m0 e0))%Q).
  { specialize (Hmin w Hw). specialize (Hmax w Hw). lra. }
  unfold fsub.
  destruct (round_nonneg fmt _ Hd) as [->|(m & e & -> & Hm)].
  - left. reflexivity.
  - unfold fdiv, c255. cbn [is_zero]. change (255 =? 0) with false. cbv iota.
    apply round_nonneg.
    pose proof (F2Q_nonneg m e Hm).
    change (F2Q (Fin 255 0)) with (255 * 1)%Q.
    apply Qle_shift_div_l; lra.
Qed.

Lemma round_minus_128 fmt :
  8 <= prec fmt -> 8 <= emax fmt ->
  astype_int8 (round fmt (0 - 128)) = -128.
Proof.
  intros Hp He.
  destruct (round_bracket fmt (0 - 128) (-128) (-128) Hp He) as (m & e & -> & Hlo & Hhi);
    try lia; try (change (inject_Z (-128)) with (-(128))%Q; lra).
  change (inject_Z (-128)) with (-(128))%Q in *.
  assert (Hq : (F2Q (Fin m e) == inject_Z (-128))%Q)
    by (change (inject_Z (-128)) with (-(128))%Q; lra).
  unfold astype_int8.
  assert (Ht : Qtrunc (F2Q (Fin m e)) = -128).
  { pose proof (Qtrunc_bracket (F2Q (Fin m e)) (-128) (-128)) as Hb.
    change (inject_Z (-128)) with (-(128))%Q in Hb.
    specialize (Hb Hlo Hhi). lia. }
  rewrite Ht. reflexivity.
Qed.

End ScaleFacts.

Module RoundingFacts.
Import Float FloatFacts.
Local Open Scope Z_scope.

Lemma pow2_half e : (pow2 (e - 1) == pow2 e * (1 # 2))%Q.
Proof.
  replace (e - 1) with (e + -1) by lia. rewrite pow2_add. reflexivity.
Qed.

Lemma pow2_div q e : (q / pow2 e == q * pow2 (- e))%Q.
Proof. unfold Qdiv, pow2. now rewrite Qpower_opp. Qed.

Lemma pow2_cancel e : (pow2 (- e) * pow2 e == 1)%Q.
Proof. rewrite Qmult_comm. apply pow2_opp_inv. Qed.

Lemma Qabs_pos_eq a : (0 < a)%Q -> Qabs a = a.
Proof.
  destruct a as [n d]. unfold Qlt. cbn. intro H.
  f_equal. apply Z.abs_eq. lia.
Qed.

(** The defining upper bound of the binary logarithm. *)
Lemma Qlog2_lt_succ a : (0 < a)%Q -> (a < pow2 (Qlog2 a + 1))%Q.
Proof.
  destruct a as [n d]. intro Ha.
  assert (Hn : 0 < n).
  { unfold Qlt in Ha. simpl in Ha. lia. }
  unfold Qlog2. cbn [Qnum Qden].
  set (k := Z.log2 n - Z.log2 (Zpos d)).
  destruct (Z.log2_spec n Hn) as [Hn1 Hn2].
  destruct (Z.log2_spec (Zpos d) eq_refl) as [Hd1 Hd2].
  pose proof (Z.log2_nonneg n) as Hln.
  pose proof (Z.log2_nonneg (Zpos d)) as Hld.
  assert (Hval : (n # d == inject_Z n / inject_Z (Zpos d))%Q) by apply Qmake_Qdiv.
  assert (Hdpos : (0 < inject_Z (Zpos d))%Q)
    by (change 0%Q with (inject_Z 0); rewrite <- Zlt_Qlt; lia).
  assert (Hsuff : forall j, (inject_Z n < pow2 j * inject_Z (Zpos d))%Q ->
                    (n # d < pow2 j)%Q).
  { intros j Hj. rewrite Hval. apply Qlt_shift_div_r; assumption. }
  destruct (Z.ltb_spec (n * 2 ^ Z.max (- k) 0) (Zpos d * 2 ^ Z.max k 0)) as [Hlt|Hge].
  - replace (k - 1 + 1) with k by lia. apply Hsuff.
    assert (Hq : (inject_Z n * inject_Z (2 ^ Z.max (- k) 0)
                  < inject_Z (Zpos d) * inject_Z (2 ^ Z.max k 0))%Q).
    { rewrite <- !inject_Z_mult, <- Zlt_Qlt. exact Hlt. }
    rewrite <- !pow2_inject in Hq by lia.
    destruct (Z_le_gt_dec 0 k) as [Hk|Hk].
    + rewrite Z.max_r in Hq by lia. rewrite Z.max_l in Hq by lia.
      change (pow2 0) with 1%Q in Hq. lra.
    + rewrite Z.max_l in Hq by lia. rewrite Z.max_r in Hq by lia.
      change (pow2 0) with 1%Q in Hq.
      pose proof (pow2_cancel k) as Hinv.
      pose proof (pow2_pos k). pose proof (pow2_pos (-k)).
      assert (Hm : (inject_Z n * (pow2 (- k) * pow2 k)
                    < inject_Z (Zpos d) * pow2 k)%Q) by nra.
      rewrite Hinv in Hm. lra.
  - apply Hsuff.
    assert (H1 : (pow2 (k + 1) * pow2 (Z.log2 (Zpos d)) == pow2 (Z.log2 n + 1))%Q).
    { rewrite <- pow2_add. unfold k.
      replace (Z.log2 n - Z.log2 (Z.pos d) + 1 + Z.log2 (Z.pos d))
        with (Z.log2 n + 1) by lia. reflexivity. }
    assert (H2 : (pow2 (Z.log2 (Zpos d)) <= inject_Z (Zpos d))%Q).
    { rewrite pow2_inject by lia. now rewrite <- Zle_Qle. }
    assert (H3 : (inject_Z n < pow2 (Z.log2 n + 1))%Q).
    { rewrite pow2_inject by lia. rewrite <- Zlt_Qlt. unfold Z.succ in Hn2. lia. }
    pose proof (pow2_pos (k + 1)). nra.
Qed.

Lemma Qlog2_mono a b : (0 < a)%Q -> (a <= b)%Q -> Qlog2 a <= Qlog2 b.
Proof.
  intros Ha Hab.
  assert (Hb : (0 < b)%Q) by lra.
  pose proof (Qlog2_le a Ha). pose proof (Qlog2_lt_succ b Hb).
  assert (Qlog2 a < Qlog2 b + 1) by (apply pow2_lt_inv; lra). lia.
Qed.

(** Rounding to the nearest integer moves by at most a half. *)
Lemma rne_half x : (Qabs (inject_Z (rne x) - x) <= 1 # 2)%Q.
Proof.
  pose proof (Qfloor_le x) as Hlo. pose proof (Qlt_floor x) as Hhi.
  rewrite inject_Z_plus in Hhi. change (inject_Z 1) with 1%Q in Hhi.
  unfold rne.
  destruct (Qcompare_spec (x - inject_Z (Qfloor x)) (1 # 2)) as [He|Hl|Hg].
  - destruct (Z.even (Qfloor x)).
    + apply Qabs_Qle_condition. lra.
    + rewrite inject_Z_plus. change (inject_Z 1) with 1%Q.
      apply Qabs_Qle_condition. lra.
  - apply Qabs_Qle_condition. lra.
  - rewrite inject_Z_plus. change (inject_Z 1) with 1%Q.
    apply Qabs_Qle_condition. lra.
Qed.

Lemma rne_mono x y : (x <= y)%Q -> rne x <= rne y.
Proof.
  intro Hxy.
  pose proof (Qfloor_resp_le _ _ Hxy) as Hf.
  destruct (Z.eq_dec (Qfloor x) (Qfloor y)) as [E|N].
  - unfold rne. rewrite <- E.
    destruct (Qcompare_spec (x - inject_Z (Qfloor x)) (1 # 2)) as [He|Hl|Hg];
      destruct (Qcompare_spec (y - inject_Z (Qfloor x)) (1 # 2)) as [He'|Hl'|Hg'];
      try destruct (Z.even (Qfloor x)); try lia; exfalso; lra.
  - destruct (rne_floor_or_succ x) as [-> | [-> _]];
      destruct (rne_floor_or_succ y) as [-> | [-> _]]; lia.
Qed.

Lemma rne_nonneg x : (0 <= x)%Q -> 0 <= rne x.
Proof.
  intro H. pose proof (rne_mono 0 x H) as Hm.
  assert (E0 : rne 0 = 0) by reflexivity. lia.
Qed.

Lemma rne_upper x b : (x <= inject_Z b)%Q -> rne x <= b.
Proof.
  intro H. apply (rne_bracket x (Qfloor x) b); [apply Qfloor_le|exact H].
Qed.

Lemma rne_lower' x a : (inject_Z a <= x)%Q -> a <= rne x.
Proof.
  intro H. apply (rne_bracket x a (Qceiling x)); [exact H|apply Qle_ceiling].
Qed.

(** ** The significand chosen by [round] for a positive number *)

Lemma significand_nonneg q e : (0 <= q)%Q -> 0 <= rne (q / pow2 e).
Proof.
  intro Hq. apply rne_nonneg. pose proof (pow2_pos e).
  apply Qle_shift_div_l; [assumption|]. lra.
Qed.

(** At least [2^L] when the last place is not above [2^L]. *)
Lemma significand_lower q e :
  (0 < q)%Q -> e <= Qlog2 q ->
  (pow2 (Qlog2 q) <= inject_Z (rne (q / pow2 e)) * pow2 e)%Q.
Proof.
  intros Hq He. set (L := Qlog2 q) in *.
  assert (Hk : (pow2 (L - e) == inject_Z (2 ^ (L - e)))%Q)
    by (apply pow2_inject; lia).
  assert (Hm : 2 ^ (L - e) <= rne (q / pow2 e)).
  { apply rne_lower'. rewrite <- Hk, pow2_div.
    replace (L - e) with (L + - e) by lia. rewrite pow2_add.
    apply Qmult_le_compat_r; [apply (Qlog2_le q Hq)|].
    apply Qlt_le_weak, pow2_pos. }
  apply Zle_Qle_iff in Hm. rewrite <- Hk in Hm.
  replace L with ((L - e) + e) at 1 by lia. rewrite pow2_add.
  apply Qmult_le_compat_r; [exact Hm|apply Qlt_le_weak, pow2_pos].
Qed.

(** At most [2^(L+1)] when the last place is not above it. *)
Lemma significand_upper q e :
  (0 < q)%Q -> e <= Qlog2 q + 1 ->
  (inject_Z (rne (q / pow2 e)) * pow2 e <= pow2 (Qlog2 q + 1))%Q.
Proof.
  intros Hq He. set (L := Qlog2 q) in *.
  assert (Hk : (pow2 (L + 1 - e) == inject_Z (2 ^ (L + 1 - e)))%Q)
    by (apply pow2_inject; lia).
  assert (Hm : rne (q / pow2 e) <= 2 ^ (L + 1 - e)).
  { apply rne_upper. rewrite <- Hk, pow2_div.
    replace (L + 1 - e) with ((L + 1) + - e) by lia. rewrite pow2_add.
    apply Qmult_le_compat_r;
      [apply Qlt_le_weak, (Qlog2_lt_succ q Hq)|].
    apply Qlt_le_weak, pow2_pos. }
  apply Zle_Qle_iff in Hm. rewrite <- Hk in Hm.
  assert (E : (pow2 (L + 1) == pow2 (L + 1 - e) * pow2 e)%Q).
  { rewrite <- pow2_add. replace (L + 1 - e + e) with (L + 1) by lia.
    reflexivity. }
  rewrite E.
  apply Qmult_le_compat_r; [exact Hm|apply Qlt_le_weak, pow2_pos].
Qed.

(** At most one unit of the last place when the number is below it. *)
Lemma significand_small q e :
  (0 < q)%Q -> Qlog2 q + 1 <= e ->
  (inject_Z (rne (q / pow2 e)) * pow2 e <= pow2 e)%Q.
Proof.
  intros Hq He.
  assert (Hm : rne (q / pow2 e) <= 1).
  { apply rne_upper. change (inject_Z 1) with 1%Q.
    pose proof (pow2_pos e).
    apply Qle_shift_div_r; [assumption|].
    pose proof (Qlog2_lt_succ q Hq). pose proof (pow2_le _ _ He). lra. }
  apply Zle_Qle_iff in Hm. change (inject_Z 1) with 1%Q in Hm.
  pose proof (pow2_pos e). nra.
Qed.

(** The rounded value grows with the number. *)
Lemma rounded_mono (p emin : Z) a b :
  1 <= p -> (0 < a)%Q -> (a <= b)%Q ->
  let ea := Z.max (Qlog2 a - p + 1) emin in
  let eb := Z.max (Qlog2 b - p + 1) emin in
  (inject_Z (rne (a / pow2 ea)) * pow2 ea
   <= inject_Z (rne (b / pow2 eb)) * pow2 eb)%Q.
Proof.
  intros Hp Ha Hab ea eb.
  assert (Hb : (0 < b)%Q) by lra.
  pose proof (Qlog2_mono a b Ha Hab) as HL.
  destruct (Z.eq_dec ea eb) as [E|N].
  - rewrite <- E. pose proof (pow2_pos ea) as Hpe.
    assert (Hm : rne (a / pow2 ea) <= rne (b / pow2 ea)).
    { apply rne_mono. rewrite !pow2_div. pose proof (pow2_pos (- ea)). nra. }
    apply Zle_Qle_iff in Hm. nra.
  - assert (Hlt : ea < eb) by (unfold ea, eb in *; lia).
    assert (Heb : eb = Qlog2 b - p + 1) by (unfold ea, eb in *; lia).
    assert (HLlt : Qlog2 a < Qlog2 b) by (unfold ea, eb in *; lia).
    assert (Hlow : (pow2 (Qlog2 b) <= inject_Z (rne (b / pow2 eb)) * pow2 eb)%Q)
      by (apply significand_lower; [assumption|lia]).
    destruct (Z_le_gt_dec ea (Qlog2 a + 1)) as [Hc|Hc].
    + pose proof (significand_upper a ea Ha Hc) as Hup.
      assert (pow2 (Qlog2 a + 1) <= pow2 (Qlog2 b))%Q by (apply pow2_le; lia).
      lra.
    + assert (Hs : Qlog2 a + 1 <= ea) by lia.
      pose proof (significand_small a ea Ha Hs) as Hup.
      assert (pow2 ea <= pow2 (Qlog2 b))%Q by (apply pow2_le; lia).
      lra.
Qed.

(** ** Consequences for [round] *)

Lemma round_pos_cases fmt q :
  (0 < q)%Q ->
  let e := Z.max (Qlog2 q - prec fmt + 1) (emin fmt) in
  let m := rne (q / pow2 e) in
  (round fmt q = Inf false /\ (pow2 (emax fmt) <= inject_Z m * pow2 e)%Q)
  \/ (round fmt q = Fin m e /\ (inject_Z m * pow2 e < pow2 (emax fmt))%Q).
Proof.
  intros Hq e m. unfold round.
  destruct (Qeq_bool q 0) eqn:E0.
  { apply Qeq_bool_eq in E0. lra. }
  cbv zeta. rewrite (Qabs_pos_eq q Hq). fold e. fold m.
  pose proof (significand_nonneg q e (Qlt_le_weak _ _ Hq)) as Hm. fold m in Hm.
  assert (Hv : (0 <= inject_Z m * pow2 e)%Q).
  { pose proof (pow2_pos e). apply Zle_Qle_iff in Hm.
    change (inject_Z 0) with 0%Q in Hm. nra. }
  rewrite (Qabs_pos (inject_Z m * pow2 e)) by exact Hv.
  destruct (Qle_bool _ _) eqn:Eo.
  - left. apply Qle_bool_imp_le in Eo. split; [|exact Eo].
    f_equal. apply Z.ltb_ge. exact Hm.
  - right. split; [reflexivity|].
    apply Qnot_le_lt. intro H. apply Qle_bool_iff in H. congruence.
Qed.

(** The result of a number between zero and a number that does not
    overflow is finite. *)
Lemma round_finite_mono fmt a b :
  1 <= prec fmt -> (0 <= a)%Q -> (a <= b)%Q ->
  is_finite (round fmt b) = true -> is_finite (round fmt a) = true.
Proof.
  intros Hp Ha Hab Hfin.
  destruct (Qlt_le_dec 0 a) as [Hpos|Hz].
  2:{ rewrite round_zero by lra. reflexivity. }
  assert (Hb : (0 < b)%Q) by lra.
  destruct (round_pos_cases fmt b Hb) as [[E _]|[_ Hvb]].
  { rewrite E in Hfin. discriminate. }
  destruct (round_pos_cases fmt a Hpos) as [[_ Hva]|[E _]].
  - pose proof (rounded_mono (prec fmt) (emin fmt) a b Hp Hpos Hab) as Hm.
    cbv zeta in Hm. lra.
  - rewrite E. reflexivity.
Qed.

(** A number that overflows is at least [2^(emax-1)]. *)
Lemma round_inf_large fmt q s :
  1 <= prec fmt -> 2 <= emax fmt -> (0 <= q)%Q ->
  round fmt q = Inf s -> (pow2 (emax fmt - 1) <= q)%Q.
Proof.
  intros Hp He Hq E.
  destruct (Qlt_le_dec 0 q) as [Hpos|Hz].
  2:{ rewrite round_zero in E by lra. discriminate. }
  destruct (round_pos_cases fmt q Hpos) as [[_ Hv]|[E' _]].
  2:{ rewrite E' in E. discriminate. }
  set (e := Z.max (Qlog2 q - prec fmt + 1) (emin fmt)) in *.
  destruct (Z_le_gt_dec e (Qlog2 q + 1)) as [Hc|Hc].
  - pose proof (significand_upper q e Hpos Hc) as Hup.
    assert (Hlt : emax fmt < Qlog2 q + 1 + 1).
    { apply pow2_lt_inv.
      assert (pow2 (Qlog2 q + 1) < pow2 (Qlog2 q + 1 + 1))%Q.
      { rewrite (pow2_add (Qlog2 q + 1) 1). change (pow2 1) with 2%Q.
        pose proof (pow2_pos (Qlog2 q + 1)). lra. }
      lra. }
    pose proof (Qlog2_le q Hpos).
    assert (pow2 (emax fmt - 1) <= pow2 (Qlog2 q))%Q by (apply pow2_le; lia).
    lra.
  - exfalso.
    assert (Hs : Qlog2 q + 1 <= e) by lia.
    pose proof (significand_small q e Hpos Hs) as Hup.
    assert (Hee : e = emin fmt) by (unfold e in *; lia).
    assert (Hlt : (pow2 e < pow2 (emax fmt))%Q).
    { assert (pow2 e <= pow2 (emax fmt - 1))%Q
        by (apply pow2_le; rewrite Hee; unfold emin; lia).
      assert (pow2 (emax fmt - 1) < pow2 (emax fmt))%Q.
      { rewrite pow2_half. pose proof (pow2_pos (emax fmt)). lra. }
      lra. }
    lra.
Qed.

(** The error of a rounding: relative in the normal range, at most half
    the last place of the subnormal numbers below it. *)
Lemma round_error fmt q m e :
  round fmt q = Fin m e ->
  (Qabs (F2Q (Fin m e) - q)
   <= pow2 (- prec fmt) * Qabs q + pow2 (emin fmt - 1))%Q.
Proof.
  unfold round. destruct (Qeq_bool q 0) eqn:E0.
  - apply Qeq_bool_eq in E0. intro E. injection E as <- <-.
    unfold F2Q. change (inject_Z 0 * pow2 0)%Q with (0 * 1)%Q.
    pose proof (pow2_pos (- prec fmt)). pose proof (pow2_pos (emin fmt - 1)).
    pose proof (Qabs_nonneg q).
    apply Qabs_Qle_condition. nra.
  - apply Qeq_bool_neq in E0. cbv zeta.
    set (L := Qlog2 (Qabs q)).
    set (e' := Z.max (L - prec fmt + 1) (emin fmt)).
    destruct (Qle_bool _ _); [discriminate|].
    intro E. injection E as <- <-.
    assert (Habs : (0 < Qabs q)%Q) by (apply Qabs_case; intros; lra).
    pose proof (rne_half (q / pow2 e')) as Hh.
    pose proof (pow2_pos e') as Hpe.
    assert (Herr : (Qabs (F2Q (Fin (rne (q / pow2 e')) e') - q)
                    <= pow2 (e' - 1))%Q).
    { rewrite pow2_half. unfold F2Q.
      apply Qabs_Qle_condition in Hh. apply Qabs_Qle_condition.
      assert (Hx : (q / pow2 e' * pow2 e' == q)%Q) by (field; lra).
      set (x := (q / pow2 e')%Q) in *. clearbody x.
      set (r := inject_Z (rne x)) in *. clearbody r. nra. }
    assert (Hcase : (pow2 (e' - 1)
                     <= pow2 (- prec fmt) * Qabs q + pow2 (emin fmt - 1))%Q).
    { pose proof (pow2_pos (- prec fmt)). pose proof (pow2_pos (emin fmt - 1)).
      pose proof (Qlog2_le (Qabs q) Habs) as HL. fold L in HL.
      destruct (Z_le_gt_dec (emin fmt) (L - prec fmt + 1)) as [Hc|Hc].
      - replace (e' - 1) with (- prec fmt + L) by (unfold e'; lia).
        rewrite pow2_add. nra.
      - replace e' with (emin fmt) by (unfold e'; lia). nra. }
    lra.
Qed.

End RoundingFacts.

Module ChainFacts.
Local Open Scope Q_scope.

(** The range in units of the scale: with unit roundoff [u] and absolute
    error [h] of the format, a range [R] whose rounded value [s0], divided
    by 255 and rounded, gives the scale [s]. *)
Lemma range_in_steps (u h s R s0 : Q) :
  0 < u -> u <= 1 # 256 -> 0 <= h -> h <= u * s -> 0 < s -> 0 <= R ->
  R - (u * R + h) <= s0 ->
  s0 / 255 - (u * (s0 / 255) + h) <= s ->
  R <= (255 + 1024 * u) * s.
Proof.
  intros Hu Hu' Hh Hhs Hs HR H1 H2.
  assert (H2' : s0 - u * s0 - 255 * h <= 255 * s).
  { assert (E : s0 / 255 == s0 * (1 # 255)) by (unfold Qdiv; reflexivity).
    rewrite E in H2. lra. }
  clear H2.
  assert (T : (1 - u) * ((1 - u) * R) <= (255 + 256 * u) * s).
  { assert (A : (1 - u) * ((1 - u) * R - h) <= (1 - u) * s0) by nra.
    assert (B : (1 - u) * h <= h) by nra.
    lra. }
  assert (P : 255 + 256 * u <= (1 - u) * ((1 - u) * (255 + 1024 * u))) by nra.
  assert (P' : (255 + 256 * u) * s <= (1 - u) * ((1 - u) * (255 + 1024 * u)) * s)
    by nra.
  set (C := (255 + 1024 * u) * s) in *.
  assert (G : (1 - u) * ((1 - u) * R) <= (1 - u) * ((1 - u) * C)).
  { unfold C. lra. }
  assert (K1 : 0 < 1 - u) by lra.
  assert (G2 : (1 - u) * R <= (1 - u) * C) by nra.
  nra.
Qed.

Lemma quotient_error (u h s a R d qs : Q) :
  0 < u -> u <= 1 # 256 -> 0 <= h -> h <= u * s -> h <= u -> 0 < s ->
  0 <= a -> a <= R -> R <= (255 + 1024 * u) * s ->
  Qabs (d - a) <= u * a + h ->
  Qabs (qs - d) <= u * d + h * s ->
  Qabs (qs - a) <= 522 * (u * s) /\ d <= 261 * s.
Proof.
  intros Hu Hu' Hh Hhs Hhu Hs Ha HaR HR H1 H2.
  apply Qabs_Qle_condition in H1. apply Qabs_Qle_condition in H2.
  assert (Ra : a <= 259 * s) by nra.
  assert (F1 : u * a <= 259 * (u * s)) by nra.
  assert (F2 : u * (u * a) <= (259 # 256) * (u * s)) by nra.
  assert (F3 : u * h <= (1 # 256) * (u * s)) by nra.
  assert (F4 : h * s <= u * s) by nra.
  assert (F5 : 0 <= u * s) by nra.
  assert (D1 : d <= a + u * a + h) by lra.
  assert (D2 : u * d <= u * a + u * (u * a) + u * h) by nra.
  split.
  - apply Qabs_Qle_condition. lra.
  - nra.
Qed.

End ChainFacts.

Module RoundtripFacts.
Import Float FloatFacts Quantizer QuantFacts ScaleFacts RoundingFacts.
Local Open Scope Z_scope.

Lemma quantizable_emax weight :
  is_quantizable weight = true ->
  16 <= emax (dtype_format (t_dtype weight)).
Proof.
  unfold is_quantizable. intro H. apply andb_prop in H as [H _].
  destruct (t_dtype weight); try discriminate; vm_compute; discriminate.
Qed.

Lemma clip_fin_cases m e :
  (0 <= F2Q (Fin m e))%Q ->
  ((F2Q (clip (Fin m e) c0 c255) == F2Q (Fin m e))%Q
   /\ (F2Q (Fin m e) <= 255)%Q)
  \/ ((F2Q (clip (Fin m e) c0 c255) == 255)%Q /\ (255 <= F2Q (Fin m e))%Q).
Proof.
  intro H0. unfold clip, c0, c255. rewrite fmaximum_fin.
  destruct (flt (Fin m e) (Fin 0 0)) eqn:E1.
  - apply flt_fin_true in E1; try reflexivity.
    change (F2Q (Fin 0 0)) with (0 * 1)%Q in E1. lra.
  - rewrite fminimum_fin.
    destruct (flt (Fin 255 0) (Fin m e)) eqn:E2.
    + right. apply flt_fin_true in E2; try reflexivity.
      change (F2Q (Fin 255 0)) with (255 * 1)%Q in *. split; lra.
    + left. apply flt_fin_false in E2; try reflexivity.
      change (F2Q (Fin 255 0)) with (255 * 1)%Q in *. split; lra.
Qed.

(** A finite result of a non-negative number is non-negative. *)
Lemma round_fin_nonneg fmt q m e :
  (0 <= q)%Q -> round fmt q = Fin m e -> (0 <= F2Q (Fin m e))%Q.
Proof.
  intros Hq E. destruct (round_nonneg fmt q Hq) as [E'|(m' & e' & E' & Hm)].
  - rewrite E in E'. discriminate.
  - rewrite E in E'. injection E' as -> ->. now apply F2Q_nonneg.
Qed.

Lemma unit_roundoff fmt :
  8 <= prec fmt -> 2 <= emax fmt ->
  (0 < pow2 (- prec fmt))%Q
  /\ (pow2 (- prec fmt) <= 1 # 256)%Q
  /\ (0 <= pow2 (emin fmt - 1))%Q
  /\ (pow2 (emin fmt - 1) <= pow2 (- prec fmt))%Q
  /\ (pow2 (emin fmt - 1)
      == pow2 (- prec fmt) * pow2 (emin fmt + prec fmt - 1))%Q
  /\ (pow2 (10 - prec fmt) == 1024 * pow2 (- prec fmt))%Q.
Proof.
  intros Hp He. split; [apply pow2_pos|]. split.
  { change (1 # 256)%Q with (pow2 (-8)). apply pow2_le. lia. }
  split; [apply Qlt_le_weak, pow2_pos|]. split.
  { apply pow2_le. unfold emin. lia. }
  split.
  - rewrite <- pow2_add.
    replace (- prec fmt + (emin fmt + prec fmt - 1)) with (emin fmt - 1) by lia.
    reflexivity.
  - replace (10 - prec fmt) with (10 + - prec fmt) by lia.
    rewrite pow2_add. reflexivity.
Qed.

Lemma fdiv_fin fmt m e m' e' :
  is_zero (Fin m' e') = false ->
  fdiv fmt (Fin m e) (Fin m' e') = round fmt (F2Q (Fin m e) / F2Q (Fin m' e')).
Proof. intro H. unfold fdiv. now rewrite H. Qed.

Lemma fdiv_finite_inv fmt x m e :
  is_finite (fdiv fmt x (Fin m e)) = true -> is_finite x = true.
Proof. destruct x; cbn; congruence. Qed.

End RoundtripFacts.

(* ================================================================== *)
(** * Properties of the quantization of one tensor *)
(* ================================================================== *)

Section TensorClaims.
Import Float FloatFacts Quantizer QuantFacts StringFacts DictFacts LoopFacts.
Import ScaleFacts RoundingFacts ChainFacts RoundtripFacts.

Lemma astype_int8_castable y :
  int8_castable y -> astype_int8 y = Qtrunc (F2Q y).
Proof.
  intros [Hfin [Hlo Hhi]]. destruct y as [m e| |]; try discriminate.
  change (- (128))%Q with (inject_Z (-128)) in Hlo.
  change 127%Q with (inject_Z 127) in Hhi.
  pose proof (Qtrunc_bracket _ _ _ Hlo Hhi). unfold astype_int8. lia.
Qed.

Lemma positive_is_finite_nonzero x :
  (0 < F2Q x)%Q -> is_finite x = true /\ is_zero x = false.
Proof.
  destruct x as [m e| |]; cbn; intro H; try (exfalso; lra).
  split; [reflexivity|]. destruct (Z.eqb_spec m 0) as [->|]; [|reflexivity].
  exfalso. change (inject_Z 0) with 0%Q in H. lra.
Qed.

Lemma fsub_equal_zero fmt x y :
  is_finite x = true -> is_finite y = true -> (F2Q x == F2Q y)%Q ->
  fsub fmt x y = Fin 0 0.
Proof.
  destruct x, y; try discriminate. intros _ _ H.
  unfold fsub. apply round_zero. lra.
Qed.


Lemma not_quantizable_iff weight :
  is_quantizable weight = false <->
  (t_dtype weight <> float32 /\ t_dtype weight <> float16
   /\ t_dtype weight <> bfloat16)
  \/ (List.length (t_shape weight) < 2)%nat.
Proof.
  unfold is_quantizable. rewrite andb_false_iff, Nat.leb_gt.
  split; (intros [H|H]; [left|right; exact H]).
  - destruct (t_dtype weight); cbn in H; try discriminate;
      repeat split; discriminate.
  - destruct (t_dtype weight); cbn; try reflexivity;
      destruct H as (H1 & H2 & H3); congruence.
Qed.

(** C1, refuted as stated.  The float32 tensor [[0, 0.25, 200.75, 255]]
    is quantizable with [weight_max > weight_min]; its scale is 1 and its
    zero point 0, so the quotients are the elements themselves.  The output
    holds [-128, -127, 72, 127] under its name, where the specified
    [round_and_clip (..) - 128] gives [-128, -128, 73, 127] with rounding
    to nearest; rounding down or toward zero misses the second element,
    rounding up the third. *)
Lemma C1_rounding_counterexample :
  let weight := Samples.grid32 in
  let all_weights := combine [[("layers.0.weight"%string, weight)]] in
  let specified rnd :=
    map (spec_quantize_elem rnd (scale_of weight) (zero_point_of weight))
        (elems weight) in
  is_quantizable weight = true
  /\ well_formed_float weight = true
  /\ flt (weight_min weight) (weight_max weight) = true
  /\ option_map (Dict.get "layers.0.weight"%string)
       (quantize_weights all_weights)
     = Some (Some (mkTensor int8 [1; 4]%N (RawData [-128; -127; 72; 127])))
  /\ specified rne = [-128; -128; 73; 127]
  /\ specified Qfloor = [-128; -128; 72; 127]
  /\ specified Qtrunc = [-128; -128; 72; 127]
  /\ specified Qceiling = [-128; -127; 73; 127].
Proof. vm_compute. repeat split; reflexivity. Qed.

(** C1, amended.  When no quantizable tensor of the combined input has
    size 0 (the reductions of the loop raise on such a tensor and nothing
    is written), the loop ends and, for every tensor of the input that is
    quantizable and whose name is not the side-car name ([k.scale],
    [k.zero_point]) of a quantizable input tensor, the output holds under
    its name an 8-bit tensor of the same shape whose elements are
    [astype_int8 (clip ((w - zero_point) / scale, 0, 255) - 128)], with
    [scale = (weight_max - weight_min) / 255.0] and
    [zero_point = weight_min] taken over the whole tensor and every
    operation in the floating format of the tensor; the cast discards the
    fractional part (truncation toward zero), it does not round to
    nearest. *)
Theorem C1_quantized_elements (shards : list (Dict.dict string tensor))
    (key : string) (weight : tensor) :
  loop_ready (combine shards) = true ->
  Dict.get key (combine shards) = Some weight ->
  is_quantizable weight = true ->
  is_sidecar_name (combine shards) key = false ->
  let fmt := dtype_format (t_dtype weight) in
  let zero_point := weight_min weight in
  let scale :=
    fdiv fmt (fsub fmt (weight_max weight) (weight_min weight)) c255 in
  (exists output,
     quantize_weights (combine shards) = Some output
     /\ Dict.get key output
        = Some (mkTensor int8 (t_shape weight)
                  (RawData
                     (map (fun w =>
                             astype_int8
                               (fsub fmt
                                  (clip (fdiv fmt (fsub fmt w zero_point) scale)
                                        c0 c255)
                                  c128))
                          (elems weight)))))
  /\ (forall y, int8_castable y -> astype_int8 y = Qtrunc (F2Q y)).
Proof.
  intros Hready Hget Hq Hside fmt zero_point scale. split.
  - exists (completed_weights (combine shards)).
    split; [now apply quantize_weights_ready|].
    apply get_In in Hget.
    exact (quantized_stored (combine shards) key weight
             (NoDup_combine shards) Hget Hq Hside).
  - exact astype_int8_castable.
Qed.

(** C1 at the two sample shards: the bfloat16 tensor of the later shard
    is stored as [-128, 61, 127]. *)
Lemma C1_quantized_elements_witness :
  exists output,
    quantize_weights (combine [Samples.shard_plain; Samples.shard_other])
    = Some output
    /\ Dict.get "layers.0.weight"%string output
       = Some (mkTensor int8 [1; 3]%N (RawData [-128; 61; 127])).
Proof.
  destruct (proj1 (C1_quantized_elements
                     [Samples.shard_plain; Samples.shard_other]
                     "layers.0.weight"%string Samples.ramp_bf16
                     eq_refl eq_refl eq_refl eq_refl))
    as (output & Hout & Hget).
  exists output. split; [exact Hout|].
  rewrite Hget. vm_compute. reflexivity.
Defined.

(** C2, refuted as stated.  In the bfloat16 tensor [[-32, 0.109375, 11]]
    the element 0.109375 is stored as 61: [0.109375 + 32] rounds to 32 (the
    data next to it are 32 and 32.25), the scale [43 / 255] to [173/1024],
    the quotient [32 / scale = 189.41..] to 189.  Dequantized, it is
    [189 * 173/1024 - 32 = -71/1024], at distance [183/1024] from the
    element, more than the scale; evaluating the dequantization in
    bfloat16 gives -0.125, farther still. *)
Lemma C2_roundtrip_counterexample :
  let weight := Samples.ramp_bf16 in
  let w := Fin 7 (-6) in
  let scale := scale_of weight in
  let zero_point := zero_point_of weight in
  is_quantizable weight = true
  /\ well_formed_float weight = true
  /\ flt (weight_min weight) (weight_max weight) = true
  /\ In w (elems weight)
  /\ scale = Fin 173 (-10)
  /\ fsub bfloat16_fmt w zero_point = Fin 128 (-2)
  /\ quantized_float bfloat16_fmt zero_point scale w = Fin 189 0
  /\ quantize_elem weight w = 61
  /\ (dequantize 61 scale zero_point - F2Q w == - (183 # 1024))%Q
  /\ ~ (Qabs (dequantize (quantize_elem weight w) scale zero_point - F2Q w)
        <= F2Q scale)%Q
  /\ ~ (Qabs (F2Q (dequantize_float bfloat16_fmt (quantize_elem weight w)
                     scale zero_point) - F2Q w)
        <= F2Q scale)%Q.
Proof.
  cbv zeta. repeat split; try (vm_compute; reflexivity).
  - right; left; reflexivity.
  - vm_compute. intro H. apply H. reflexivity.
  - vm_compute. intro H. apply H. reflexivity.
Qed.

(** Why the scale has to be a normal number.  In the float16 tensor
    [[0, 380 * 2^-24]] the range divided by 255 is [1.49 * 2^-24] and
    rounds to the least subnormal number, [2^-24]: that is the scale.  The
    quotient of the larger element is 380 and is clipped to 255; the
    element is stored as 127 and dequantized as [255 * 2^-24], 125 steps
    below the element. *)
Lemma subnormal_scale_example :
  let weight := Worlds.subnormal_f16 in
  let w := Fin 380 (-24) in
  is_quantizable weight = true
  /\ well_formed_float weight = true
  /\ In w (elems weight)
  /\ scale_of weight = Fin 1 (-24)
  /\ (F2Q (quantized_float binary16 (zero_point_of weight)
             (scale_of weight) w) == 380)%Q
  /\ quantize_elem weight w = 127
  /\ (dequantize (quantize_elem weight w) (scale_of weight)
        (zero_point_of weight) - F2Q w
      == - (125) * F2Q (scale_of weight))%Q.
Proof.
  cbv zeta. repeat split; try (vm_compute; reflexivity).
  right; left; reflexivity.
Qed.

(** The error of the round trip, rounding of the format included. *)
Lemma roundtrip_bound (weight : tensor) (w : fval) :
  is_quantizable weight = true ->
  all_finite (elems weight) ->
  In w (elems weight) ->
  let fmt := dtype_format (t_dtype weight) in
  let scale := scale_of weight in
  let zero_point := zero_point_of weight in
  let dequantized := dequantize (quantize_elem weight w) scale zero_point in
  is_finite scale = true ->
  (pow2 (emin fmt + prec fmt - 1) <= F2Q scale)%Q ->
  (Qabs (dequantized - F2Q w) < (1 + pow2 (10 - prec fmt)) * F2Q scale)%Q.
Proof.
  intros Hq Hfin Hw fmt scale zero_point dequantized Hsf Hnormal.
  destruct (quantizable_format weight Hq) as [Hp He].
  pose proof (quantizable_emax weight Hq) as He16. fold fmt in Hp, He, He16.
  destruct (unit_roundoff fmt Hp ltac:(lia))
    as (Hu & Hu' & Hh & Hhu & Hheq & H1024).
  set (u := pow2 (- prec fmt)) in *.
  set (h := pow2 (emin fmt - 1)) in *.
  pose proof (pow2_pos (emin fmt + prec fmt - 1)) as Hnpos.
  assert (Hspos : (0 < F2Q scale)%Q) by lra.
  assert (Hhs : (h <= u * F2Q scale)%Q) by (rewrite Hheq; nra).
  destruct (positive_is_finite_nonzero _ Hspos) as [_ Hsz].
  (* the extremes and the element *)
  destruct (weight_min_spec weight w Hfin Hw) as (Hmf & _ & Hmin).
  destruct (weight_max_spec weight w Hfin Hw) as (HMf & _ & Hmax).
  pose proof (all_finite_In _ _ Hfin Hw) as Hwf.
  pose proof (Hmin w Hw) as Hlo. pose proof (Hmax w Hw) as Hhi.
  assert (Escale : scale
                   = fdiv fmt (fsub fmt (weight_max weight) (weight_min weight))
                       c255) by reflexivity.
  assert (Estored : quantize_elem weight w
                    = astype_int8
                        (clip_offset fmt
                           (fdiv fmt (fsub fmt w (weight_min weight)) scale)))
    by reflexivity.
  unfold dequantized, dequantize. rewrite Estored.
  unfold zero_point, zero_point_of.
  clear Estored dequantized zero_point.
  clearbody scale.
  destruct (weight_min weight) as [mz ez| |]; try discriminate.
  destruct (weight_max weight) as [mM eM| |]; try discriminate.
  destruct w as [mw ew| |]; try discriminate.
  clear Hmin Hmax Hmf HMf Hwf Hw Hfin.
  set (zp := F2Q (Fin mz ez)) in *.
  set (R := (F2Q (Fin mM eM) - zp)%Q) in *.
  set (a := (F2Q (Fin mw ew) - zp)%Q) in *.
  assert (Ha : (0 <= a)%Q) by (unfold a; lra).
  assert (HaR : (a <= R)%Q) by (unfold a, R; lra).
  (* the range *)
  assert (Hs0fin : is_finite (round fmt R) = true).
  { rewrite Escale in Hsf. apply fdiv_finite_inv in Hsf. exact Hsf. }
  change (fsub fmt (Fin mM eM) (Fin mz ez)) with (round fmt R) in Escale.
  change (fsub fmt (Fin mw ew) (Fin mz ez)) with (round fmt a).
  destruct (round fmt R) as [m0 e0| |] eqn:E0; try discriminate.
  pose proof (round_error fmt R m0 e0 E0) as HR0.
  pose proof (round_fin_nonneg fmt R m0 e0 ltac:(lra) E0) as Hs0.
  rewrite (Qabs_pos R) in HR0 by lra. fold u h in HR0.
  (* the scale *)
  unfold c255 in Escale. rewrite fdiv_fin in Escale by reflexivity.
  change (F2Q (Fin 255 0)) with (255 * 1)%Q in Escale.
  set (s0 := F2Q (Fin m0 e0)) in *.
  destruct scale as [ms es| |]; try discriminate.
  symmetry in Escale.
  pose proof (round_error fmt _ ms es Escale) as HRs.
  assert (Hs0' : (0 <= s0 / (255 * 1))%Q)
    by (apply Qle_shift_div_l; lra).
  rewrite (Qabs_pos (s0 / (255 * 1))) in HRs by exact Hs0'. fold u h in HRs.
  set (s := F2Q (Fin ms es)) in *.
  assert (HRange : (R <= (255 + 1024 * u) * s)%Q).
  { apply Qabs_Qle_condition in HR0, HRs.
    apply (range_in_steps u h s R s0); try assumption; try lra.
    assert (E : (s0 / (255 * 1) == s0 / 255)%Q) by (field).
    rewrite E in HRs. lra. }
  (* the difference of the element *)
  assert (Hdfin : is_finite (round fmt a) = true).
  { apply (round_finite_mono fmt a R); try assumption; try lia.
    now rewrite E0. }
  destruct (round fmt a) as [md ed| |] eqn:Ed; try discriminate.
  pose proof (round_error fmt a md ed Ed) as HRd.
  rewrite (Qabs_pos a) in HRd by exact Ha. fold u h in HRd.
  pose proof (round_fin_nonneg fmt a md ed Ha Ed) as Hd0.
  (* the quotient *)
  rewrite fdiv_fin by exact Hsz. fold s.
  set (d := F2Q (Fin md ed)) in *.
  assert (Hx0 : (0 <= d / s)%Q) by (apply Qle_shift_div_l; lra).
  assert (Hxs : (d / s * s == d)%Q) by (field; lra).
  destruct (round fmt (d / s)) as [mq eq|sq|] eqn:Eq.
  3:{ pose proof (round_not_nan fmt (d / s)) as Hn. rewrite Eq in Hn.
      discriminate. }
  2:{ exfalso.
      pose proof (round_inf_large fmt (d / s) sq ltac:(lia) ltac:(lia) Hx0 Eq)
        as Hbig.
      assert (H15 : (pow2 15 <= pow2 (emax fmt - 1))%Q) by (apply pow2_le; lia).
      change (pow2 15) with 32768%Q in H15.
      assert (Hd261 : (d <= 261 * s)%Q).
      { apply (quotient_error u h s a R d d); try assumption.
        setoid_replace (d - d)%Q with 0%Q by ring.
        change (Qabs 0) with 0%Q. nra. }
      assert (Hx261 : (d / s <= 261)%Q) by (apply Qle_shift_div_r; lra).
      lra. }
  pose proof (round_error fmt _ mq eq Eq) as HRq.
  rewrite (Qabs_pos (d / s)) in HRq by exact Hx0. fold u h in HRq.
  pose proof (round_fin_nonneg fmt _ mq eq Hx0 Eq) as Hq0.
  set (qv := F2Q (Fin mq eq)) in *.
  assert (HRq' : (Qabs (qv * s - d) <= u * d + h * s)%Q).
  { apply Qabs_Qle_condition in HRq. apply Qabs_Qle_condition.
    set (x := (d / s)%Q) in *. clearbody x.
    assert (u * x * s == u * d)%Q by (rewrite <- Hxs; ring).
    nra. }
  destruct (quotient_error u h s a R d (qv * s)%Q Hu Hu' Hh Hhs Hhu Hspos
              Ha HaR HRange HRd HRq') as [Herr _].
  (* the stored element *)
  destruct (stored_near_clipped fmt (Fin mq eq) Hp He eq_refl)
    as (_ & _ & Hnear).
  cbv zeta in Hnear.
  set (k := astype_int8 (clip_offset fmt (Fin mq eq))) in *.
  set (K := inject_Z (k + 128)) in *.
  apply Qabs_Qlt_condition in Hnear. apply Qabs_Qle_condition in Herr.
  assert (Hgoal : (K * s + zp - F2Q (Fin mw ew) == K * s - a)%Q)
    by (unfold a; ring).
  rewrite Hgoal, H1024. apply Qabs_Qlt_condition.
  destruct (clip_fin_cases mq eq Hq0) as [[Ec Hc]|[Ec Hc]];
    rewrite Ec in Hnear; fold qv in Hnear, Hc.
  - clearbody K qv s a u. nra.
  - assert (A1 : (- (1024 * (u * s)) <= 255 * s - a)%Q) by nra.
    assert (A2 : (255 * s - a <= 522 * (u * s))%Q) by nra.
    assert (A3 : (0 <= u * s)%Q) by nra.
    clearbody K qv s a u. nra.
Qed.

(** C2, amended.  For every quantizable tensor with finite elements whose
    scale is a finite normal number of the tensor's format (at least
    [2^-126] for float32 and bfloat16, [2^-14] for float16), and every
    element [w], the dequantized value [(q + 128) * scale + zero_point]
    of the stored [q] differs from [w] by less than
    [(1 + 2^(10 - p)) * scale], where [p] is the number of significand
    bits of the format: the step of the truncating cast plus the roundings
    of the subtraction and of the two divisions.  That is less than
    [1.0001 * scale] for float32, [1.5 * scale] for float16 and
    [5 * scale] for bfloat16.  When the clipped quotient [c] computed by
    the code is exact, [c * scale = w - zero_point], the difference is
    less than [scale]. *)
Theorem C2_roundtrip_bound (weight : tensor) (w : fval) :
  is_quantizable weight = true ->
  all_finite (elems weight) ->
  In w (elems weight) ->
  let fmt := dtype_format (t_dtype weight) in
  let scale := scale_of weight in
  let zero_point := zero_point_of weight in
  let c := clip (quantized_float fmt zero_point scale w) c0 c255 in
  let dequantized := dequantize (quantize_elem weight w) scale zero_point in
  is_finite scale = true ->
  (pow2 (emin fmt + prec fmt - 1) <= F2Q scale)%Q ->
  (Qabs (dequantized - F2Q w) < (1 + pow2 (10 - prec fmt)) * F2Q scale)%Q
  /\ ((F2Q c * F2Q scale == F2Q w - F2Q zero_point)%Q ->
      (Qabs (dequantized - F2Q w) < F2Q scale)%Q).
Proof.
  intros Hq Hfin Hw fmt scale zero_point c dequantized Hsf Hnormal.
  split; [exact (roundtrip_bound weight w Hq Hfin Hw Hsf Hnormal)|].
  pose proof (pow2_pos (emin fmt + prec fmt - 1)) as Hnpos.
  assert (Hpos : (0 < F2Q scale)%Q) by lra.
  destruct (quantizable_format weight Hq) as [Hp He].
  destruct (positive_is_finite_nonzero _ Hpos) as [_ Hsz].
  pose proof (quantized_float_not_nan weight w Hfin Hw Hsf Hsz) as Hx.
  destruct (stored_near_clipped _ _ Hp He Hx) as (_ & _ & Hnear).
  fold fmt scale zero_point c in Hnear.
  unfold dequantized, dequantize, quantize_elem, pre_cast.
  fold fmt scale zero_point.
  set (q := astype_int8 _) in *.
  apply Qabs_Qlt_condition in Hnear.
  clearbody c q scale zero_point. clear dequantized.
  intro Hexact.
  setoid_replace (inject_Z (q + 128) * F2Q scale + F2Q zero_point - F2Q w)%Q
    with ((inject_Z (q + 128) - F2Q c) * F2Q scale)%Q by lra.
  set (d := (inject_Z (q + 128) - F2Q c)%Q) in *. clearbody d.
  apply Qabs_Qlt_condition. nra.
Qed.

(** C2 at the element of the bfloat16 sample that refutes the claim as
    stated: the difference, [183/1024], is below five times the scale,
    [173/1024]. *)
Lemma C2_roundtrip_bound_witness :
  (Qabs (dequantize (quantize_elem Samples.ramp_bf16 (Fin 7 (-6)))
           (scale_of Samples.ramp_bf16) (zero_point_of Samples.ramp_bf16)
         - F2Q (Fin 7 (-6)))
   < (1 + pow2 (10 - 8)) * F2Q (scale_of Samples.ramp_bf16))%Q.
Proof.
  refine (proj1 (C2_roundtrip_bound Samples.ramp_bf16 (Fin 7 (-6))
                   _ _ _ _ _)).
  - reflexivity.
  - repeat constructor.
  - right; left; reflexivity.
  - reflexivity.
  - vm_compute. discriminate.
Defined.



(** C10, refuted as stated.  The float16 tensor [[-40000, 40000]] has
    finite elements with [weight_max > weight_min], but their difference
    overflows: the scale is infinite, the quotient of 40000 is
    [inf / inf], and the value handed to the 8-bit cast is a NaN.  In the
    float16 tensor [[0, 2^-24]] the quotient of the difference by 255
    underflows: the scale is zero and the quotient of the element 0 is
    [0 / 0], a NaN again. *)
Lemma C10_out_of_range_counterexample :
  let weight := Samples.wide_f16 in
  let w := Fin 40000 0 in
  let weight' := Samples.tiny_f16 in
  let w' := Fin 0 0 in
  (is_quantizable weight = true
   /\ well_formed_float weight = true
   /\ all_finite (elems weight)
   /\ flt (weight_min weight) (weight_max weight) = true
   /\ In w (elems weight)
   /\ scale_of weight = Inf false
   /\ pre_cast weight w = NaN
   /\ ~ int8_castable (pre_cast weight w))
  /\ (is_quantizable weight' = true
      /\ well_formed_float weight' = true
      /\ all_finite (elems weight')
      /\ flt (weight_min weight') (weight_max weight') = true
      /\ In w' (elems weight')
      /\ is_zero (scale_of weight') = true
      /\ pre_cast weight' w' = NaN
      /\ ~ int8_castable (pre_cast weight' w')).
Proof.
  cbv zeta. repeat split; try (vm_compute; reflexivity).
  - repeat constructor.
  - right; left; reflexivity.
  - intros [H _]. vm_compute in H. discriminate.
  - repeat constructor.
  - left; reflexivity.
  - intros [H _]. vm_compute in H. discriminate.
Qed.

(** C10, amended.  For every quantizable tensor with finite elements whose
    scale is finite and not zero, the value handed to the 8-bit cast for
    any element is a finite number of [-128, 127], and so is the stored
    element: the clipping to [0, 255] comes before the offset and the
    cast. *)
Theorem C10_pre_cast_in_range (weight : tensor) (w : fval) :
  is_quantizable weight = true ->
  all_finite (elems weight) ->
  In w (elems weight) ->
  is_finite (scale_of weight) = true ->
  is_zero (scale_of weight) = false ->
  int8_castable (pre_cast weight w)
  /\ -128 <= quantize_elem weight w <= 127.
Proof.
  intros Hq Hfin Hw Hsf Hsz.
  destruct (quantizable_format weight Hq) as [Hp He].
  pose proof (quantized_float_not_nan weight w Hfin Hw Hsf Hsz) as Hx.
  destruct (stored_near_clipped _ _ Hp He Hx) as (Hrange & _ & _).
  destruct (clip_offset_bracket _ _ Hp He Hx) as (m & e & Hy & Hlo & Hhi).
  destruct (clip_range _ Hx) as [_ [Hc0 Hc255]].
  split; [|exact Hrange].
  unfold pre_cast. rewrite Hy. split; [reflexivity|].
  set (c := F2Q (clip _ c0 c255)) in *.
  assert (H0f : 0 <= Qfloor c).
  { rewrite <- (Qfloor_Z 0). apply Qfloor_resp_le. exact Hc0. }
  assert (Hc255' : Qceiling c <= 255).
  { rewrite <- (Qceiling_Z 255). apply Qceiling_resp_le. exact Hc255. }
  assert (H1 : (inject_Z (-128) <= inject_Z (Qfloor c - 128))%Q)
    by (rewrite <- Zle_Qle; lia).
  assert (H2 : (inject_Z (Qceiling c - 128) <= inject_Z 127)%Q)
    by (rewrite <- Zle_Qle; lia).
  change (inject_Z (-128)) with (-(128))%Q in H1.
  change (inject_Z 127) with 127%Q in H2.
  clear - H1 H2 Hlo Hhi. split; lra.
Qed.

(** C10 at the float32 sample and its element 0.25. *)
Lemma C10_pre_cast_in_range_witness :
  int8_castable (pre_cast Samples.grid32 (Fin 1 (-2)))
  /\ -128 <= quantize_elem Samples.grid32 (Fin 1 (-2)) <= 127.
Proof.
  apply (C10_pre_cast_in_range Samples.grid32 (Fin 1 (-2))).
  - reflexivity.
  - repeat constructor.
  - right; left; reflexivity.
  - vm_compute. reflexivity.
  - vm_compute. reflexivity.
Defined.

End TensorClaims.

(* ================================================================== *)
(** * Properties of the output mapping *)
(* ================================================================== *)

Section MappingClaims.
Import Float Quantizer StringFacts DictFacts LoopFacts.
Local Open Scope string_scope.

(** C3, the failing input.  The first shard holds the rank-1 float32
    tensor [a.scale] and, after it, the quantizable tensor [a]; the second
    shard holds other names; no tensor is empty and the loop ends.  It first copies [a.scale] (the branch
    commented [Keep non-weight tensors as-is]), then quantizes [a] and
    writes the scale of [a] under the same name: the output entry
    [a.scale] is that scalar, the number 1, not the input tensor. *)
Lemma C3_passthrough_counterexample :
  let all_weights :=
    combine [Samples.shard_sidecar_first; Samples.shard_other] in
  Dict.get "a.scale" all_weights = Some Samples.vec32
  /\ (List.length (t_shape Samples.vec32) < 2)%nat
  /\ is_quantizable Samples.vec32 = false
  /\ exists output,
       quantize_weights all_weights = Some output
       /\ Dict.get "a.scale" output
          = Some (scalar float32 (Fin 8388608 (-23)))
       /\ Dict.get "a.scale" output <> Some Samples.vec32.
Proof.
  cbv zeta. split; [vm_compute; reflexivity|].
  split; [apply Nat.lt_succ_diag_r|].
  split; [reflexivity|].
  eexists. split; [vm_compute; reflexivity|].
  split; [vm_compute; reflexivity|].
  vm_compute. discriminate.
Qed.

(** C4, the failing input.  The first shard holds the quantizable tensor
    [a] and, after it, the rank-1 tensor [a.scale]; the second shard holds
    other names; no tensor is empty and the loop ends.  It writes the scale of [a] under [a.scale] (the lines
    commented [Store quantized tensor with metadata for dequantization])
    and then overwrites it with the copied input tensor: the output entry
    [a.scale] has rank 1 and is not the scale of [a]. *)
Lemma C4_sidecar_counterexample :
  let all_weights :=
    combine [Samples.shard_sidecar_last; Samples.shard_other] in
  Dict.get "a" all_weights = Some Samples.grid32
  /\ is_quantizable Samples.grid32 = true
  /\ is_scalar Samples.vec32 = false
  /\ exists output,
       quantize_weights all_weights = Some output
       /\ Dict.get "a.scale" output = Some Samples.vec32
       /\ Dict.get "a.scale" output <> Some (scale_tensor Samples.grid32).
Proof.
  cbv zeta. split; [vm_compute; reflexivity|].
  split; [reflexivity|]. split; [reflexivity|].
  eexists. split; [vm_compute; reflexivity|].
  split; [vm_compute; reflexivity|].
  vm_compute. discriminate.
Qed.

End MappingClaims.

(* ================================================================== *)
(** * Properties of the quantizer script *)
(* ================================================================== *)

Section ScriptClaims.
Import Quantizer DictFacts LoopFacts ScriptFacts.
Local Open Scope string_scope.

(** C5.  If an expected shard file is not on disk, [quantize_openelm_model]
    returns [False] having only tested paths for existence (no load, no
    save), with the files as they were and, as its last line, the error
    naming the path of the first missing shard; the process exits with
    status 1, the files still as they were. *)
Theorem C5_missing_shard_aborts (w : world) :
  (exists file, In file model_files
     /\ Dict.mem (path_join model_dir file) (fs w) = false) ->
  exists missing,
    In missing model_files
    /\ Dict.mem (path_join model_dir missing) (fs w) = false
    /\ (exists w',
          quantize_openelm_model w = (Done false, w')
          /\ fs w' = fs w
          /\ stdout w'
             = (stdout w ++
                [ Text "🔄 Starting OpenELM-3B quantization to 8-bit...";
                  Text ("📁 Model directory: " ++ model_dir);
                  Text ("❌ Error: " ++ path_join model_dir missing
                         ++ " not found") ])%list
          /\ exists ops,
               io_log w' = (io_log w ++ ops)%list
               /\ Forall (fun op => exists p, op = OpExists p) ops)
    /\ fst (run w) = 1%Z
    /\ fs (snd (run w)) = fs w
    /\ In (Text ("❌ Error: " ++ path_join model_dir missing ++ " not found"))
          (stdout (snd (run w)))
    /\ exists ops,
         io_log (snd (run w)) = (io_log w ++ ops)%list
         /\ Forall (fun op => exists p, op = OpExists p) ops.
Proof.
  intro Hex. exists (first_missing w).
  destruct (check_files_missing w Hex) as (Hin & Hmem & _).
  split; [exact Hin|]. split; [exact Hmem|].
  split.
  - destruct (quantize_missing w Hex) as (ops & Hq & Hops).
    eexists. split; [exact Hq|]. cbn [fs stdout io_log].
    repeat split. exists ops. split; [reflexivity|exact Hops].
  - unfold run, main. rewrite !bind_print.
    set (w2 := mkWorld _ _ _ _).
    assert (Hex2 : exists file, In file model_files
              /\ Dict.mem (path_join model_dir file) (fs w2) = false)
      by exact Hex.
    destruct (quantize_missing w2 Hex2) as (ops & Hq & Hops).
    erewrite bind_done by exact Hq. cbv beta iota.
    rewrite bind_print. unfold raise.
    cbn [fst snd exit_status fs stdout io_log w2].
    repeat split.
    + rewrite !in_app_iff. left. right. cbn. right. right. left. reflexivity.
    + exists ops. split; [reflexivity|exact Hops].
Qed.

(** C5 on a disk that lacks the second shard. *)
Lemma C5_missing_shard_aborts_witness :
  exists missing,
    In missing model_files
    /\ Dict.mem (path_join model_dir missing) (fs Samples.world_missing) = false
    /\ fst (run Samples.world_missing) = 1%Z
    /\ fs (snd (run Samples.world_missing)) = fs Samples.world_missing.
Proof.
  destruct (C5_missing_shard_aborts Samples.world_missing)
    as (missing & H1 & H2 & _ & H3 & H4 & _).
  - exists file2. split; [right; left; reflexivity|reflexivity].
  - exists missing. repeat split; assumption.
Defined.

(** C8.  When both shards load, the loop ends (no quantizable tensor has
    size 0), the size report can be printed and the save raises an
    exception with message [cause],
    [quantize_openelm_model] returns [False] (it does not raise), its last
    line is the error with [cause], and [main] turns the return into
    [sys.exit(1)]: the process exits with status 1. *)
Theorem C8_save_failure_reported (w : world)
    (shard1 shard2 : Dict.dict string tensor) (sz1 sz2 : N)
    (cause : string) (partial : bool) :
  Dict.get (path_join model_dir "model-00001-of-00002.safetensors") (fs w)
    = Some (mkFile (Safetensors shard1) sz1) ->
  Dict.get (path_join model_dir "model-00002-of-00002.safetensors") (fs w)
    = Some (mkFile (Safetensors shard2) sz2) ->
  loop_ready (combine [shard1; shard2]) = true ->
  snd (fold_left add_weights [shard1; shard2] (Dict.empty, 0%N)) <> 0%N ->
  on_save w = SaveFails cause partial ->
  (exists w' pre,
     quantize_openelm_model w = (Done false, w')
     /\ stdout w'
        = (pre ++ [Text ("❌ Error saving quantized model: " ++ cause)])%list)
  /\ (exists w'', main w = (Raised (SystemExit 1), w''))
  /\ fst (run w) = 1%Z.
Proof.
  intros H1 H2 Hready Htot Hsave. split; [|split].
  - destruct (quantize_save_fails w _ _ _ _ _ _ H1 H2 Hready Htot Hsave)
      as (pre & ops & Hq).
    eexists. exists pre. split; [exact Hq|reflexivity].
  - unfold main. rewrite !bind_print.
    set (w2 := mkWorld _ _ _ _).
    destruct (quantize_save_fails w2 _ _ _ _ _ _ H1 H2 Hready Htot Hsave)
      as (pre & ops & Hq).
    erewrite bind_done by exact Hq. cbv beta iota.
    rewrite bind_print. unfold raise. eexists. reflexivity.
  - unfold run, main. rewrite !bind_print.
    set (w2 := mkWorld _ _ _ _).
    destruct (quantize_save_fails w2 _ _ _ _ _ _ H1 H2 Hready Htot Hsave)
      as (pre & ops & Hq).
    erewrite bind_done by exact Hq. cbv beta iota.
    rewrite bind_print. reflexivity.
Qed.

(** C8 on a disk with both shards where the write fails for lack of
    space. *)
Lemma C8_save_failure_reported_witness :
  (exists w' pre,
     quantize_openelm_model Samples.world_save_fails = (Done false, w')
     /\ stdout w'
        = (pre ++ [Text "❌ Error saving quantized model: No space left on device"])%list)
  /\ (exists w'', main Samples.world_save_fails = (Raised (SystemExit 1), w''))
  /\ fst (run Samples.world_save_fails) = 1%Z.
Proof.
  apply (C8_save_failure_reported Samples.world_save_fails
           Samples.shard_plain Samples.shard_other 200 200
           "No space left on device" true).
  - reflexivity.
  - reflexivity.
  - reflexivity.
  - vm_compute. discriminate.
  - reflexivity.
Defined.

(** C9.  With both shard files on disk, loading returns the mapping built
    from the first shard and then the second, in that order; a name that
    both shards hold maps to the tensor of the second shard. *)
Theorem C9_last_shard_wins (w : world)
    (shard1 shard2 : Dict.dict string tensor) (sz1 sz2 : N)
    (key : string) (tensor1 tensor2 : tensor) :
  Dict.get (path_join model_dir "model-00001-of-00002.safetensors") (fs w)
    = Some (mkFile (Safetensors shard1) sz1) ->
  Dict.get (path_join model_dir "model-00002-of-00002.safetensors") (fs w)
    = Some (mkFile (Safetensors shard2) sz2) ->
  NoDup (Dict.keys shard2) ->
  Dict.get key shard1 = Some tensor1 ->
  Dict.get key shard2 = Some tensor2 ->
  exists total w',
    load_files model_files (Dict.empty, 0%N) w
    = (Done (combine [shard1; shard2], total), w')
    /\ Dict.get key (combine [shard1; shard2]) = Some tensor2.
Proof.
  intros H1 H2 Hnd Hk1 Hk2.
  rewrite (load_files_present w shard1 shard2 sz1 sz2 _ H1 H2).
  exists (snd (add_weights (add_weights (Dict.empty, 0%N) shard1) shard2)).
  eexists. split.
  - unfold combine. cbn [fold_left]. now rewrite <- surjective_pairing.
  - unfold combine. cbn [fold_left].
    rewrite (get_add_weights key shard2 _ Hnd). now rewrite Hk2.
Qed.

(** C9 on the two sample shards, which both hold [layers.0.weight]. *)
Lemma C9_last_shard_wins_witness :
  exists total w',
    load_files model_files (Dict.empty, 0%N) Samples.world_save_fails
    = (Done (combine [Samples.shard_plain; Samples.shard_other], total), w')
    /\ Dict.get "layers.0.weight"
         (combine [Samples.shard_plain; Samples.shard_other])
       = Some Samples.ramp_bf16.
Proof.
  apply (C9_last_shard_wins Samples.world_save_fails
           Samples.shard_plain Samples.shard_other 200 200
           "layers.0.weight" Samples.grid32 Samples.ramp_bf16).
  - reflexivity.
  - reflexivity.
  - repeat constructor; cbn; intuition discriminate.
  - reflexivity.
  - reflexivity.
Defined.

End ScriptClaims.

(* ================================================================== *)
(** * Properties of the inspector *)
(* ================================================================== *)

Section InspectorClaims.
Import Inspector InspectorFacts.
Local Open Scope string_scope.

(** C7, refuted as stated.  The sample index has four names, three of
    which contain [norm] once lowered.  No printed line shows the count 3:
    the heading of the normalization weights reads [(first 10)], and only
    the total, 4, and the two counts of 0 are numbers of the listing. *)
Lemma C7_norm_count_not_printed :
  let weight_map := Samples.index_norms in
  List.length (matching "norm" (Dict.keys weight_map)) = 3%nat
  /\ mentions (str_nat 3) (listing weight_map) = false
  /\ mentions (str_nat 3) (stdout (snd (inspect_weights Samples.world_index)))
     = false
  /\ mentions (str_nat 4) (listing weight_map) = true.
Proof. vm_compute. repeat split; reflexivity. Qed.

(** C7, amended.  For an index file whose [weight_map] is an object with
    ASCII names, the inspector prints the two heading lines and then, for
    [embed] and [token], a heading with the count of the names whose
    lowercase form contains the label, followed by all these names in
    ascending order;
    for [norm] and [transformer], a heading without a count, followed by
    the first ten of these names in ascending order; and last the total,
    the number of names of the map. *)
Theorem C7_inspector_listing (w : world)
    (members weight_map : Dict.dict string json) (sz : N) :
  Dict.get index_path (fs w) = Some (mkFile (Json (JObject members)) sz) ->
  Dict.get "weight_map" members = Some (JObject weight_map) ->
  forallb ascii_name (Dict.keys weight_map) = true ->
  let all_keys := Dict.keys weight_map in
  let matches label := filter (fun k => contains label (lower k)) all_keys in
  let names ws := map (fun k => Text ("  " ++ k)) ws in
  exists embed token norm transformer : list string,
    (Sorted string_le embed /\ Permutation embed (matches "embed"))
    /\ (Sorted string_le token /\ Permutation token (matches "token"))
    /\ (Sorted string_le norm /\ Permutation norm (matches "norm"))
    /\ (Sorted string_le transformer
        /\ Permutation transformer (matches "transformer"))
    /\ exists w',
         inspect_weights w = (Done tt, w')
         /\ stdout w'
            = (stdout w
               ++ [ Text "Available weights in the model:";
                    Text "==================================================" ]
               ++ Text (nl ++ "Embedding weights ("
                          ++ str_nat (List.length (matches "embed")) ++ "):")
                  :: names embed
               ++ Text (nl ++ "Token weights ("
                          ++ str_nat (List.length (matches "token")) ++ "):")
                  :: names token
               ++ Text (nl ++ "Norm weights (first 10):")
                  :: names (firstn 10 norm)
               ++ Text (nl ++ "Transformer weights (first 10):")
                  :: names (firstn 10 transformer)
               ++ [ Text (nl ++ "Total weights: "
                            ++ str_nat (List.length all_keys)) ])%list.
Proof.
  intros H1 H2 _ all_keys matches names.
  exists (sorted (matches "embed")), (sorted (matches "token")),
    (sorted (matches "norm")), (sorted (matches "transformer")).
  repeat (split; [apply sorted_spec|]).
  eexists. split; [exact (inspect_weights_index w _ _ _ H1 H2)|].
  cbn [stdout]. unfold names, matches, all_keys, listing, embedding_section,
    token_section, norm_section, transformer_section, section_counted,
    section_first10, total_line, print_each, matching, Dict.len, Dict.keys.
  rewrite <- !app_assoc. cbn [app]. rewrite length_map. reflexivity.
Qed.

(** C7 on the sample index. *)
Lemma C7_inspector_listing_witness :
  exists w',
    inspect_weights Samples.world_index = (Done tt, w')
    /\ stdout w'
       = [ Text "Available weights in the model:";
           Text "==================================================";
           Text (nl ++ "Embedding weights (0):");
           Text (nl ++ "Token weights (0):");
           Text (nl ++ "Norm weights (first 10):");
           Text "  a.norm.weight"; Text "  b.Norm.weight";
           Text "  c.norm.weight";
           Text (nl ++ "Transformer weights (first 10):");
           Text (nl ++ "Total weights: 4") ].
Proof.
  destruct (C7_inspector_listing Samples.world_index
              [("metadata", JObject []);
               ("weight_map", JObject Samples.index_norms)]
              Samples.index_norms 300 eq_refl eq_refl eq_refl)
    as (e & t & n & tr & _ & _ & _ & _ & w' & Hrun & _).
  exists w'. split; [exact Hrun|].
  vm_compute in Hrun. injection Hrun as <-. reflexivity.
Defined.

End InspectorClaims.

(* ================================================================== *)
(** * Facts about whole runs, totals and listings *)
(* ================================================================== *)

Local Close Scope Z_scope.
Local Open Scope string_scope.

Module RunFacts.
Import Dict DictFacts LoopFacts ScriptFacts Quantizer Summary.

Lemma mx_load_unreadable w path f :
  Dict.get path (fs w) = Some f ->
  (forall tensors, content f <> Safetensors tensors) ->
  mx_load path w
  = (Raised (Exception ("[load] cannot read " ++ path)),
     mkWorld (fs w) (on_save w) (stdout w) (io_log w ++ [OpLoad path])).
Proof.
  intros H Hn. unfold mx_load, bind, log_op. cbn [fs on_save stdout io_log].
  rewrite H. destruct f as [[t| | |] sz]; try reflexivity.
  exfalso. now apply (Hn t).
Qed.

Lemma save_and_verify_ok total qw w sz :
  on_save w = SaveOk sz ->
  save_and_verify total qw w
  = (Done true,
     mkWorld (Dict.set output_path (mkFile (Safetensors qw) sz) (fs w))
       (on_save w)
       (stdout w ++ [ Text "✅ Quantized model saved successfully!";
                      FileSizeLine sz; SavingsLine total sz ])
       (io_log w ++ [OpSave output_path; OpStat output_path])).
Proof.
  intro H. destruct w as [files outcome out log]. cbn [on_save] in H. subst outcome.
  unfold save_and_verify, try_except, mx_save_safetensors, stat_size.
  cbv beta iota zeta delta [bind log_op print ret fs on_save stdout io_log].
  rewrite get_set_same. cbv beta iota. cbn [st_size].
  rewrite <- !app_assoc. reflexivity.
Qed.

Lemma quantize_and_save_ok all_weights total w sz st :
  quantize_loop all_weights = (st, None) ->
  total <> 0%N ->
  on_save w = SaveOk sz ->
  quantize_and_save all_weights total w
  = (Done true,
     mkWorld
       (Dict.set output_path
          (mkFile (Safetensors (quantized_weights st)) sz) (fs w))
       (on_save w)
       (stdout w ++ loop_lines all_weights total st
          ++ [ Text ("✅ Quantized "
                     ++ str_nat (Dict.len (quantized_weights st))
                     ++ " tensors");
               ReductionLine total (quantized_bytes st);
               Text ("💾 Saving quantized model to " ++ output_path ++ "...");
               Text "✅ Quantized model saved successfully!";
               FileSizeLine sz; SavingsLine total sz ])
       (io_log w ++ [OpSave output_path; OpStat output_path])).
Proof.
  intros Hloop Htot Hsave.
  assert (E : (total =? 0)%N = false) by (now apply N.eqb_neq).
  destruct w as [files outcome out log]. cbn [on_save] in Hsave. subst outcome.
  unfold quantize_and_save, print_reduction. rewrite Hloop, E.
  cbv beta iota zeta delta [bind print print_lines fs on_save stdout io_log].
  rewrite (save_and_verify_ok _ _ _ sz) by reflexivity.
  cbn [fs on_save stdout io_log]. unfold loop_lines.
  rewrite <- !app_assoc. reflexivity.
Qed.

Lemma quantize_and_save_zero all_weights w st :
  quantize_loop all_weights = (st, None) ->
  exists msg,
    quantize_and_save all_weights 0%N w
    = (Raised (Exception msg),
       mkWorld (fs w) (on_save w)
         (stdout w ++ loop_lines all_weights 0%N st
            ++ [ Text ("✅ Quantized "
                       ++ str_nat (Dict.len (quantized_weights st))
                       ++ " tensors") ])
         (io_log w)).
Proof.
  intro Hloop. destruct w as [files outcome out log].
  unfold quantize_and_save, print_reduction. rewrite Hloop. cbn [N.eqb].
  cbv beta iota zeta delta [bind print print_lines raise fs on_save stdout io_log].
  unfold loop_lines. eexists.
  rewrite <- !app_assoc. reflexivity.
Qed.

(** An exception of the loop leaves the function after the lines the
    loop has printed. *)
Lemma quantize_and_save_aborts all_weights total w st e :
  quantize_loop all_weights = (st, Some e) ->
  quantize_and_save all_weights total w
  = (Raised e,
     mkWorld (fs w) (on_save w)
       (stdout w ++ loop_lines all_weights total st) (io_log w)).
Proof.
  intro Hloop. destruct w as [files outcome out log].
  unfold quantize_and_save. rewrite Hloop.
  cbv beta iota zeta delta [bind print print_lines raise fs on_save stdout io_log].
  unfold loop_lines. rewrite <- !app_assoc. reflexivity.
Qed.

Lemma model_loaded w shard1 shard2 sz1 sz2 :
  Dict.get (path_join model_dir file1) (fs w)
    = Some (mkFile (Safetensors shard1) sz1) ->
  Dict.get (path_join model_dir file2) (fs w)
    = Some (mkFile (Safetensors shard2) sz2) ->
  quantize_openelm_model w
  = quantize_and_save (combine [shard1; shard2])
      (loaded_bytes [shard1; shard2]) (after_load w).
Proof.
  intros H1 H2. unfold quantize_openelm_model.
  rewrite !bind_print.
  erewrite bind_done
    by (apply check_files_present; cbn [fs];
        eapply mem_get_Some; eassumption).
  cbn [negb]. cbv beta iota.
  erewrite bind_done by (eapply load_files_present; cbn [fs]; eassumption).
  unfold combine, loaded_bytes, after_load. cbn [fold_left fs on_save stdout io_log].
  rewrite <- !app_assoc. reflexivity.
Qed.

Lemma load_files_unreadable_first w f acc :
  Dict.get (path_join model_dir file1) (fs w) = Some f ->
  (forall tensors, content f <> Safetensors tensors) ->
  load_files model_files acc w
  = (Raised (Exception ("[load] cannot read " ++ path_join model_dir file1)),
     mkWorld (fs w) (on_save w)
       (stdout w ++ [Text ("📥 Loading " ++ file1 ++ "...")])
       (io_log w ++ [OpLoad (path_join model_dir file1)])).
Proof.
  intros H1 Hn. unfold model_files. cbn [load_files]. fold file1 file2.
  rewrite bind_print.
  erewrite bind_raised; [reflexivity|].
  eapply mx_load_unreadable; [exact H1|exact Hn].
Qed.

Lemma load_files_unreadable_second w shard1 sz1 f acc :
  Dict.get (path_join model_dir file1) (fs w)
    = Some (mkFile (Safetensors shard1) sz1) ->
  Dict.get (path_join model_dir file2) (fs w) = Some f ->
  (forall tensors, content f <> Safetensors tensors) ->
  load_files model_files acc w
  = (Raised (Exception ("[load] cannot read " ++ path_join model_dir file2)),
     mkWorld (fs w) (on_save w)
       ((stdout w ++ [Text ("📥 Loading " ++ file1 ++ "...")])
          ++ [Text ("📥 Loading " ++ file2 ++ "...")])
       ((io_log w ++ [OpLoad (path_join model_dir file1)])
          ++ [OpLoad (path_join model_dir file2)])).
Proof.
  intros H1 H2 Hn. unfold model_files. cbn [load_files]. fold file1 file2.
  rewrite bind_print.
  erewrite bind_done by (eapply mx_load_ok; exact H1).
  rewrite bind_print.
  erewrite bind_raised; [reflexivity|].
  eapply mx_load_unreadable; [exact H2|exact Hn].
Qed.

Lemma model_unreadable_first w f :
  Dict.get (path_join model_dir file1) (fs w) = Some f ->
  (forall tensors, content f <> Safetensors tensors) ->
  Dict.mem (path_join model_dir file2) (fs w) = true ->
  quantize_openelm_model w
  = (Raised (Exception ("[load] cannot read " ++ path_join model_dir file1)),
     mkWorld (fs w) (on_save w)
       (stdout w ++
        [ Text "🔄 Starting OpenELM-3B quantization to 8-bit...";
          Text ("📁 Model directory: " ++ model_dir);
          Text ("📥 Loading " ++ file1 ++ "...") ])
       (io_log w ++
        [ OpExists (path_join model_dir file1);
          OpExists (path_join model_dir file2);
          OpLoad (path_join model_dir file1) ])).
Proof.
  intros H1 Hn H2. unfold quantize_openelm_model.
  rewrite !bind_print.
  erewrite bind_done
    by (apply check_files_present; cbn [fs];
        [eapply mem_get_Some; eassumption|assumption]).
  cbn [negb]. cbv beta iota.
  erewrite bind_raised
    by (eapply load_files_unreadable_first; cbn [fs]; eassumption).
  cbn [fs on_save stdout io_log]. rewrite <- !app_assoc. reflexivity.
Qed.

Lemma model_unreadable_second w shard1 sz1 f :
  Dict.get (path_join model_dir file1) (fs w)
    = Some (mkFile (Safetensors shard1) sz1) ->
  Dict.get (path_join model_dir file2) (fs w) = Some f ->
  (forall tensors, content f <> Safetensors tensors) ->
  quantize_openelm_model w
  = (Raised (Exception ("[load] cannot read " ++ path_join model_dir file2)),
     mkWorld (fs w) (on_save w)
       (stdout w ++
        [ Text "🔄 Starting OpenELM-3B quantization to 8-bit...";
          Text ("📁 Model directory: " ++ model_dir);
          Text ("📥 Loading " ++ file1 ++ "...");
          Text ("📥 Loading " ++ file2 ++ "...") ])
       (io_log w ++
        [ OpExists (path_join model_dir file1);
          OpExists (path_join model_dir file2);
          OpLoad (path_join model_dir file1);
          OpLoad (path_join model_dir file2) ])).
Proof.
  intros H1 H2 Hn. unfold quantize_openelm_model.
  rewrite !bind_print.
  erewrite bind_done
    by (apply check_files_present; cbn [fs];
        eapply mem_get_Some; eassumption).
  cbn [negb]. cbv beta iota.
  erewrite bind_raised
    by (eapply load_files_unreadable_second; cbn [fs]; eassumption).
  cbn [fs on_save stdout io_log]. rewrite <- !app_assoc. reflexivity.
Qed.

Lemma main_of_model w r w' :
  quantize_openelm_model (banner w) = (r, w') ->
  main w
  = match r with
    | Done true =>
        (Done tt,
         mkWorld (fs w') (on_save w')
           (stdout w' ++
            [ Text (nl ++ "🎉 Quantization completed successfully!");
              Text "📱 Your iOS app can now use the 8-bit quantized model for better memory efficiency.";
              Text "🔧 The app will automatically detect and use model-q8_0.safetensors" ])
           (io_log w'))
    | Done false =>
        (Raised (SystemExit 1),
         mkWorld (fs w') (on_save w')
           (stdout w' ++
            [ Text (nl ++ "❌ Quantization failed. Please check the error messages above.") ])
           (io_log w'))
    | Raised e => (Raised e, w')
    end.
Proof.
  intro H. unfold main. rewrite !bind_print. fold (banner w).
  destruct r as [[|]|e].
  - erewrite bind_done by exact H. cbv beta iota.
    destruct w' as [files outcome out log].
    cbv beta iota zeta delta [bind print fs on_save stdout io_log].
    rewrite <- !app_assoc. reflexivity.
  - erewrite bind_done by exact H. cbv beta iota.
    rewrite bind_print. reflexivity.
  - erewrite bind_raised by exact H. reflexivity.
Qed.

Lemma run_of_model w r w' :
  quantize_openelm_model (banner w) = (r, w') ->
  fst (run w)
  = match r with
    | Done true => 0%Z
    | Done false => 1%Z
    | Raised e => exit_status (Raised e)
    end
  /\ fs (snd (run w)) = fs w'
  /\ io_log (snd (run w)) = io_log w'.
Proof.
  intro H. unfold run. rewrite (main_of_model w r w' H).
  destruct r as [[|]|e]; cbn; auto.
Qed.

Lemma model_cases w :
  let r := fst (quantize_openelm_model w) in
  let w' := snd (quantize_openelm_model w) in
  (r = Done false /\ fs w' = fs w)
  \/ (exists msg, r = Raised (Exception msg) /\ fs w' = fs w)
  \/ (exists shard1 sz1 shard2 sz2 sz,
        Dict.get (path_join model_dir file1) (fs w)
          = Some (mkFile (Safetensors shard1) sz1)
        /\ Dict.get (path_join model_dir file2) (fs w)
             = Some (mkFile (Safetensors shard2) sz2)
        /\ loop_ready (combine [shard1; shard2]) = true
        /\ loaded_bytes [shard1; shard2] <> 0%N
        /\ on_save w = SaveOk sz
        /\ r = Done true
        /\ fs w'
           = Dict.set output_path
               (mkFile (Safetensors
                          (completed_weights (combine [shard1; shard2]))) sz)
               (fs w))
  \/ (r = Done false
      /\ fs w' = Dict.set output_path (mkFile Other 0) (fs w)).
Proof.
  cbv zeta.
  destruct (Dict.get (path_join model_dir file1) (fs w)) as [f1|] eqn:E1.
  2:{ left.
      assert (Hex : exists file, In file model_files
                /\ Dict.mem (path_join model_dir file) (fs w) = false).
      { exists file1. split; [left; reflexivity|]. unfold Dict.mem. now rewrite E1. }
      destruct (quantize_missing w Hex) as (ops & -> & _). split; reflexivity. }
  destruct (Dict.get (path_join model_dir file2) (fs w)) as [f2|] eqn:E2.
  2:{ left.
      assert (Hex : exists file, In file model_files
                /\ Dict.mem (path_join model_dir file) (fs w) = false).
      { exists file2. split; [right; left; reflexivity|]. unfold Dict.mem. now rewrite E2. }
      destruct (quantize_missing w Hex) as (ops & -> & _). split; reflexivity. }
  destruct f1 as [[shard1| | |] sz1];
    try (right; left; eexists;
         rewrite (model_unreadable_first w _ E1)
           by (try (intros t; discriminate); eapply mem_get_Some; exact E2);
         split; reflexivity).
  destruct f2 as [[shard2| | |] sz2];
    try (right; left; eexists;
         rewrite (model_unreadable_second w _ _ _ E1 E2)
           by (intros t; discriminate);
         split; reflexivity).
  rewrite (model_loaded w _ _ _ _ E1 E2).
  destruct (loop_ready (combine [shard1; shard2])) eqn:Er.
  2:{ right; left.
      destruct (quantize_loop_stops _ Er)
        as (before & kw & after & msg & _ & _ & _ & Hloop).
      rewrite (quantize_and_save_aborts _ _ _ _ _ Hloop).
      exists msg. split; reflexivity. }
  pose proof (quantize_loop_ready _ Er) as Hloop.
  destruct (N.eq_dec (loaded_bytes [shard1; shard2]) 0) as [Ez|Hnz].
  - right; left. rewrite Ez.
    destruct (quantize_and_save_zero _ (after_load w) _ Hloop) as [msg ->].
    exists msg. split; reflexivity.
  - destruct (on_save w) as [sz|cause partial] eqn:Es.
    + right; right; left. exists shard1, sz1, shard2, sz2, sz.
      rewrite (quantize_and_save_ok _ _ _ sz _ Hloop Hnz) by exact Es.
      repeat split; auto.
    + destruct (quantize_and_save_fails (combine [shard1; shard2])
                  (loaded_bytes [shard1; shard2]) (after_load w) cause partial
                  Er Hnz Es) as (pre & ops & ->).
      cbn [fst snd fs after_load]. destruct partial.
      * right; right; right. split; reflexivity.
      * left. split; reflexivity.
Qed.

Lemma banner_fs w : fs (banner w) = fs w.
Proof. reflexivity. Qed.

End RunFacts.

Module AccountFacts.
Import Dict DictFacts LoopFacts Quantizer Summary.

Lemma add_weights_snd s : forall acc,
  snd (add_weights acc s) = (snd acc + sum_nbytes s)%N.
Proof.
  unfold add_weights, Dict.items.
  induction s as [|[k t] s IH]; intro acc.
  - cbn. lia.
  - cbn [fold_left]. rewrite IH. cbn [fst snd]. unfold sum_nbytes. cbn [fold_right snd]. lia.
Qed.

Lemma sum_nbytes_app l1 l2 :
  sum_nbytes (l1 ++ l2) = (sum_nbytes l1 + sum_nbytes l2)%N.
Proof.
  induction l1 as [|x l1 IH]; cbn; [reflexivity|]. 
  change (fold_right _ 0%N (l1 ++ l2)) with (sum_nbytes (l1 ++ l2)).
  change (fold_right _ 0%N l1) with (sum_nbytes l1).
  rewrite IH. lia.
Qed.

Lemma fold_add_weights_snd shards : forall acc,
  snd (fold_left add_weights shards acc)
  = (snd acc + sum_nbytes (List.concat shards))%N.
Proof.
  induction shards as [|s shards IH]; intro acc; cbn [fold_left List.concat].
  - cbn. lia.
  - rewrite IH, add_weights_snd, sum_nbytes_app. lia.
Qed.

Lemma keys_apply_writes k ws : forall (d : Dict.dict string tensor),
  In k (Dict.keys (apply_writes ws d))
  <-> In k (Dict.keys d) \/ In k (map fst ws).
Proof.
  induction ws as [|[k' v'] ws IH]; intro d; cbn [apply_writes fold_left map fst].
  - cbn. tauto.
  - change (fold_left _ ws ?x) with (apply_writes ws x).
    rewrite IH, keys_set. cbn [fst snd In]. intuition.
Qed.

Lemma keys_fold_add_weights k shards : forall acc,
  In k (Dict.keys (fst (fold_left add_weights shards acc)))
  <-> In k (Dict.keys (fst acc)) \/ In k (Dict.keys (List.concat shards)).
Proof.
  induction shards as [|s shards IH]; intro acc; cbn [fold_left List.concat].
  - cbn. tauto.
  - rewrite IH, add_weights_fst, keys_apply_writes.
    unfold Dict.keys. rewrite map_app, in_app_iff. tauto.
Qed.

Lemma sum_nbytes_set k v (d : Dict.dict string tensor) :
  (sum_nbytes (Dict.set k v d) <= sum_nbytes d + nbytes v)%N.
Proof.
  induction d as [|[k0 v0] d IH]; cbn; unfold key_eqb, string_EqKey.
  - lia.
  - destruct (String.eqb k k0); cbn [sum_nbytes fold_right snd].
    + lia.
    + change (fold_right _ 0%N (Dict.set k v d))
        with (sum_nbytes (Dict.set k v d)).
      change (fold_right _ 0%N d) with (sum_nbytes d) in *. lia.
Qed.

Lemma add_weights_bound s : forall acc,
  (sum_nbytes (fst acc) <= snd acc)%N ->
  (sum_nbytes (fst (add_weights acc s)) <= snd (add_weights acc s))%N.
Proof.
  unfold add_weights, Dict.items.
  induction s as [|[k t] s IH]; intros acc H; [exact H|].
  cbn [fold_left]. apply IH. cbv beta. cbn [fst snd].
  eapply N.le_trans; [apply sum_nbytes_set|].
  apply N.add_le_mono_r. exact H.
Qed.

Lemma fold_add_weights_bound shards : forall acc,
  (sum_nbytes (fst acc) <= snd acc)%N ->
  (sum_nbytes (fst (fold_left add_weights shards acc))
   <= snd (fold_left add_weights shards acc))%N.
Proof.
  induction shards as [|s shards IH]; intros acc H; [exact H|].
  cbn [fold_left]. apply IH. now apply add_weights_bound.
Qed.

Lemma loop_bytes l : forall st,
  quantized_bytes (fold_left quantize_entry l st)
  = (quantized_bytes st + sum_entry_bytes l)%N.
Proof.
  induction l as [|[k w] l IH]; intro st; cbn [fold_left sum_entry_bytes fold_right].
  - lia.
  - rewrite IH. change (fold_right _ 0%N l) with (sum_entry_bytes l).
    unfold quantize_entry, entry_bytes. cbn [fst snd].
    destruct (is_quantizable w); cbn [quantized_bytes]; [|lia].
    unfold nbytes, quantized_int8, scale_tensor, zero_point_tensor, scalar, size.
    cbn [t_dtype t_shape itemsize fold_right]. lia.
Qed.

Lemma quantizable_itemsize w :
  is_quantizable w = true -> (2 <= itemsize (t_dtype w))%N.
Proof.
  unfold is_quantizable. intro H. apply andb_prop in H as [H _].
  destruct (t_dtype w); try discriminate; cbn; lia.
Qed.

Lemma entry_bytes_le w :
  (is_quantizable w = true -> (4 <= size w)%N) ->
  (entry_bytes w <= nbytes w)%N.
Proof.
  intro H. unfold entry_bytes. destruct (is_quantizable w) eqn:E; [|lia].
  specialize (H eq_refl). pose proof (quantizable_itemsize w E).
  unfold nbytes. nia.
Qed.

Lemma sum_entry_bytes_le l :
  (forall key weight, In (key, weight) l ->
     is_quantizable weight = true -> (4 <= size weight)%N) ->
  (sum_entry_bytes l <= sum_nbytes l)%N.
Proof.
  induction l as [|[k w] l IH]; intro H; [cbn; lia|].
  change (sum_entry_bytes ((k, w) :: l))
    with (entry_bytes w + sum_entry_bytes l)%N.
  change (sum_nbytes ((k, w) :: l)) with (nbytes w + sum_nbytes l)%N.
  assert (entry_bytes w <= nbytes w)%N.
  { apply entry_bytes_le. intro Hq. apply (H k w); [now left|exact Hq]. }
  assert (sum_entry_bytes l <= sum_nbytes l)%N.
  { apply IH. intros k' w' Hin. apply (H k' w'). now right. }
  lia.
Qed.

End AccountFacts.

Module OutputFacts.
Import Dict DictFacts LoopFacts StringFacts Quantizer Summary AccountFacts.

Lemma set_fresh {V} k (v : V) (d : Dict.dict string V) :
  ~ In k (Dict.keys d) -> Dict.set k v d = (d ++ [(k, v)])%list.
Proof.
  induction d as [|[k0 v0] d IH]; cbn; unfold key_eqb, string_EqKey in *; intro H.
  - reflexivity.
  - destruct (String.eqb_spec k k0) as [->|Hn]; [exfalso; apply H; now left|].
    f_equal. apply IH. tauto.
Qed.

Lemma keys_set_present {V} k (v : V) (d : Dict.dict string V) :
  In k (Dict.keys d) -> Dict.keys (Dict.set k v d) = Dict.keys d.
Proof.
  induction d as [|[k0 v0] d IH]; cbn; unfold key_eqb, string_EqKey in *; intro H.
  - destruct H.
  - destruct (String.eqb_spec k k0) as [->|Hn]; cbn; [reflexivity|].
    f_equal. apply IH. destruct H; [congruence|assumption].
Qed.

Lemma apply_writes_fresh ws : forall (d : Dict.dict string tensor),
  NoDup (Dict.keys d ++ map fst ws) -> apply_writes ws d = (d ++ ws)%list.
Proof.
  induction ws as [|[k v] ws IH]; intros d H; cbn [apply_writes fold_left].
  - now rewrite app_nil_r.
  - change (fold_left _ ws ?x) with (apply_writes ws x). cbn [fst snd map] in *.
    assert (Hk : ~ In k (Dict.keys d)).
    { apply NoDup_remove_2 in H. rewrite in_app_iff in H. tauto. }
    rewrite (set_fresh k v d Hk), IH.
    + now rewrite <- app_assoc.
    + unfold Dict.keys. rewrite map_app. cbn [map fst].
      rewrite <- app_assoc. cbn [app].
      unfold Dict.keys in H. exact H.
Qed.

Lemma entry_names_written k' t' l :
  In (k', t') l ->
  In k' (map fst (flat_map entry_writes l))
  /\ (is_quantizable t' = true ->
      In (k' ++ ".scale") (map fst (flat_map entry_writes l))
      /\ In (k' ++ ".zero_point") (map fst (flat_map entry_writes l))).
Proof.
  intro Hin. apply in_split in Hin as (l1 & l2 & ->).
  rewrite flat_map_app, map_app. cbn [flat_map]. rewrite map_app.
  unfold entry_writes at 2 5 8. cbn [fst snd].
  rewrite !in_app_iff.
  destruct (is_quantizable t'); cbn [map fst In].
  - split; [tauto|]. intros _. tauto.
  - split; [tauto|]. discriminate.
Qed.

Lemma length_writes l :
  List.length (flat_map entry_writes l)
  = (List.length l
     + 2 * List.length (filter (fun kw => is_quantizable (snd kw)) l))%nat.
Proof.
  induction l as [|[k w] l IH]; [reflexivity|].
  cbn [flat_map filter]. rewrite length_app, IH.
  unfold entry_writes. cbn [fst snd].
  destruct (is_quantizable w); cbn [List.length]; lia.
Qed.

Lemma substring_all s : substring 0 (String.length s) s = s.
Proof. induction s as [|c s IH]; cbn; [reflexivity|now rewrite IH]. Qed.

Lemma substring_append_skip k suf :
  substring (String.length k) (String.length suf) (k ++ suf) = suf.
Proof. induction k as [|c k IH]; cbn; [apply substring_all|exact IH]. Qed.

Lemma ends_with_append k suf : ends_with (k ++ suf) suf = true.
Proof.
  unfold ends_with. rewrite length_append.
  replace (String.length k + String.length suf - String.length suf)%nat
    with (String.length k) by lia.
  rewrite substring_append_skip, String.eqb_refl, andb_true_r.
  apply Nat.leb_le. lia.
Qed.

Lemma sidecar_not_plain k :
  plain_name (k ++ ".scale") = false
  /\ plain_name (k ++ ".zero_point") = false.
Proof.
  unfold plain_name. rewrite !ends_with_append. cbn.
  split; [reflexivity|apply andb_false_r].
Qed.

Lemma primary_keys_filter qw :
  primary_keys qw = filter plain_name (Dict.keys qw).
Proof. reflexivity. Qed.

Lemma primary_keys_set_other k v (d : Dict.dict string tensor) :
  plain_name k = false ->
  primary_keys (Dict.set k v d) = primary_keys d.
Proof.
  intro Hp. rewrite !primary_keys_filter.
  destruct (in_dec string_dec k (Dict.keys d)) as [Hin|Hnin].
  - now rewrite keys_set_present.
  - rewrite (set_fresh k v d Hnin). unfold Dict.keys.
    rewrite map_app, filter_app. cbn [map fst filter]. rewrite Hp.
    apply app_nil_r.
Qed.

Lemma primary_keys_set_plain k v (d : Dict.dict string tensor) :
  plain_name k = true -> ~ In k (Dict.keys d) ->
  primary_keys (Dict.set k v d) = (primary_keys d ++ [k])%list.
Proof.
  intros Hp Hnin. rewrite !primary_keys_filter.
  rewrite (set_fresh k v d Hnin). unfold Dict.keys.
  rewrite map_app, filter_app. cbn [map fst filter]. now rewrite Hp.
Qed.

Lemma step_report st k w :
  plain_name k = true ->
  ~ In k (Dict.keys (quantized_weights st)) ->
  let st' := quantize_entry st (k, w) in
  List.length (primary_keys (quantized_weights st'))
  = S (List.length (primary_keys (quantized_weights st)))
  /\ report st'
     = (report st ++
        if is_quantizable w
           && (List.length (primary_keys (quantized_weights st)) <? 5)%nat
        then [tensor_line (k, w)] else [])%list
  /\ (forall x, In x (Dict.keys (quantized_weights st')) ->
        In x (Dict.keys (quantized_weights st)) \/ x = k
        \/ plain_name x = false).
Proof.
  intros Hp Hnin. cbv zeta. unfold quantize_entry. cbn [fst snd].
  destruct (sidecar_not_plain k) as [Hs Hz].
  destruct (is_quantizable w); cbn [quantized_weights report andb].
  - rewrite !primary_keys_set_other by assumption.
    rewrite primary_keys_set_plain by assumption.
    rewrite length_app. cbn [List.length].
    replace (List.length (primary_keys (quantized_weights st)) + 1)%nat
      with (S (List.length (primary_keys (quantized_weights st)))) by lia.
    split; [reflexivity|]. split.
    + change (S ?n <=? 5)%nat with (n <? 5)%nat.
      destruct (_ <? 5)%nat; [reflexivity|now rewrite app_nil_r].
    + intros x Hx. rewrite !keys_set in Hx.
      destruct Hx as [->|[->|[->|Hx]]]; auto.
  - rewrite primary_keys_set_plain by assumption.
    rewrite length_app. cbn [List.length].
    split; [lia|]. split; [now rewrite app_nil_r|].
    intros x Hx. rewrite keys_set in Hx. destruct Hx as [->|Hx]; auto.
Qed.

Lemma report_loop l : forall st,
  NoDup (Dict.keys l) ->
  forallb plain_name (Dict.keys l) = true ->
  (forall k, In k (Dict.keys l) ->
     ~ In k (Dict.keys (quantized_weights st))) ->
  report (fold_left quantize_entry l st)
  = (report st ++
     map tensor_line
       (filter (fun kw => is_quantizable (snd kw))
          (firstn (5 - List.length (primary_keys (quantized_weights st))) l)))%list.
Proof.
  induction l as [|[k w] l IH]; intros st Hnd Hpl Hfresh.
  - cbn. rewrite firstn_nil. cbn. now rewrite app_nil_r.
  - cbn [Dict.keys map fst forallb] in Hnd, Hpl.
    apply andb_prop in Hpl as [Hpk Hpl].
    inversion Hnd as [|? ? Hk Hnd']; subst.
    assert (Hkf : ~ In k (Dict.keys (quantized_weights st)))
      by (apply Hfresh; now left).
    destruct (step_report st k w Hpk Hkf) as (Hlen & Hrep & Hkeys).
    cbn [fold_left]. rewrite IH; try assumption.
    + rewrite Hlen, Hrep, <- app_assoc. f_equal.
      set (n := List.length (primary_keys (quantized_weights st))).
      destruct (Nat.ltb_spec n 5) as [Hn|Hn].
      * replace (5 - n)%nat with (S (5 - S n)) by lia.
        cbn [firstn filter snd].
        destruct (is_quantizable w); reflexivity.
      * replace (5 - n)%nat with 0%nat by lia.
        replace (5 - S n)%nat with 0%nat by lia.
        rewrite andb_false_r. reflexivity.
    + intros x Hx Hin. apply Hkeys in Hin.
      destruct Hin as [Hin|[->|Hin]].
      * apply (Hfresh x); [now right|exact Hin].
      * contradiction.
      * rewrite forallb_forall in Hpl. specialize (Hpl x Hx). congruence.
Qed.

End OutputFacts.

Module TallyFacts.

Section Tally.
Context {K A : Type} `{EqKey K}.
Variable f : A -> K.
Hypothesis key_eqb_eq : forall a b : K, key_eqb a b = true <-> a = b.

Lemma key_eqb_refl (k : K) : key_eqb k k = true.
Proof. now apply key_eqb_eq. Qed.

Lemma get_set_tally (k k' : K) (v : nat) (d : Dict.dict K nat) :
  Dict.get k (Dict.set k' v d)
  = if key_eqb k k' then Some v else Dict.get k d.
Proof.
  induction d as [|[k0 v0] d IH]; cbn.
  - reflexivity.
  - destruct (key_eqb k' k0) eqn:E'; cbn.
    + apply key_eqb_eq in E'. subst k0.
      destruct (key_eqb k k'); reflexivity.
    + rewrite IH. destruct (key_eqb k k0) eqn:E0; [|reflexivity].
      apply key_eqb_eq in E0. subst k0.
      destruct (key_eqb k k') eqn:E1; [|reflexivity].
      apply key_eqb_eq in E1. subst k'. rewrite key_eqb_refl in E'.
      discriminate.
Qed.

Lemma key_eqb_sym (a b : K) : key_eqb a b = key_eqb b a.
Proof.
  destruct (key_eqb a b) eqn:E1, (key_eqb b a) eqn:E2; try reflexivity.
  - apply key_eqb_eq in E1. subst. rewrite key_eqb_refl in E2. discriminate.
  - apply key_eqb_eq in E2. subst. rewrite key_eqb_refl in E1. discriminate.
Qed.

Lemma tally_get (l : list A) : forall (d : Dict.dict K nat) (k : K),
  Dict.get k
    (fold_left
       (fun dc x => Dict.set (f x) (Dict.get_default (f x) 0%nat dc + 1)%nat dc)
       l d)
  = match Dict.get k d, List.length (filter (fun x => key_eqb (f x) k) l) with
    | None, O => None
    | None, n => Some n
    | Some m, n => Some (m + n)%nat
    end.
Proof.
  induction l as [|x l IH]; intros d k.
  - cbn. destruct (Dict.get k d); [f_equal; lia|reflexivity].
  - cbn [fold_left filter]. rewrite IH.
    rewrite get_set_tally, (key_eqb_sym (f x) k).
    destruct (key_eqb k (f x)) eqn:E.
    + apply key_eqb_eq in E. subst k. unfold Dict.get_default.
      cbn [List.length].
      destruct (Dict.get (f x) d); [f_equal; lia|].
      destruct (List.length _); f_equal; lia.
    + reflexivity.
Qed.

End Tally.

Lemma dtype_str_inj a b : dtype_str a = dtype_str b -> a = b.
Proof. destruct a, b; cbn; intro E; try reflexivity; discriminate E. Qed.

Lemma dtype_name_eqb a b :
  String.eqb (dtype_str a) (dtype_str b) = dtype_eqb a b.
Proof. destruct a, b; reflexivity. Qed.

End TallyFacts.

Module ListingFacts.
Import Inspector InspectorFacts ScriptFacts.

Lemma ascii_compare_refl a : Ascii.compare a a = Eq.
Proof. unfold Ascii.compare. apply N.compare_refl. Qed.

Lemma ascii_compare_lt_trans a b c :
  Ascii.compare a b = Lt -> Ascii.compare b c = Lt -> Ascii.compare a c = Lt.
Proof.
  unfold Ascii.compare. rewrite !N.compare_lt_iff. lia.
Qed.

Lemma compare_not_gt_trans s1 : forall s2 s3,
  String.compare s1 s2 <> Gt -> String.compare s2 s3 <> Gt ->
  String.compare s1 s3 <> Gt.
Proof.
  induction s1 as [|a s1 IH]; intros [|b s2] [|c s3]; cbn; try congruence.
  destruct (Ascii.compare a b) eqn:Eab; try congruence;
    destruct (Ascii.compare b c) eqn:Ebc; try congruence.
  - apply Ascii.compare_eq_iff in Eab, Ebc. subst.
    rewrite ascii_compare_refl. apply IH.
  - apply Ascii.compare_eq_iff in Eab. subst. rewrite Ebc. congruence.
  - apply Ascii.compare_eq_iff in Ebc. subst. rewrite Eab. congruence.
  - rewrite (ascii_compare_lt_trans _ _ _ Eab Ebc). congruence.
Qed.

Lemma leb_not_gt a b : String.leb a b = true <-> String.compare a b <> Gt.
Proof.
  unfold String.leb. destruct (String.compare a b); split; congruence.
Qed.

Lemma string_le_trans a b c : string_le a b -> string_le b c -> string_le a c.
Proof.
  unfold string_le. rewrite !leb_not_gt. apply compare_not_gt_trans.
Qed.

Lemma string_le_antisym a b : string_le a b -> string_le b a -> a = b.
Proof. apply String.leb_antisym. Qed.

Lemma Sorted_strongly l : Sorted string_le l -> StronglySorted string_le l.
Proof.
  apply Sorted_StronglySorted. intros a b c. apply string_le_trans.
Qed.

Lemma sorted_unique l : forall l',
  StronglySorted string_le l -> StronglySorted string_le l' ->
  Permutation l l' -> l = l'.
Proof.
  induction l as [|x l IH]; intros l' Hs Hs' Hp.
  - apply Permutation_nil in Hp. now subst.
  - destruct l' as [|y l'].
    + apply Permutation_sym, Permutation_nil in Hp. discriminate.
    + apply StronglySorted_inv in Hs as [Hs Hx].
      apply StronglySorted_inv in Hs' as [Hs' Hy].
      rewrite Forall_forall in Hx, Hy.
      assert (Hxy : x = y).
      { assert (Hin : In x (y :: l'))
          by (eapply Permutation_in; [exact Hp|now left]).
        assert (Hin' : In y (x :: l))
          by (eapply Permutation_in; [apply Permutation_sym, Hp|now left]).
        destruct Hin as [E|Hin]; [now symmetry|].
        destruct Hin' as [E|Hin']; [assumption|].
        apply string_le_antisym; [now apply Hx|now apply Hy]. }
      subst y. f_equal. apply IH; try assumption.
      eapply Permutation_cons_inv. exact Hp.
Qed.

Lemma sorted_perm l l' : Permutation l l' -> sorted l = sorted l'.
Proof.
  intro Hp.
  destruct (sorted_spec l) as [S1 P1], (sorted_spec l') as [S2 P2].
  apply sorted_unique; try now apply Sorted_strongly.
  rewrite P1, P2. exact Hp.
Qed.

Lemma filter_perm {A} (f : A -> bool) l l' :
  Permutation l l' -> Permutation (filter f l) (filter f l').
Proof.
  induction 1 as [|x l l' _ IH|x y l|l l' l'' _ IH1 _ IH2]; cbn.
  - constructor.
  - destruct (f x); [now constructor|assumption].
  - destruct (f x), (f y); try reflexivity. apply perm_swap.
  - now transitivity (filter f l').
Qed.

Lemma matching_perm label l l' :
  Permutation l l' -> Permutation (matching label l) (matching label l').
Proof. apply filter_perm. Qed.

Lemma StronglySorted_app_inv {A} (R : A -> A -> Prop) l1 : forall l2,
  StronglySorted R (l1 ++ l2) ->
  StronglySorted R l1
  /\ (forall a b, In a l1 -> In b l2 -> R a b).
Proof.
  induction l1 as [|x l1 IH]; intros l2 H.
  - split; [constructor|intros a b []].
  - cbn in H. apply StronglySorted_inv in H as [H Hx].
    destruct (IH _ H) as [Hs Hc]. rewrite Forall_forall in Hx. split.
    + constructor; [assumption|]. rewrite Forall_forall.
      intros y Hy. apply Hx, in_or_app. now left.
    + intros a b [->|Ha] Hb.
      * apply Hx, in_or_app. now right.
      * now apply Hc.
Qed.

Lemma path_exists_false w path :
  Dict.get path (fs w) = None ->
  path_exists path w
  = (Done false,
     mkWorld (fs w) (on_save w) (stdout w) (io_log w ++ [OpExists path])).
Proof.
  intro H. unfold path_exists, bind, log_op. cbn [fs on_save stdout io_log].
  unfold Dict.mem. now rewrite H.
Qed.

Lemma listdir_ok w path names sz :
  Dict.get path (fs w) = Some (mkFile (Directory names) sz) ->
  listdir path w
  = (Done names,
     mkWorld (fs w) (on_save w) (stdout w) (io_log w ++ [OpListdir path])).
Proof.
  intro H. unfold listdir, bind, log_op. cbn [fs on_save stdout io_log].
  now rewrite H.
Qed.

Lemma json_load_fails w path f :
  Dict.get path (fs w) = Some f ->
  (forall value, content f <> Json value) ->
  exists msg,
    json_load path w
    = (Raised (Exception msg),
       mkWorld (fs w) (on_save w) (stdout w) (io_log w ++ [OpOpen path])).
Proof.
  intros H Hc. unfold json_load, bind, log_op. cbn [fs on_save stdout io_log].
  rewrite H. destruct f as [[ | value | | ] sz]; try (eexists; reflexivity).
  exfalso. now apply (Hc value).
Qed.

Lemma get_weight_map_cases index_data w :
  (exists members weight_map,
      index_data = JObject members
      /\ Dict.get_default "weight_map" (JObject []) members = JObject weight_map
      /\ get_weight_map index_data w = (Done weight_map, w))
  \/ (exists msg, get_weight_map index_data w = (Raised (Exception msg), w)).
Proof.
  unfold get_weight_map.
  destruct index_data as [members| | | | |]; try (right; eexists; reflexivity).
  destruct (Dict.get_default "weight_map" (JObject []) members) as [wm| | | | |] eqn:E;
    try (right; eexists; reflexivity).
  left. now exists members, wm.
Qed.

End ListingFacts.

(* ================================================================== *)
(** * Outcomes of the quantization script *)
(* ================================================================== *)

Section RunProperties.
Import Quantizer DictFacts LoopFacts ScriptFacts Summary RunFacts.
Local Open Scope string_scope.

(** X1.  When both shards load, no quantizable tensor has size 0, at
    least one byte was counted and the write succeeds, the loop ends,
    [quantize_openelm_model] returns [True], the script ends with status
    0, and the only change of the file system is the output file, which
    holds the mapping the loop has built.  The files are touched in this
    order: two existence checks, two loads, the save, the size query. *)
Theorem X1_success_writes_quantized_mapping (w : world)
    (shard1 shard2 : Dict.dict string tensor) (sz1 sz2 sz : N) :
  Dict.get (path_join model_dir "model-00001-of-00002.safetensors") (fs w)
    = Some (mkFile (Safetensors shard1) sz1) ->
  Dict.get (path_join model_dir "model-00002-of-00002.safetensors") (fs w)
    = Some (mkFile (Safetensors shard2) sz2) ->
  loop_ready (combine [shard1; shard2]) = true ->
  loaded_bytes [shard1; shard2] <> 0%N ->
  on_save w = SaveOk sz ->
  exists output,
    quantize_weights (combine [shard1; shard2]) = Some output
    /\ fst (quantize_openelm_model w) = Done true
    /\ fst (run w) = 0%Z
    /\ fs (snd (run w))
       = Dict.set output_path (mkFile (Safetensors output) sz) (fs w)
    /\ Dict.get output_path (fs (snd (run w)))
       = Some (mkFile (Safetensors output) sz)
    /\ io_log (snd (run w))
       = (io_log w ++
          [ OpExists (path_join model_dir file1);
            OpExists (path_join model_dir file2);
            OpLoad (path_join model_dir file1);
            OpLoad (path_join model_dir file2);
            OpSave output_path; OpStat output_path ])%list.
Proof.
  intros H1 H2 Hready Hnz Hs.
  pose proof (quantize_loop_ready _ Hready) as Hloop.
  exists (completed_weights (combine [shard1; shard2])).
  split; [now apply quantize_weights_ready|].
  assert (Hm : forall w0, fs w0 = fs w -> on_save w0 = on_save w ->
            quantize_openelm_model w0
            = quantize_and_save (combine [shard1; shard2])
                (loaded_bytes [shard1; shard2]) (after_load w0)).
  { intros w0 Hf Ho. apply (model_loaded w0 _ _ sz1 sz2); now rewrite Hf. }
  split.
  - rewrite (Hm w eq_refl eq_refl).
    now rewrite (quantize_and_save_ok _ _ _ sz _ Hloop Hnz) by exact Hs.
  - pose proof (Hm (banner w) eq_refl eq_refl) as Hb.
    rewrite (quantize_and_save_ok _ _ _ sz _ Hloop Hnz) in Hb by exact Hs.
    destruct (run_of_model w _ _ Hb) as (Hr & Hf & Hl).
    rewrite Hr, Hf, Hl. cbn [fs io_log after_load banner].
    repeat split.
    + apply get_set_same.
    + now rewrite <- app_assoc.
Qed.

(** X1 on the two sample shards. *)
Lemma X1_success_writes_quantized_mapping_witness :
  exists output,
    quantize_weights (combine [Samples.shard_plain; Samples.shard_other])
    = Some output
    /\ fst (run Worlds.world_ok) = 0%Z
    /\ Dict.get output_path (fs (snd (run Worlds.world_ok)))
       = Some (mkFile (Safetensors output) 100).
Proof.
  destruct (X1_success_writes_quantized_mapping Worlds.world_ok
              Samples.shard_plain Samples.shard_other 200 200 100)
    as (output & H0 & _ & H1 & _ & H2 & _).
  - reflexivity.
  - reflexivity.
  - reflexivity.
  - vm_compute. discriminate.
  - reflexivity.
  - exists output. exact (conj H0 (conj H1 H2)).
Defined.

(** X2.  Whatever the files and whatever the outcome of the run, every
    path other than the output path holds after the run what it held
    before: the input shards are never modified or removed. *)
Theorem X2_other_paths_untouched (w : world) (path : string) :
  path <> output_path ->
  Dict.get path (fs (snd (run w))) = Dict.get path (fs w).
Proof.
  intro Hp.
  destruct (quantize_openelm_model (banner w)) as [r w'] eqn:E.
  destruct (run_of_model w r w' E) as (_ & -> & _).
  pose proof (model_cases (banner w)) as Hc. rewrite E in Hc. cbv zeta in Hc.
  cbn [fst snd] in Hc. rewrite banner_fs in Hc.
  destruct Hc as [[_ ->]|[(msg & _ & ->)|[(s1 & z1 & s2 & z2 & sz & _ & _ & _ & _ & _ & _ & ->)|[_ ->]]]];
    try reflexivity; now apply get_set_other.
Qed.

(** X2 for the first shard of the sample run. *)
Lemma X2_other_paths_untouched_witness :
  Dict.get Samples.shard1_path (fs (snd (run Worlds.world_ok)))
  = Dict.get Samples.shard1_path (fs Worlds.world_ok).
Proof.
  apply (X2_other_paths_untouched Worlds.world_ok Samples.shard1_path).
  vm_compute. discriminate.
Defined.

(** X3.  The script ends with status 0 or 1.  Status 0 is reached only
    when both shards were loaded, the loop ended without an exception,
    the byte total was not zero and the write succeeded, and then the
    output path holds the mapping the loop has built. *)
Theorem X3_exit_status_zero_means_saved (w : world) :
  (fst (run w) = 0%Z \/ fst (run w) = 1%Z)
  /\ (fst (run w) = 0%Z ->
      exists shard1 sz1 shard2 sz2 sz output,
        Dict.get (path_join model_dir file1) (fs w)
          = Some (mkFile (Safetensors shard1) sz1)
        /\ Dict.get (path_join model_dir file2) (fs w)
             = Some (mkFile (Safetensors shard2) sz2)
        /\ loaded_bytes [shard1; shard2] <> 0%N
        /\ on_save w = SaveOk sz
        /\ quantize_weights (combine [shard1; shard2]) = Some output
        /\ Dict.get output_path (fs (snd (run w)))
           = Some (mkFile (Safetensors output) sz)).
Proof.
  destruct (quantize_openelm_model (banner w)) as [r w'] eqn:E.
  destruct (run_of_model w r w' E) as (Hr & Hf & _).
  pose proof (model_cases (banner w)) as Hc. rewrite E in Hc. cbv zeta in Hc.
  cbn [fst snd] in Hc. rewrite banner_fs in Hc.
  rewrite Hr, Hf.
  destruct Hc as [[-> _]|[(msg & -> & _)|[(s1 & z1 & s2 & z2 & sz & H1 & H2 & Hready & Hnz & Hs & -> & ->)|[-> _]]]];
    cbn [exit_status]; (split; [auto|]); try discriminate.
  intros _. exists s1, z1, s2, z2, sz, (completed_weights (combine [s1; s2])).
  repeat split; auto.
  - now apply quantize_weights_ready.
  - apply get_set_same.
Qed.

(** X4.  When both shard files exist but one of them is not a tensor
    container, the exception of the loader is not caught: it leaves
    [main], the status is 1, no file is changed and nothing is saved. *)
Theorem X4_unreadable_shard_raises (w : world) :
  Dict.mem (path_join model_dir file1) (fs w) = true ->
  Dict.mem (path_join model_dir file2) (fs w) = true ->
  (exists file f,
     In file model_files
     /\ Dict.get (path_join model_dir file) (fs w) = Some f
     /\ forall tensors, content f <> Safetensors tensors) ->
  exists msg w' ops,
    main w = (Raised (Exception msg), w')
    /\ fst (run w) = 1%Z
    /\ fs w' = fs w
    /\ io_log w' = (io_log w ++ ops)%list
    /\ ~ In (OpSave output_path) ops.
Proof.
  intros M1 M2 (file & f & Hin & Hget & Hn).
  assert (Hcases :
    exists msg w' ops,
      quantize_openelm_model (banner w) = (Raised (Exception msg), w')
      /\ fs w' = fs w /\ io_log w' = (io_log w ++ ops)%list
      /\ ~ In (OpSave output_path) ops).
  { destruct (Dict.get (path_join model_dir file1) (fs w)) as [f1|] eqn:E1.
    2:{ unfold Dict.mem in M1. rewrite E1 in M1. discriminate. }
    destruct f1 as [[shard1| | |] sz1].
    2-4: (do 3 eexists;
          rewrite (model_unreadable_first (banner w) _ E1)
            by (try (intros t; discriminate); exact M2);
          split; [reflexivity|]; cbn [fs io_log banner];
          split; [reflexivity|]; split; [reflexivity|];
          cbn; intuition discriminate).
    destruct Hin as [<-|[<-|[]]].
    - fold file1 in Hget. rewrite E1 in Hget. injection Hget as <-.
      exfalso. exact (Hn shard1 eq_refl).
    - fold file2 in Hget. do 3 eexists.
      rewrite (model_unreadable_second (banner w) _ _ _ E1 Hget Hn).
      split; [reflexivity|]. cbn [fs io_log banner].
      split; [reflexivity|]. split; [reflexivity|].
      cbn. intuition discriminate. }
  destruct Hcases as (msg & w' & ops & Hq & Hf & Hl & Hns).
  exists msg, w', ops.
  pose proof (main_of_model w _ _ Hq) as Hm. cbv iota in Hm.
  destruct (run_of_model w _ _ Hq) as (Hr & _ & _).
  repeat split; assumption.
Qed.

(** X4 with a JSON document in place of the second shard. *)
Lemma X4_unreadable_shard_raises_witness :
  exists msg w' ops,
    main Worlds.world_unreadable = (Raised (Exception msg), w')
    /\ fst (run Worlds.world_unreadable) = 1%Z
    /\ fs w' = fs Worlds.world_unreadable
    /\ io_log w' = (io_log Worlds.world_unreadable ++ ops)%list
    /\ ~ In (OpSave output_path) ops.
Proof.
  apply (X4_unreadable_shard_raises Worlds.world_unreadable).
  - reflexivity.
  - reflexivity.
  - exists file2, (mkFile (Json JNull) 4).
    split; [right; left; reflexivity|]. split; [reflexivity|].
    intros t; discriminate.
Defined.

(** X5.  When the loaded tensors count zero bytes (no tensor, or only
    empty ones), the run cannot reach the save: a reduction of the loop
    raises on an empty quantizable tensor, or else the percentage of the
    size report divides by zero.  Either way an exception leaves [main],
    the status is 1, no file is changed, and the files were only checked
    and loaded. *)
Theorem X5_zero_bytes_raise_before_save (w : world)
    (shard1 shard2 : Dict.dict string tensor) (sz1 sz2 : N) :
  Dict.get (path_join model_dir "model-00001-of-00002.safetensors") (fs w)
    = Some (mkFile (Safetensors shard1) sz1) ->
  Dict.get (path_join model_dir "model-00002-of-00002.safetensors") (fs w)
    = Some (mkFile (Safetensors shard2) sz2) ->
  loaded_bytes [shard1; shard2] = 0%N ->
  exists msg w',
    main w = (Raised (Exception msg), w')
    /\ fst (run w) = 1%Z
    /\ fs w' = fs w
    /\ io_log w'
       = (io_log w ++
          [ OpExists (path_join model_dir file1);
            OpExists (path_join model_dir file2);
            OpLoad (path_join model_dir file1);
            OpLoad (path_join model_dir file2) ])%list.
Proof.
  intros H1 H2 Hz.
  assert (Hq : quantize_openelm_model (banner w)
               = quantize_and_save (combine [shard1; shard2]) 0%N
                   (after_load (banner w))).
  { rewrite <- Hz. now apply (model_loaded (banner w) _ _ sz1 sz2). }
  assert (Hraise : exists msg out,
            quantize_openelm_model (banner w)
            = (Raised (Exception msg),
               mkWorld (fs w) (on_save w) out
                 (io_log (after_load (banner w))))).
  { rewrite Hq. destruct (loop_ready (combine [shard1; shard2])) eqn:Er.
    - destruct (quantize_and_save_zero _ (after_load (banner w)) _
                  (quantize_loop_ready _ Er)) as [msg ->].
      exists msg. eexists. reflexivity.
    - destruct (quantize_loop_stops _ Er)
        as (before & kw & after & msg & _ & _ & _ & Hloop).
      rewrite (quantize_and_save_aborts _ _ _ _ _ Hloop).
      exists msg. eexists. reflexivity. }
  destruct Hraise as (msg & out & Hm).
  exists msg. eexists.
  pose proof (main_of_model w _ _ Hm) as Hmain. cbv iota in Hmain.
  destruct (run_of_model w _ _ Hm) as (Hr & _ & _).
  split; [exact Hmain|]. split; [exact Hr|]. split; reflexivity.
Qed.

(** X5 on two shards without tensors. *)
Lemma X5_zero_bytes_raise_before_save_witness :
  exists msg w',
    main Worlds.world_empty = (Raised (Exception msg), w')
    /\ fst (run Worlds.world_empty) = 1%Z
    /\ fs w' = fs Worlds.world_empty.
Proof.
  destruct (X5_zero_bytes_raise_before_save Worlds.world_empty [] [] 8 8)
    as (msg & w' & H1 & H2 & H3 & _); try reflexivity.
  exists msg, w'. repeat split; assumption.
Defined.

(** X24.  When both shards load and some quantizable tensor of the
    combined mapping has size 0, the reduction of the loop raises on it:
    no output mapping exists, the exception leaves [main], the status is
    1, no file is changed, and the files were only checked and loaded. *)
Theorem X24_empty_tensor_aborts (w : world)
    (shard1 shard2 : Dict.dict string tensor) (sz1 sz2 : N) :
  Dict.get (path_join model_dir "model-00001-of-00002.safetensors") (fs w)
    = Some (mkFile (Safetensors shard1) sz1) ->
  Dict.get (path_join model_dir "model-00002-of-00002.safetensors") (fs w)
    = Some (mkFile (Safetensors shard2) sz2) ->
  loop_ready (combine [shard1; shard2]) = false ->
  quantize_weights (combine [shard1; shard2]) = None
  /\ exists msg w',
       main w = (Raised (Exception msg), w')
       /\ fst (run w) = 1%Z
       /\ fs w' = fs w
       /\ io_log w'
          = (io_log w ++
             [ OpExists (path_join model_dir file1);
               OpExists (path_join model_dir file2);
               OpLoad (path_join model_dir file1);
               OpLoad (path_join model_dir file2) ])%list.
Proof.
  intros H1 H2 Hready.
  destruct (quantize_loop_stops _ Hready)
    as (before & kw & after & msg & _ & _ & _ & Hloop).
  split; [unfold quantize_weights; now rewrite Hloop|].
  assert (Hm : quantize_openelm_model (banner w)
               = (Raised (Exception msg),
                  mkWorld (fs w) (on_save w)
                    (stdout (after_load (banner w))
                     ++ loop_lines (combine [shard1; shard2])
                          (loaded_bytes [shard1; shard2])
                          (completed_loop before))
                    (io_log (after_load (banner w))))).
  { rewrite (model_loaded (banner w) _ _ sz1 sz2 H1 H2).
    now rewrite (quantize_and_save_aborts _ _ _ _ _ Hloop). }
  exists msg. eexists.
  pose proof (main_of_model w _ _ Hm) as Hmain. cbv iota in Hmain.
  destruct (run_of_model w _ _ Hm) as (Hr & _ & _).
  split; [exact Hmain|]. split; [exact Hr|]. split; reflexivity.
Qed.

(** X24 on a first shard with a float32 tensor of shape (0, 4). *)
Lemma X24_empty_tensor_aborts_witness :
  quantize_weights (combine [Worlds.shard_with_empty; Samples.shard_other])
  = None
  /\ fst (run Worlds.world_with_empty) = 1%Z.
Proof.
  destruct (X24_empty_tensor_aborts Worlds.world_with_empty
              Worlds.shard_with_empty Samples.shard_other 200 200
              eq_refl eq_refl eq_refl)
    as (Hnone & msg & w' & _ & Hst & _).
  exact (conj Hnone Hst).
Defined.

End RunProperties.

(* ================================================================== *)
(** * The scale, the zero point and the least element *)
(* ================================================================== *)

Section ScaleProperties.
Import Float FloatFacts Quantizer QuantFacts ScaleFacts.
Local Open Scope Z_scope.

(** X6.  For a tensor of finite elements the zero point is one of the
    elements and no element is below it; the scale is never negative: it
    is [+inf] (the range overflowed) or a finite number that is at least
    zero. *)
Theorem X6_zero_point_least_scale_nonneg (weight : tensor) (w : fval) :
  all_finite (elems weight) ->
  In w (elems weight) ->
  In (zero_point_of weight) (elems weight)
  /\ (forall v, In v (elems weight) ->
        (F2Q (zero_point_of weight) <= F2Q v)%Q)
  /\ (scale_of weight = Inf false
      \/ (is_finite (scale_of weight) = true
          /\ (0 <= F2Q (scale_of weight))%Q)).
Proof.
  intros Hf Hw.
  destruct (weight_min_spec weight w Hf Hw) as (_ & Hin & Hmin).
  split; [exact Hin|]. split; [exact Hmin|].
  destruct (scale_nonneg weight w Hf Hw) as [->|(m & e & -> & Hm)].
  - now left.
  - right. split; [reflexivity|now apply F2Q_nonneg].
Qed.

(** X6 on the float32 sample. *)
Lemma X6_zero_point_least_scale_nonneg_witness :
  In (zero_point_of Samples.grid32) (elems Samples.grid32)
  /\ (forall v, In v (elems Samples.grid32) ->
        (F2Q (zero_point_of Samples.grid32) <= F2Q v)%Q)
  /\ (scale_of Samples.grid32 = Inf false
      \/ (is_finite (scale_of Samples.grid32) = true
          /\ (0 <= F2Q (scale_of Samples.grid32))%Q)).
Proof.
  apply (X6_zero_point_least_scale_nonneg Samples.grid32 (Fin 1 (-2))).
  - repeat constructor.
  - right; left; reflexivity.
Defined.

(** X7.  In a quantizable tensor of finite elements whose scale is not
    zero, an element equal to the minimum is stored as -128. *)
Theorem X7_minimum_stored_as_minus_128 (weight : tensor) (w : fval) :
  is_quantizable weight = true ->
  all_finite (elems weight) ->
  In w (elems weight) ->
  (F2Q w == F2Q (weight_min weight))%Q ->
  is_zero (scale_of weight) = false ->
  quantize_elem weight w = -128.
Proof.
  intros Hq Hf Hw Heq Hz.
  destruct (quantizable_format weight Hq) as [Hp He].
  destruct (weight_min_spec weight w Hf Hw) as (Hmf & _ & _).
  unfold quantize_elem, pre_cast, quantized_float.
  set (fmt := dtype_format _) in *.
  rewrite (fsub_equal_zero fmt w (zero_point_of weight))
    by (try assumption; eapply all_finite_In; eassumption).
  assert (Hdiv : fdiv fmt (Fin 0 0) (scale_of weight) = Fin 0 0).
  { destruct (scale_nonneg weight w Hf Hw) as [->|(m & e & Es & Hm)].
    - reflexivity.
    - rewrite Es in *. unfold fdiv. rewrite Hz.
      apply round_zero. unfold F2Q, Qdiv.
      change (inject_Z 0) with 0%Q. ring. }
  rewrite Hdiv. unfold clip_offset.
  change (clip (Fin 0 0) c0 c255) with (Fin 0 0).
  unfold fsub, c128.
  change (F2Q (Fin 0 0) - F2Q (Fin 128 0))%Q with (0 * 1 - 128 * 1)%Q.
  assert (Hr : round fmt (0 * 1 - 128 * 1) = round fmt (0 - 128)).
  { unfold round. reflexivity. }
  rewrite Hr. now apply round_minus_128.
Qed.

(** X7 on the float32 sample, whose least element is 0. *)
Lemma X7_minimum_stored_as_minus_128_witness :
  quantize_elem Samples.grid32 (Fin 0 0) = -128.
Proof.
  apply (X7_minimum_stored_as_minus_128 Samples.grid32 (Fin 0 0)).
  - reflexivity.
  - repeat constructor.
  - left; reflexivity.
  - vm_compute. reflexivity.
  - vm_compute. reflexivity.
Defined.

End ScaleProperties.

(* ================================================================== *)
(** * The totals of the loading and of the quantization loop *)
(* ================================================================== *)

Section AccountingProperties.
Import Quantizer DictFacts LoopFacts Summary AccountFacts.
Local Open Scope string_scope.

(** X8.  The byte total of the loading loop is the sum over every tensor
    of every shard, repeated names included, while the number of loaded
    tensors is the number of distinct names; so the count is at most the
    number of tensors read. *)
Theorem X8_loaded_totals (shards : list (Dict.dict string tensor)) :
  loaded_bytes shards = sum_nbytes (List.concat shards)
  /\ Dict.len (combine shards)
     = List.length (nodup string_dec (Dict.keys (List.concat shards)))
  /\ (Dict.len (combine shards) <= List.length (List.concat shards))%nat.
Proof.
  split; [|split].
  - unfold loaded_bytes. rewrite fold_add_weights_snd. cbn. reflexivity.
  - unfold Dict.len. rewrite <- (length_map fst).
    apply Permutation_length. apply NoDup_Permutation.
    + apply NoDup_combine.
    + apply NoDup_nodup.
    + intro k. rewrite nodup_In. unfold combine.
      change (map fst ?l) with (Dict.keys l).
      rewrite keys_fold_add_weights. cbn. tauto.
  - unfold Dict.len. rewrite <- (length_map fst (combine shards)).
    rewrite <- (length_map fst (List.concat shards)).
    apply NoDup_incl_length; [apply NoDup_combine|].
    intros k Hk. unfold combine in Hk.
    change (map fst ?l) with (Dict.keys l) in Hk.
    rewrite keys_fold_add_weights in Hk. cbn in Hk. tauto.
Qed.

(** X9.  When no quantizable tensor has size 0, the loop ends and its
    byte total is, summed over the input tensors, one byte per element
    plus two scalars of the tensor's own dtype for a quantized tensor, and
    the tensor's bytes for any other. *)
Theorem X9_quantized_bytes_formula (all_weights : Dict.dict string tensor) :
  loop_ready all_weights = true ->
  exists st,
    quantize_loop all_weights = (st, None)
    /\ quantized_bytes st = sum_entry_bytes all_weights.
Proof.
  intro Hready. exists (completed_loop all_weights).
  split; [now apply quantize_loop_ready|].
  unfold completed_loop, Dict.items. rewrite loop_bytes. reflexivity.
Qed.

(** X9 on the first sample shard: 12 bytes for the quantized tensor, 8
    and 16 for the two others. *)
Lemma X9_quantized_bytes_formula_witness :
  exists st,
    quantize_loop Samples.shard_plain = (st, None)
    /\ quantized_bytes st = 36%N.
Proof.
  destruct (X9_quantized_bytes_formula Samples.shard_plain eq_refl)
    as (st & Hloop & Hbytes).
  exists st. split; [exact Hloop|]. rewrite Hbytes. reflexivity.
Defined.

(** X10.  When every quantized tensor has at least four elements, the
    loop ends and the byte total after quantization does not exceed the
    byte total counted while loading: the reported ratio is at most
    100%. *)
Theorem X10_quantized_total_at_most_loaded
    (shards : list (Dict.dict string tensor)) :
  (forall key weight, In (key, weight) (combine shards) ->
     is_quantizable weight = true -> (4 <= size weight)%N) ->
  exists st,
    quantize_loop (combine shards) = (st, None)
    /\ (quantized_bytes st <= loaded_bytes shards)%N.
Proof.
  intro H.
  assert (Hready : loop_ready (combine shards) = true).
  { apply forallb_forall. intros [key weight] Hin. cbn [snd].
    destruct (is_quantizable weight) eqn:Eq; [|reflexivity].
    specialize (H key weight Hin Eq). unfold reduction_fails.
    destruct (N.eqb_spec (size weight) 0) as [E|_]; [|reflexivity].
    rewrite E in H. lia. }
  exists (completed_loop (combine shards)).
  split; [now apply quantize_loop_ready|].
  unfold completed_loop, Dict.items. rewrite loop_bytes.
  cbn [quantized_bytes].
  pose proof (sum_entry_bytes_le (combine shards) H) as H1.
  pose proof (fold_add_weights_bound shards (Dict.empty, 0%N)) as H2.
  cbn [fst snd] in H2. specialize (H2 (N.le_refl _)).
  unfold combine, loaded_bytes in *. lia.
Qed.

(** X10 on the first sample shard: 36 bytes after 40. *)
Lemma X10_quantized_total_at_most_loaded_witness :
  exists st,
    quantize_loop (combine Worlds.shards_plain) = (st, None)
    /\ (quantized_bytes st <= loaded_bytes Worlds.shards_plain)%N.
Proof.
  apply (X10_quantized_total_at_most_loaded Worlds.shards_plain).
  intros key weight Hin Hq.
  vm_compute in Hin.
  destruct Hin as [E|[E|[E|[]]]]; injection E as <- <-;
    vm_compute; discriminate.
Defined.

End AccountingProperties.

(* ================================================================== *)
(** * The names of the output, its order, the report and the tallies *)
(* ================================================================== *)

Section OutputProperties.
Import Quantizer DictFacts LoopFacts StringFacts Summary AccountFacts
  OutputFacts TallyFacts.
Local Open Scope string_scope.

(** X11.  When no quantizable tensor has size 0, the loop ends and the
    names of the output are the names of the input together with the two
    side-car names of every quantized tensor, each once; so the output has
    at most the input's tensors plus two per quantized tensor. *)
Theorem X11_output_names (all_weights : Dict.dict string tensor) :
  loop_ready all_weights = true ->
  exists output,
    quantize_weights all_weights = Some output
    /\ (forall k,
          In k (Dict.keys output)
          <-> In k (Dict.keys all_weights)
              \/ exists key weight,
                   In (key, weight) all_weights
                   /\ is_quantizable weight = true
                   /\ (k = key ++ ".scale" \/ k = key ++ ".zero_point"))
    /\ NoDup (Dict.keys output)
    /\ (Dict.len output
        <= List.length all_weights
           + 2 * List.length
                   (filter (fun kw => is_quantizable (snd kw)) all_weights))%nat.
Proof.
  intro Hready. exists (completed_weights all_weights).
  split; [now apply quantize_weights_ready|].
  rewrite completed_weights_writes.
  split; [|split].
  - intro k. rewrite keys_apply_writes. cbn [Dict.keys Dict.empty map In].
    split.
    + intros [[]|H]. now apply written_names.
    + intros [H|(key & weight & Hin & Hq & Hk)]; right.
      * unfold Dict.keys in H. apply in_map_iff in H as ([k0 t0] & <- & Hin).
        now apply (entry_names_written k0 t0).
      * destruct (entry_names_written key weight _ Hin) as [_ H].
        destruct (H Hq) as [H1 H2]. destruct Hk as [->| ->]; assumption.
  - apply NoDup_apply_writes. constructor.
  - rewrite <- length_writes. unfold Dict.len.
    rewrite <- (length_map fst (apply_writes _ _)).
    rewrite <- (length_map fst (flat_map _ _)).
    apply NoDup_incl_length; [apply NoDup_apply_writes; constructor|].
    intros x Hx. change (map fst ?l) with (Dict.keys l) in Hx at 1.
    rewrite keys_apply_writes in Hx. destruct Hx as [[]|Hx]. exact Hx.
Qed.

(** X11 on the first sample shard: five names. *)
Lemma X11_output_names_witness :
  exists output,
    quantize_weights Samples.shard_plain = Some output
    /\ Dict.keys output
       = [ "layers.0.weight"; "layers.0.weight.scale";
           "layers.0.weight.zero_point"; "layers.0.bias"; "position_ids" ].
Proof.
  destruct (X11_output_names Samples.shard_plain eq_refl)
    as (output & Hout & _).
  exists output. split; [exact Hout|].
  vm_compute in Hout. injection Hout as <-. reflexivity.
Defined.

(** X12.  When no quantizable tensor has size 0 and the names written by
    the loop are pairwise distinct, the output holds the entries in the
    order of the input, each quantized tensor followed at once by its
    scale and its zero point, and its length is the number of input
    tensors plus two per quantized tensor. *)
Theorem X12_output_in_order (all_weights : Dict.dict string tensor) :
  loop_ready all_weights = true ->
  NoDup (map fst (flat_map entry_writes all_weights)) ->
  quantize_weights all_weights = Some (flat_map entry_writes all_weights)
  /\ List.length (flat_map entry_writes all_weights)
     = (List.length all_weights
        + 2 * List.length
                (filter (fun kw => is_quantizable (snd kw)) all_weights))%nat.
Proof.
  intros Hready H. split; [|apply length_writes].
  rewrite (quantize_weights_ready _ Hready). f_equal.
  rewrite completed_weights_writes. now rewrite apply_writes_fresh.
Qed.

(** X12 on the first sample shard. *)
Lemma X12_output_in_order_witness :
  quantize_weights Samples.shard_plain
  = Some (flat_map entry_writes Samples.shard_plain)
  /\ List.length (flat_map entry_writes Samples.shard_plain) = 5%nat.
Proof.
  apply (X12_output_in_order Samples.shard_plain); [reflexivity|].
  vm_compute.
  repeat (constructor; [cbn; intuition discriminate|]). constructor.
Defined.

(** X13.  When no quantizable tensor has size 0 and no loaded name ends
    in [.scale] or [.zero_point], the loop ends and the progress lines
    are those of the quantized tensors among the first five loaded
    tensors, in their order; there are at most five. *)
Theorem X13_report_first_five (shards : list (Dict.dict string tensor)) :
  loop_ready (combine shards) = true ->
  forallb plain_name (Dict.keys (combine shards)) = true ->
  exists st,
    quantize_loop (combine shards) = (st, None)
    /\ report st
       = map tensor_line
           (filter (fun kw => is_quantizable (snd kw))
              (firstn 5 (combine shards)))
    /\ (List.length (report st) <= 5)%nat.
Proof.
  intros Hready Hpl. exists (completed_loop (combine shards)).
  split; [now apply quantize_loop_ready|].
  assert (E : report (completed_loop (combine shards))
              = map tensor_line
                  (filter (fun kw => is_quantizable (snd kw))
                     (firstn 5 (combine shards)))).
  { unfold completed_loop, Dict.items.
    rewrite report_loop; try assumption.
    - reflexivity.
    - apply NoDup_combine.
    - intros k _ []. }
  split; [exact E|]. rewrite E, length_map.
  etransitivity; [apply filter_length_le|]. apply firstn_le_length.
Qed.

(** X13 on the two sample shards. *)
Lemma X13_report_first_five_witness :
  exists st,
    quantize_loop (combine [Samples.shard_plain; Samples.shard_other])
    = (st, None)
    /\ List.length (report st) = 2%nat.
Proof.
  destruct (X13_report_first_five
              [Samples.shard_plain; Samples.shard_other] eq_refl eq_refl)
    as (st & Hloop & Hrep & _).
  exists st. split; [exact Hloop|]. rewrite Hrep. reflexivity.
Defined.

(** X22.  When no quantizable tensor has size 0, the loop ends and, for
    every tensor of the combined input whose dtype is none of float32,
    float16, bfloat16, or whose rank is below 2, and whose name is not the
    side-car name ([k.scale], [k.zero_point]) of a quantizable input
    tensor, the output holds that very tensor (dtype, shape and elements)
    under its name. *)
Theorem X22_passthrough_identical (shards : list (Dict.dict string tensor))
    (key : string) (weight : tensor) :
  loop_ready (combine shards) = true ->
  Dict.get key (combine shards) = Some weight ->
  (t_dtype weight <> float32 /\ t_dtype weight <> float16
   /\ t_dtype weight <> bfloat16)
  \/ (List.length (t_shape weight) < 2)%nat ->
  is_sidecar_name (combine shards) key = false ->
  exists output,
    quantize_weights (combine shards) = Some output
    /\ Dict.get key output = Some weight.
Proof.
  intros Hready Hget Hclass Hside.
  exists (completed_weights (combine shards)).
  split; [now apply quantize_weights_ready|].
  apply not_quantizable_iff in Hclass. apply get_In in Hget.
  exact (passthrough_kept (combine shards) key weight
           (NoDup_combine shards) Hget Hclass Hside).
Qed.

(** X22 at the two sample shards and their int32 tensor. *)
Lemma X22_passthrough_identical_witness :
  exists output,
    quantize_weights (combine [Samples.shard_plain; Samples.shard_other])
    = Some output
    /\ Dict.get "position_ids" output = Some Samples.ids32.
Proof.
  apply (X22_passthrough_identical
           [Samples.shard_plain; Samples.shard_other]
           "position_ids" Samples.ids32).
  - reflexivity.
  - vm_compute. reflexivity.
  - left. repeat split; discriminate.
  - vm_compute. reflexivity.
Defined.

(** X23.  When no quantizable tensor has size 0, the loop ends and, for
    every quantizable tensor [k] of the combined input such that [k] is
    not the side-car name of a quantizable input tensor and neither
    [k.scale] nor [k.zero_point] is a tensor name of the input, the output
    holds three entries: [k] with an 8-bit tensor of the shape of the
    input, and [k.scale] and [k.zero_point], zero-rank tensors holding the
    scale and the minimum of the tensor. *)
Theorem X23_three_entries (shards : list (Dict.dict string tensor))
    (key : string) (weight : tensor) :
  loop_ready (combine shards) = true ->
  Dict.get key (combine shards) = Some weight ->
  is_quantizable weight = true ->
  is_sidecar_name (combine shards) key = false ->
  sidecar_taken (combine shards) key = false ->
  exists output q scale zero_point,
    quantize_weights (combine shards) = Some output
    /\ Dict.get key output = Some q
    /\ Dict.get (key ++ ".scale") output = Some scale
    /\ Dict.get (key ++ ".zero_point") output = Some zero_point
    /\ t_dtype q = int8 /\ t_shape q = t_shape weight
    /\ t_shape scale = [] /\ t_shape zero_point = []
    /\ elems scale = [scale_of weight]
    /\ elems zero_point = [weight_min weight].
Proof.
  intros Hready Hget Hq Hside Htaken. apply get_In in Hget.
  pose proof (NoDup_combine shards) as Hnd.
  destruct (sidecars_stored _ key weight Hnd Hget Hq Htaken) as [Hs Hz].
  exists (completed_weights (combine shards)), (quantized_int8 weight),
    (scale_tensor weight), (zero_point_tensor weight).
  split; [now apply quantize_weights_ready|].
  repeat split; try assumption.
  exact (quantized_stored _ key weight Hnd Hget Hq Hside).
Qed.

(** X23 at the first sample shard and its float32 tensor. *)
Lemma X23_three_entries_witness :
  exists output q scale zero_point,
    quantize_weights (combine [Samples.shard_plain]) = Some output
    /\ Dict.get "layers.0.weight" output = Some q
    /\ Dict.get "layers.0.weight.scale" output = Some scale
    /\ Dict.get "layers.0.weight.zero_point" output = Some zero_point
    /\ t_dtype q = int8 /\ t_shape q = t_shape Samples.grid32
    /\ t_shape scale = [] /\ t_shape zero_point = []
    /\ elems scale = [scale_of Samples.grid32]
    /\ elems zero_point = [weight_min Samples.grid32].
Proof.
  apply (X23_three_entries [Samples.shard_plain] "layers.0.weight"
           Samples.grid32); vm_compute; reflexivity.
Defined.

(** X14.  The two debug tallies count exactly: the entry of a dtype is
    the number of loaded tensors of that dtype, the entry of a rank the
    number of tensors of that rank, and a dtype or rank that no tensor
    has gets no entry, as does any name that is no dtype. *)
Theorem X14_tallies (all_weights : Dict.dict string tensor) :
  (forall d : dtype,
     Dict.get (dtype_str d) (dtype_counts all_weights)
     = match List.length
               (filter (fun kw => dtype_eqb (t_dtype (snd kw)) d) all_weights)
       with O => None | n => Some n end)
  /\ (forall name,
        (forall d, name <> dtype_str d) ->
        Dict.get name (dtype_counts all_weights) = None)
  /\ (forall rank : nat,
        Dict.get rank (shape_counts all_weights)
        = match List.length
                  (filter (fun kw => (List.length (t_shape (snd kw)) =? rank)%nat)
                     all_weights)
          with O => None | n => Some n end).
Proof.
  split; [|split].
  - intro d. unfold dtype_counts, Dict.items.
    rewrite (tally_get (fun kw : string * tensor => dtype_str (t_dtype (snd kw))))
      by (intros a b; apply String.eqb_eq).
    cbn [Dict.get Dict.empty].
    erewrite filter_ext; [reflexivity|].
    intro kw. apply dtype_name_eqb.
  - intros name Hname. unfold dtype_counts, Dict.items.
    rewrite (tally_get (fun kw : string * tensor => dtype_str (t_dtype (snd kw))))
      by (intros a b; apply String.eqb_eq).
    cbn [Dict.get Dict.empty].
    replace (filter _ all_weights) with (@nil (string * tensor)); [reflexivity|].
    symmetry. induction all_weights as [|kw l IH]; [reflexivity|].
    cbn. unfold key_eqb, string_EqKey.
    destruct (String.eqb_spec (dtype_str (t_dtype (snd kw))) name) as [E|_].
    + exfalso. apply (Hname (t_dtype (snd kw))). now symmetry.
    + exact IH.
  - intro rank. unfold shape_counts, Dict.items.
    rewrite (tally_get (fun kw : string * tensor => List.length (t_shape (snd kw))))
      by (intros a b; apply Nat.eqb_eq).
    reflexivity.
Qed.

End OutputProperties.

(* ================================================================== *)
(** * The inspector: order, fallback and failures *)
(* ================================================================== *)

Section InspectorProperties.
Import Inspector InspectorFacts ScriptFacts ListingFacts.
Local Open Scope string_scope.

(** X15.  The listing does not depend on the order of the members of the
    weight map: two maps with the same entries give the same lines. *)
Theorem X15_listing_order_independent (weight_map weight_map' : Dict.dict string json) :
  Permutation weight_map weight_map' ->
  listing weight_map = listing weight_map'.
Proof.
  intro Hp.
  assert (Hk : Permutation (Dict.keys weight_map) (Dict.keys weight_map'))
    by (unfold Dict.keys; now apply Permutation_map).
  unfold listing, embedding_section, token_section, norm_section,
    transformer_section, section_counted, section_first10, total_line,
    Dict.len.
  rewrite (Permutation_length Hp).
  rewrite !(Permutation_length (matching_perm _ _ _ Hk)).
  rewrite !(sorted_perm _ _ (matching_perm _ _ _ Hk)).
  reflexivity.
Qed.

(** X15 on the sample index and a rearrangement of it. *)
Lemma X15_listing_order_independent_witness :
  listing Samples.index_norms = listing Worlds.index_norms_shuffled.
Proof.
  apply (X15_listing_order_independent
           Samples.index_norms Worlds.index_norms_shuffled).
  apply perm_swap.
Defined.

(** X16.  A first-ten section lists, in ascending order, ten of the
    matching names (all of them when there are fewer), and no name it
    leaves out is below a name it lists. *)
Theorem X16_first_ten_least (title : string) (ws : list string) :
  exists shown rest : list string,
    section_first10 title ws
    = Text (nl ++ title ++ " weights (first 10):") :: print_each shown
    /\ Permutation (shown ++ rest) ws
    /\ List.length shown = Nat.min 10 (List.length ws)
    /\ StronglySorted string_le shown
    /\ (forall a b, In a shown -> In b rest -> string_le a b).
Proof.
  exists (firstn 10 (sorted ws)), (skipn 10 (sorted ws)).
  destruct (sorted_spec ws) as [Hs Hp].
  split; [reflexivity|]. split; [now rewrite firstn_skipn|].
  split; [now rewrite length_firstn, (Permutation_length Hp)|].
  apply StronglySorted_app_inv. rewrite firstn_skipn.
  now apply Sorted_strongly.
Qed.

(** X17.  Without an index file and with the models directory present,
    the inspector prints its two notices and then the names of the
    directory that end in [.safetensors], in the order of the directory
    listing; it opens no file. *)
Theorem X17_fallback_lists_containers (w : world) (names : list string) (sz : N) :
  Dict.get index_path (fs w) = None ->
  Dict.get models_dir (fs w) = Some (mkFile (Directory names) sz) ->
  let found := filter (fun f => ends_with f ".safetensors") names in
  inspect_weights w
  = (Done tt,
     mkWorld (fs w) (on_save w)
       (stdout w
        ++ [ Text ("Index file not found at " ++ index_path);
             Text "Looking for safetensors files...";
             FoundFilesLine found ])
       (io_log w
        ++ [ OpExists index_path; OpExists models_dir; OpListdir models_dir ]))
  /\ (forall f, In f found <-> In f names /\ ends_with f ".safetensors" = true).
Proof.
  intros H1 H2 found. split.
  - unfold inspect_weights.
    erewrite bind_done by (eapply path_exists_false; exact H1).
    cbv beta iota. rewrite !bind_print.
    erewrite bind_done by (eapply path_exists_true; cbn [fs]; exact H2).
    cbv beta iota.
    erewrite bind_done by (eapply listdir_ok; cbn [fs]; exact H2).
    unfold print. cbn [fs on_save stdout io_log].
    rewrite <- !app_assoc. reflexivity.
  - intro f. unfold found. rewrite filter_In. reflexivity.
Qed.

(** X17 on a directory of four names, two of them tensor containers. *)
Lemma X17_fallback_lists_containers_witness :
  stdout (snd (inspect_weights Worlds.world_listing))
  = [ Text ("Index file not found at " ++ index_path);
      Text "Looking for safetensors files...";
      FoundFilesLine
        [ "model-00001-of-00002.safetensors"; "model-q8_0.safetensors" ] ].
Proof.
  rewrite (proj1 (X17_fallback_lists_containers Worlds.world_listing
                    _ 128%N eq_refl eq_refl)).
  reflexivity.
Defined.

(** X18.  Without an index file and without the models directory, the
    inspector prints its two notices and that the directory was not
    found, lists nothing and ends normally. *)
Theorem X18_fallback_without_directory (w : world) :
  Dict.get index_path (fs w) = None ->
  Dict.get models_dir (fs w) = None ->
  inspect_weights w
  = (Done tt,
     mkWorld (fs w) (on_save w)
       (stdout w
        ++ [ Text ("Index file not found at " ++ index_path);
             Text "Looking for safetensors files...";
             Text ("Models directory not found at " ++ models_dir) ])
       (io_log w ++ [ OpExists index_path; OpExists models_dir ])).
Proof.
  intros H1 H2. unfold inspect_weights.
  erewrite bind_done by (eapply path_exists_false; exact H1).
  cbv beta iota. rewrite !bind_print.
  erewrite bind_done by (eapply path_exists_false; cbn [fs]; exact H2).
  cbv beta iota. unfold print. cbn [fs on_save stdout io_log].
  rewrite <- !app_assoc. reflexivity.
Qed.

(** X18 on an empty disk. *)
Lemma X18_fallback_without_directory_witness :
  fst (inspect_weights Worlds.world_bare) = Done tt
  /\ List.length (stdout (snd (inspect_weights Worlds.world_bare))) = 3%nat.
Proof.
  rewrite (X18_fallback_without_directory Worlds.world_bare eq_refl eq_refl).
  split; reflexivity.
Defined.

(** X19.  An index that is an object without the member [weight_map] is
    read as an empty map: the four headings are printed with the counts
    0 and no name, and the total is 0. *)
Theorem X19_index_without_weight_map (w : world)
    (members : Dict.dict string json) (sz : N) :
  Dict.get index_path (fs w) = Some (mkFile (Json (JObject members)) sz) ->
  Dict.get "weight_map" members = None ->
  exists w',
    inspect_weights w = (Done tt, w')
    /\ stdout w'
       = (stdout w
          ++ [ Text "Available weights in the model:";
               Text "==================================================";
               Text (nl ++ "Embedding weights (0):");
               Text (nl ++ "Token weights (0):");
               Text (nl ++ "Norm weights (first 10):");
               Text (nl ++ "Transformer weights (first 10):");
               Text (nl ++ "Total weights: 0") ])%list
    /\ fs w' = fs w.
Proof.
  intros H1 H2. eexists. split; [|split].
  - unfold inspect_weights.
    erewrite bind_done by (eapply path_exists_true; exact H1).
    cbv beta iota.
    erewrite bind_done by (eapply json_load_ok; cbn [fs]; exact H1).
    rewrite !bind_print. unfold get_weight_map, Dict.get_default.
    rewrite H2. reflexivity.
  - cbn [stdout]. rewrite <- !app_assoc. reflexivity.
  - reflexivity.
Qed.

(** X19 on an index that holds only [metadata]. *)
Lemma X19_index_without_weight_map_witness :
  exists w',
    inspect_weights Worlds.world_index_plain = (Done tt, w')
    /\ List.length (stdout w') = 7%nat.
Proof.
  destruct (X19_index_without_weight_map Worlds.world_index_plain
              [ ("metadata", JObject []) ] 20%N eq_refl eq_refl)
    as (w' & Hrun & Hout & _).
  exists w'. split; [exact Hrun|]. rewrite Hout. reflexivity.
Defined.

(** X20.  When the index path exists but does not hold an object whose
    [weight_map] is an object, the inspector ends with an exception and
    status 1 and prints no section: nothing at all when the file is not
    JSON, the two heading lines otherwise. *)
Theorem X20_malformed_index_raises (w : world) (f : file) :
  Dict.get index_path (fs w) = Some f ->
  (forall members weight_map,
     content f = Json (JObject members) ->
     Dict.get_default "weight_map" (JObject []) members <> JObject weight_map) ->
  exists msg w',
    inspect_weights w = (Raised (Exception msg), w')
    /\ exit_status (fst (inspect_weights w)) = 1%Z
    /\ fs w' = fs w
    /\ (stdout w' = stdout w
        \/ stdout w'
           = (stdout w
              ++ [ Text "Available weights in the model:";
                   Text "==================================================" ])%list)
    /\ (stdout w' = stdout w <-> forall value, content f <> Json value).
Proof.
  intros H1 Hbad. unfold inspect_weights.
  erewrite bind_done by (eapply path_exists_true; exact H1).
  cbv beta iota.
  destruct f as [c sz]. destruct c as [ts|value|ns|].
  2:{ erewrite bind_done by (eapply json_load_ok; cbn [fs]; exact H1).
      rewrite !bind_print.
      match goal with |- context [bind (get_weight_map value) ?k ?w0] =>
        destruct (get_weight_map_cases value w0)
          as [(members & wm & -> & Hwm & _)|[msg Hr]] end.
      - exfalso. exact (Hbad members wm eq_refl Hwm).
      - erewrite bind_raised by exact Hr.
        exists msg. eexists. split; [reflexivity|]. cbn [fst snd exit_status fs stdout].
        split; [reflexivity|]. split; [reflexivity|]. split.
        + right. rewrite <- app_assoc. reflexivity.
        + split.
          * intro E. exfalso. rewrite <- app_assoc in E.
            apply (f_equal (@List.length line)) in E.
            rewrite length_app in E. cbn in E. lia.
          * intro Hc. exfalso. now apply (Hc value). }
  all: match goal with |- context [bind (json_load index_path) ?k ?w0] =>
         edestruct (json_load_fails w0 index_path) as [msg Hr];
           [cbn [fs]; exact H1|cbn; congruence|] end;
       erewrite bind_raised by exact Hr;
       exists msg; eexists; (split; [reflexivity|]);
       cbn [fst snd exit_status fs stdout];
       (split; [reflexivity|]); (split; [reflexivity|]);
       (split; [now left|]); (split; [cbn; congruence|reflexivity]).
Qed.

(** X20 on an index that holds a JSON array. *)
Lemma X20_malformed_index_raises_witness :
  exit_status (fst (inspect_weights Worlds.world_index_array)) = 1%Z.
Proof.
  destruct (X20_malformed_index_raises Worlds.world_index_array
              (mkFile (Json (JArray [])) 2) eq_refl)
    as (msg & w' & _ & Hst & _).
  - intros members weight_map E. discriminate E.
  - exact Hst.
Defined.

(** X21.  Whatever the files, the inspector changes none of them; it
    only appends to the output, touches no path besides the index file
    and the models directory, and ends with status 0 or 1. *)
Theorem X21_inspector_read_only (w : world) :
  let w' := snd (inspect_weights w) in
  fs w' = fs w
  /\ on_save w' = on_save w
  /\ (exists printed, stdout w' = (stdout w ++ printed)%list)
  /\ (exists ops,
        io_log w' = (io_log w ++ ops)%list
        /\ incl ops [ OpExists index_path; OpOpen index_path;
                      OpExists models_dir; OpListdir models_dir ])
  /\ (exit_status (fst (inspect_weights w)) = 0%Z
      \/ exit_status (fst (inspect_weights w)) = 1%Z).
Proof.
  destruct w as [files outcome out log].
  unfold inspect_weights, path_exists, json_load, listdir, get_weight_map,
    print_lines, print, log_op, raise, ret.
  cbv beta iota zeta delta [bind fs on_save stdout io_log Dict.mem].
  destruct (Dict.get index_path files) as [[c sz]|] eqn:E1;
    cbv beta iota zeta delta [bind fs on_save stdout io_log Dict.mem];
    rewrite ?E1.
  - destruct c as [ts|value|ns|];
      [| destruct value as [members| | | | |];
         [destruct (Dict.get_default "weight_map" (JObject []) members)
            as [wm| | | | |]|..] |..];
      cbv beta iota zeta delta [fst snd fs on_save stdout io_log exit_status];
      rewrite <- ?app_assoc;
      (split; [reflexivity|]); (split; [reflexivity|]);
      (split; [first [eexists; reflexivity
                     |exists []; now rewrite app_nil_r]|]);
      (split; [eexists; split; [reflexivity|];
               intros o Ho; cbn in Ho |- *; tauto
              |auto]).
  - destruct (Dict.get models_dir files) as [[c sz]|] eqn:E2;
      cbv beta iota zeta delta [bind fs on_save stdout io_log Dict.mem];
      rewrite ?E2;
      [destruct c as [ts|value|ns|]|];
      cbv beta iota zeta delta [fst snd fs on_save stdout io_log exit_status];
      rewrite <- ?app_assoc;
      (split; [reflexivity|]); (split; [reflexivity|]);
      (split; [first [eexists; reflexivity
                     |exists []; now rewrite app_nil_r]|]);
      (split; [eexists; split; [reflexivity|];
               intros o Ho; cbn in Ho |- *; tauto
              |auto]).
Qed.

End InspectorProperties.
